(** * Data-quality rule engine of [modules/dq.py]: a shallow embedding

    The development follows the layout of [src/modules/dq.py]:

    - text cells and the null-sentinel vocabulary;
    - the rule-execution audit log and the scoring engine;
    - validity rules and their executor;
    - standardization transforms and their executor;
    - exact duplicate detection (single column, column combination);
    - the hybrid fuzzy engine: cell and row similarity, blocking, the
      comparison loop, union-find grouping.

    Conventions of the model.

    - Cell text is a [string] of 8-bit characters; [str.strip], [str.lower]
      and [str.upper] are modelled with their ASCII behaviour.
    - Python [float]s are modelled by exact rationals [Q]; [round(x, 2)] is
      rounding to the nearest hundredth, ties to even.
    - Python exceptions are modelled by the [result] monad.
    - Functions of third-party libraries ([re], pandas parsers, rapidfuzz)
      are parameters of the definitions that call them. *)

From Stdlib Require Import QArith Qround Qabs Lqa.
From stdpp Require Import base option list strings pretty gmap sorting.
From Stdlib Require Import Ascii.

Local Open Scope string_scope.
Local Open Scope list_scope.
Local Open Scope Z_scope.

(* ===================================================================== *)
(** * Text *)
(* ===================================================================== *)

Module Text.

(** [str.isspace] on the ASCII range: TAB..CR, FS..US and SPACE. *)
Definition is_space (c : ascii) : bool :=
  let n := nat_of_ascii c in
  (Nat.leb 9 n && Nat.leb n 13) || (Nat.leb 28 n && Nat.leb n 32).

Definition lower_char (c : ascii) : ascii :=
  let n := nat_of_ascii c in
  if Nat.leb 65 n && Nat.leb n 90 then ascii_of_nat (n + 32) else c.

Definition upper_char (c : ascii) : ascii :=
  let n := nat_of_ascii c in
  if Nat.leb 97 n && Nat.leb n 122 then ascii_of_nat (n - 32) else c.

Fixpoint map_string (f : ascii -> ascii) (s : string) : string :=
  match s with
  | EmptyString => EmptyString
  | String c s' => String (f c) (map_string f s')
  end.

(** [str.lower()], [str.upper()] *)
Definition lower : string -> string := map_string lower_char.
Definition upper : string -> string := map_string upper_char.

Fixpoint lstrip (s : string) : string :=
  match s with
  | EmptyString => EmptyString
  | String c s' => if is_space c then lstrip s' else s
  end.

Fixpoint rstrip (s : string) : string :=
  match s with
  | EmptyString => EmptyString
  | String c s' =>
      match rstrip s' with
      | EmptyString => if is_space c then EmptyString else String c EmptyString
      | r => String c r
      end
  end.

(** [str.strip()] *)
Definition strip (s : string) : string := rstrip (lstrip s).

(** [s[:n]] *)
Fixpoint take (n : nat) (s : string) : string :=
  match n, s with
  | S n', String c s' => String c (take n' s')
  | _, _ => EmptyString
  end.

(** [sep.join(l)] *)
Fixpoint join (sep : string) (l : list string) : string :=
  match l with
  | [] => ""
  | [x] => x
  | x :: l' => x +:+ sep +:+ join sep l'
  end.

Definition len (s : string) : Z := Z.of_nat (String.length s).

Definition is_alpha (c : ascii) : bool :=
  let n := nat_of_ascii c in
  (Nat.leb 65 n && Nat.leb n 90) || (Nat.leb 97 n && Nat.leb n 122).

Definition is_digit (c : ascii) : bool :=
  let n := nat_of_ascii c in Nat.leb 48 n && Nat.leb n 57.

(** [str.title()]: a letter that follows a letter is lowered, any other
    letter is raised. *)
Fixpoint title_from (prev_cased : bool) (s : string) : string :=
  match s with
  | EmptyString => EmptyString
  | String c s' =>
      String (if is_alpha c
              then (if prev_cased then lower_char c else upper_char c)
              else c)
             (title_from (is_alpha c) s')
  end.
Definition title : string -> string := title_from false.

(** [re.sub(r"\s+", " ", s)] *)
Fixpoint collapse_spaces_from (in_run : bool) (s : string) : string :=
  match s with
  | EmptyString => EmptyString
  | String c s' =>
      if is_space c
      then (if in_run then collapse_spaces_from true s'
            else String " " (collapse_spaces_from true s'))
      else String c (collapse_spaces_from false s')
  end.
Definition collapse_spaces : string -> string := collapse_spaces_from false.

(** [re.sub(r"[^a-zA-Z0-9\s]", "", s)] *)
Fixpoint keep_alnum_space (s : string) : string :=
  match s with
  | EmptyString => EmptyString
  | String c s' =>
      if is_alpha c || is_digit c || is_space c
      then String c (keep_alnum_space s')
      else keep_alnum_space s'
  end.

(** [s.split(sep)] for a one-character separator *)
Fixpoint split (sep : ascii) (s : string) : list string :=
  match s with
  | EmptyString => [EmptyString]
  | String c s' =>
      if Ascii.eqb c sep then EmptyString :: split sep s'
      else match split sep s' with
           | [] => [String c EmptyString]
           | w :: ws => String c w :: ws
           end
  end.

(** Truthiness of a Python [str]. *)
Definition truthy (s : string) : bool :=
  match s with EmptyString => false | _ => true end.

End Text.

(** The literal set repeated in every null-aware function of the module. *)
Definition _NULL_SENTINELS : list string :=
  [""; "nan"; "none"; "null"; "na"; "n/a"; "n.a."; "nil"; "missing"; "#n/a"].

(** [x in _NULL_SENTINELS] *)
Definition is_null_sentinel (s : string) : bool :=
  bool_decide (s ∈ _NULL_SENTINELS).

(** A cell of a [DataFrame]: a Python [str], or the float NaN that pandas
    uses for a missing value.  [load_dataset] reads with [dtype=str] and
    [keep_default_na=False], so the frames it produces hold [VStr] only. *)
Inductive cell : Type :=
| VStr (s : string)
| VNaN.

#[global] Instance cell_eq_dec : EqDecision cell.
Proof. solve_decision. Defined.

(** [Series.astype(str)] on one cell *)
Definition astype_str (c : cell) : string :=
  match c with VStr s => s | VNaN => "nan" end.

(** [Series.isna()] / [pd.isna] on one cell *)
Definition isna (c : cell) : bool :=
  match c with VStr _ => false | VNaN => true end.

(** [series.astype(str).str.strip().str.lower()]: the normal form every
    duplicate detector and null filter compares against the sentinels. *)
Definition normalize (c : cell) : string :=
  Text.lower (Text.strip (astype_str c)).

(** A cell is Absent when its normal form is a null sentinel. *)
Definition is_absent (c : cell) : bool := is_null_sentinel (normalize c).

(* ===================================================================== *)
(** * Exceptions *)
(* ===================================================================== *)

Inductive exn : Type :=
| ReError          (* re.error *)
| KeyError
| ValueError
| OutOfFuel.       (* the recursion budget of the model ran out; shown unreachable *)

Inductive result (A : Type) : Type :=
| Ok (a : A)
| Raise (e : exn).
Arguments Ok {A} a.
Arguments Raise {A} e.

Definition bind {A B} (m : result A) (f : A -> result B) : result B :=
  match m with Ok a => f a | Raise e => Raise e end.

Notation "x <- m ;; k" := (bind m (fun x => k))
  (at level 100, m at level 99, right associativity).

Definition of_option {A} (e : exn) (o : option A) : result A :=
  match o with Some a => Ok a | None => Raise e end.

Definition returns {A} (m : result A) : Prop := exists a, m = Ok a.

(* ===================================================================== *)
(** * Numbers *)
(* ===================================================================== *)

Module Num.

(** Nearest integer, ties to even. *)
Definition round_half_even (x : Q) : Z :=
  let q := Qfloor x in
  match (x - inject_Z q ?= 1 # 2)%Q with
  | Lt => q
  | Gt => q + 1
  | Eq => if Z.even q then q else q + 1
  end.

(** [round(x, 2)] *)
Definition round2 (x : Q) : Q := Qred (round_half_even (x * 100) # 100).

(** [max(0.0, x)] *)
Definition max0 (x : Q) : Q := if Qle_bool 0 x then x else 0%Q.

(** [a / b * 100] for Python ints [a], [b] (true division). *)
Definition pct (a b : Z) : Q := (inject_Z a / inject_Z b * 100)%Q.

End Num.

(* ===================================================================== *)
(** * Rule execution audit log *)
(* ===================================================================== *)

Record LogEntry : Type := mkLogEntry {
  Dimension  : string;
  Column     : string;
  Rule       : string;
  Evaluated  : Z;
  Failed     : Z;
  Passed     : Z;
  Score_pct  : option Q;
  Severity   : string;
  Issue_Type : string;
}.

(** The module-level list [_RULE_EXEC_LOG] is threaded through every
    function that appends to it or reads it. *)
Definition ExecLog := list LogEntry.

Definition clear_rule_exec_log (_ : ExecLog) : ExecLog := [].

Definition _ISSUE_TYPE_MAP : list (string * string) :=
  [ ("Completeness",    "Missing Values");
    ("Validity",        "Invalid Format");
    ("Uniqueness",      "Duplicate Records");
    ("Standardization", "Non-Standard Values") ].

Fixpoint assoc_get (k : string) (l : list (string * string)) (d : string) : string :=
  match l with
  | [] => d
  | (k', v) :: l' => if String.eqb k k' then v else assoc_get k l' d
  end.

Definition lt_pct (s : option Q) (bound : Q) : bool :=
  match s with
  | Some q => negb (Qle_bool bound q)
  | None => false
  end.

Definition _log_rule (log : ExecLog)
    (dimension column rule : string) (evaluated failed : Z) : ExecLog :=
  let score_pct :=
    if 0 <? evaluated
    then Some (Num.round2 (Num.pct (evaluated - failed) evaluated))
    else None in
  let severity :=
    if lt_pct score_pct 50 then "Critical"
    else if lt_pct score_pct 70 then "High"
    else if lt_pct score_pct 85 then "Medium"
    else if lt_pct score_pct 95 then "Low"
    else "Pass" in
  log ++ [ {| Dimension  := dimension;
              Column     := column;
              Rule       := rule;
              Evaluated  := evaluated;
              Failed     := failed;
              Passed     := evaluated - failed;
              Score_pct  := score_pct;
              Severity   := severity;
              Issue_Type := assoc_get dimension _ISSUE_TYPE_MAP dimension |} ].

(* ===================================================================== *)
(** * Scoring engine *)
(* ===================================================================== *)

Definition sum_Z (l : list Z) : Z := foldr Z.add 0 l.

(** [[e for e in _RULE_EXEC_LOG if e["Dimension"] == dimension]] *)
Definition entries_of (log : ExecLog) (dimension : string) : list LogEntry :=
  filter (fun e => Dimension e = dimension) log.

(** [None] is the "Not Evaluated" value. *)
Definition _score_from_log (log : ExecLog) (dimension : string) (n_rows : Z)
  : option Q :=
  let entries := entries_of log dimension in
  match entries with
  | [] => None
  | _ =>
      let total_evaluated := sum_Z (Evaluated <$> entries) in
      let total_failed    := sum_Z (Failed <$> entries) in
      if total_evaluated =? 0 then None
      else Some (Num.round2
                   (Num.max0 (Num.pct (total_evaluated - total_failed)
                                      total_evaluated)))
  end.

(** One annexure row ([_annex_row]). *)
Record IssueRecord : Type := mkIssue {
  Row_Number     : Z;
  Column_Name    : string;
  Rule_Applied   : string;
  Issue_Category : string;     (* key "Issue_Type" *)
  Original_Value : string;
  Expected_Value : string;
  Issue_Dimension : string;    (* key "Dimension" *)
}.

Definition _annex_row (idx : Z) (col rule issue orig expected dim : string)
  : IssueRecord :=
  {| Row_Number := idx + 2; Column_Name := col; Rule_Applied := rule;
     Issue_Category := issue; Original_Value := orig;
     Expected_Value := expected; Issue_Dimension := dim |}.

(** [sum(1 for r in annexure if r.get("Dimension") == dim)] *)
Definition count_dimension (annexure : list IssueRecord) (dim : string) : Z :=
  Z.of_nat (length (filter (fun r => Issue_Dimension r = dim) annexure)).

(** The scoring functions only use the length of [column_rule_map] and of
    the two string lists.  [column_rule_map] is [None] or a list; an empty
    list is falsy. *)
Definition map_pairs {A} (column_rule_map : option (list A)) : option Z :=
  match column_rule_map with
  | Some (x :: l) => Some (Z.of_nat (length (x :: l)))
  | _ => None
  end.

Definition llen {A} (l : list A) : Z := Z.of_nat (length l).

Definition fallback_score (total failures : Z) : Q :=
  if total =? 0 then 0%Q
  else Num.round2 (Num.max0 (Num.pct (total - failures) total)).

Definition compute_completeness_score {A}
    (log : ExecLog) (n_rows : Z) (annexure : list IssueRecord)
    (columns selected_rules : list string)
    (column_rule_map : option (list A)) : Q :=
  if n_rows =? 0 then 0%Q
  else
    match _score_from_log log "Completeness" n_rows with
    | Some log_score => log_score
    | None =>
        let failures := count_dimension annexure "Completeness" in
        let n_pairs :=
          match map_pairs column_rule_map with
          | Some n => n
          | None =>
              let active :=
                filter (fun r => r <> "Mandatory Column") selected_rules in
              let n_pairs :=
                match active with
                | [] => 0
                | _ => llen active * llen columns
                end in
              if bool_decide ("Mandatory Column" ∈ selected_rules)
                 && negb (bool_decide (columns = []))
              then n_pairs + llen columns else n_pairs
          end in
        fallback_score (n_pairs * n_rows) failures
    end.

(** Shared body of [compute_validity_score] and
    [compute_standardization_score], which differ in the dimension name. *)
Definition compute_simple_score {A} (dim : string)
    (log : ExecLog) (n_rows : Z) (annexure : list IssueRecord)
    (columns selected_rules : list string)
    (column_rule_map : option (list A)) : Q :=
  if n_rows =? 0 then 0%Q
  else
    match _score_from_log log dim n_rows with
    | Some log_score => log_score
    | None =>
        let failures := count_dimension annexure dim in
        let n_pairs :=
          match map_pairs column_rule_map with
          | Some n => n
          | None =>
              match selected_rules, columns with
              | _ :: _, _ :: _ => llen selected_rules * llen columns
              | _, _ => 0
              end
          end in
        fallback_score (n_pairs * n_rows) failures
    end.

Definition compute_validity_score {A} := @compute_simple_score A "Validity".
Definition compute_standardization_score {A} :=
  @compute_simple_score A "Standardization".

(** [dup_records] as the scorer sees it: [None], or a frame of which only
    the [Row_Number] column (when present) and the row count are read. *)
Record DupFrame : Type := mkDupFrame {
  dup_len : nat;                          (* len(dup_records) *)
  dup_row_numbers : option (list Z);      (* dup_records["Row_Number"] *)
}.

(** [Series.nunique()] *)
Definition nunique (l : list Z) : Z := Z.of_nat (length (remove_dups l)).

Definition compute_uniqueness_score
    (log : ExecLog) (total : Z) (dup_records : option DupFrame)
  : Q * ExecLog :=
  if total =? 0 then (0%Q, log)
  else
    let empty :=
      match dup_records with
      | None => true
      | Some d => Nat.eqb (dup_len d) 0
      end in
    if empty then
      (100%Q, _log_rule log "Uniqueness" "ALL" "Exact/Fuzzy Duplicate Check" total 0)
    else
      let dup_count :=
        match dup_records with
        | Some {| dup_len := n; dup_row_numbers := Some rn |} => nunique rn
        | Some d => Z.of_nat (dup_len d)
        | None => 0
        end in
      let dup_count := Z.min dup_count total in
      (Num.round2 (Num.max0 (Num.pct (total - dup_count) total)),
       _log_rule log "Uniqueness" "ALL" "Exact/Fuzzy Duplicate Check" total dup_count).

Definition compute_overall_score (dim_scores : list (string * option Q)) : Q :=
  match dim_scores with
  | [] => 0%Q
  | _ =>
      let valid := omap snd dim_scores in
      match valid with
      | [] => 0%Q
      | _ => Num.round2 (foldr Qplus 0%Q valid / inject_Z (llen valid))
      end
  end.

(* ===================================================================== *)
(** * Data frames *)
(* ===================================================================== *)

(** A frame as [load_dataset] returns it: column names, rows of cells and
    the default [RangeIndex], so the label of a row is its position. *)
Record DataFrame : Type := mkDF {
  df_columns : list string;
  df_rows    : list (list cell);
}.

Definition n_rows (df : DataFrame) : Z := llen (df_rows df).

Fixpoint index_of (c : string) (cols : list string) : option nat :=
  match cols with
  | [] => None
  | c' :: cols' => if String.eqb c c' then Some O else S <$> index_of c cols'
  end.

(** [col in df.columns] *)
Definition has_column (df : DataFrame) (col : string) : bool :=
  bool_decide (is_Some (index_of col (df_columns df))).

(** [row.get(col, default)] for a row of the frame *)
Definition row_get (cols : list string) (row : list cell) (col : string)
    (default : cell) : cell :=
  match index_of col cols with
  | Some i => nth i row default
  | None => default
  end.

(** [df[col]]: the column as a series in row order; [KeyError] when the
    column is missing. *)
Definition series (df : DataFrame) (col : string) : result (list cell) :=
  match index_of col (df_columns df) with
  | Some i => Ok ((fun row => nth i row (VStr "")) <$> df_rows df)
  | None => Raise KeyError
  end.

(** Every monitored column of the row normalizes into the null-sentinel
    set. *)
Definition all_monitored_absent (df : DataFrame) (cols : list string)
    (row : list cell) : Prop :=
  forall col, col ∈ cols ->
    is_absent (row_get (df_columns df) row col (VStr "")) = true.

(** Rows with their index labels. *)
Definition labelled {A} (l : list A) : list (nat * A) := imap (fun i x => (i, x)) l.

(* ===================================================================== *)
(** * Third-party functions *)
(* ===================================================================== *)

(** Python's [re] as pandas' [Series.str.fullmatch] and [Series.str.match]
    use it: the pattern is compiled once ([None]: [re.error]) and applied
    to each element. *)
Record RegexEngine : Type := mkRegexEngine {
  regex : Type;
  re_compile : string -> option regex;
  re_fullmatch : regex -> string -> bool;
  re_match : regex -> string -> bool;
}.

(** pandas' parsers.  [to_datetime fmt dayfirst column] is
    [pd.to_datetime(column, format=fmt, errors="coerce", dayfirst=...)]:
    it may raise, and otherwise parses each element of the column
    ([None]: NaT).  [to_numeric] is [pd.to_numeric(errors="coerce")] on one
    element ([None]: NaN).  [repr_float] is [str] of a float. *)
Record Pandas : Type := mkPandas {
  timestamp : Type;
  to_datetime : option string -> bool -> list string -> option (string -> option timestamp);
  strftime : timestamp -> string -> string;
  to_numeric : string -> option Q;
  repr_float : Q -> string;
}.

(** A pandas whose parsers recognise no input; it stands in where a
    worked example does not reach the parsers. *)
Definition no_parse_pandas : Pandas :=
  {| timestamp := unit;
     to_datetime := fun _ _ _ => Some (fun _ => None);
     strftime := fun _ _ => "";
     to_numeric := fun _ => None;
     repr_float := fun _ => "" |}.

(** An engine fixed on finitely many patterns, for worked examples: each
    listed pattern either fails to compile ([None]) or compiles to the
    given [fullmatch] and [match] predicates; a pattern that is not listed
    is rejected. *)
Definition PatternTable : Type :=
  list (string * option ((string -> bool) * (string -> bool))).

Fixpoint table_compile (t : PatternTable) (pattern : string)
  : option ((string -> bool) * (string -> bool)) :=
  match t with
  | [] => None
  | (p, r) :: t' => if String.eqb pattern p then r else table_compile t' pattern
  end.

Definition table_engine (t : PatternTable) : RegexEngine :=
  {| regex := (string -> bool) * (string -> bool);
     re_compile := table_compile t;
     re_fullmatch := fun r => r.1;
     re_match := fun r => r.2 |}.

Fixpoint all_chars (p : ascii -> bool) (s : string) : bool :=
  match s with
  | EmptyString => true
  | String c s' => p c && all_chars p s'
  end.

(** [$] also matches just before a final newline. *)
Fixpoint drop_final_newline (s : string) : string :=
  match s with
  | EmptyString => EmptyString
  | String c EmptyString => if Ascii.eqb c "010" then EmptyString else s
  | String c s' => String c (drop_final_newline s')
  end.

Definition alnum (c : ascii) : bool := Text.is_alpha c || Text.is_digit c.

(** What CPython's [re] does with three patterns: ["("] is rejected
    (missing parenthesis), and the default patterns of Format Check and of
    Special Characters Not Allowed accept one or more characters of their
    class. *)
Definition sample_patterns : PatternTable :=
  [ ("(", None);
    ("^[a-zA-Z0-9]+$",
     Some (fun s => Text.truthy s && all_chars alnum s,
           fun s => let s := drop_final_newline s in
                    Text.truthy s && all_chars alnum s));
    ("^[a-zA-Z0-9\s]+$",
     Some (fun s => Text.truthy s
                    && all_chars (fun c => alnum c || Text.is_space c) s,
           fun s => Text.truthy s
                    && all_chars (fun c => alnum c || Text.is_space c) s)) ].

(* ===================================================================== *)
(** * Validity rules *)
(* ===================================================================== *)

(** [_is_empty_for_validity] on one element *)
Definition _is_empty_for_validity (s : string) : bool :=
  is_null_sentinel (Text.lower s).

Definition orb_masks (a b : list bool) : list bool := zip_with orb a b.
Definition all_true {A} (l : list A) : list bool := (fun _ => true) <$> l.

(** Decimal [str] of a Python int. *)
Definition str_Z (z : Z) : string := pretty z.

Section ValidityRules.
Context (E : RegexEngine) (P : Pandas).

(** [s.str.fullmatch(pattern, na=False)] *)
Definition str_fullmatch (pattern : string) (s : list string) : result (list bool) :=
  r <- of_option ReError (re_compile E pattern) ;;
  Ok (re_fullmatch E r <$> s).

(** [s.str.match(pattern, na=False)] *)
Definition str_match (pattern : string) (s : list string) : result (list bool) :=
  r <- of_option ReError (re_compile E pattern) ;;
  Ok (re_match E r <$> s).

(** [pd.to_datetime(s, errors="coerce", dayfirst=True).notna()] *)
Definition datetime_notna (fmt : option string) (s : list string)
  : result (list bool) :=
  parse <- of_option ValueError (to_datetime P fmt true s) ;;
  Ok ((fun x => bool_decide (is_Some (parse x))) <$> s).

Definition stripped (series : list cell) : list string :=
  (fun c => Text.strip (astype_str c)) <$> series.

Definition rule_data_type (series : list cell) (expected : string)
  : result (list bool) :=
  let s := stripped series in
  let skip := _is_empty_for_validity <$> s in
  if String.eqb expected "numeric" then
    valid <- str_fullmatch "-?\d+\.?\d*" s ;; Ok (orb_masks skip valid)
  else if String.eqb expected "integer" then
    valid <- str_fullmatch "-?\d+" s ;; Ok (orb_masks skip valid)
  else if String.eqb expected "float" then
    valid <- str_fullmatch "-?\d+\.\d+" s ;; Ok (orb_masks skip valid)
  else if String.eqb expected "date" then
    valid <- datetime_notna None s ;; Ok (orb_masks skip valid)
  else
    (* string: always passes *)
    Ok (all_true series).

Definition rule_email_format (series : list cell) : result (list bool) :=
  let pattern := "^[a-zA-Z0-9_.+\-]+@[a-zA-Z0-9\-]+\.[a-zA-Z0-9.\-]+$" in
  let s := stripped series in
  valid <- str_fullmatch pattern s ;;
  Ok (orb_masks (_is_empty_for_validity <$> s) valid).

Definition rule_phone_format (series : list cell) : result (list bool) :=
  let pattern := "^\+?[0-9][\d\s\-\(\)]{6,14}$" in
  let s := stripped series in
  valid <- str_fullmatch pattern s ;;
  Ok (orb_masks (_is_empty_for_validity <$> s) valid).

Definition rule_pan_format (series : list cell) : result (list bool) :=
  let pattern := "^[A-Z]{5}[0-9]{4}[A-Z]$" in
  let s := Text.upper <$> stripped series in
  let skip := _is_empty_for_validity <$> s in
  valid <- str_fullmatch pattern s ;;
  Ok (orb_masks skip valid).

Definition rule_date_format (series : list cell) (fmt : string)
  : result (list bool) :=
  let s := stripped series in
  let skip := _is_empty_for_validity <$> s in
  let auto :=
    valid <- datetime_notna None s ;; Ok (orb_masks skip valid) in
  if Text.truthy fmt then
    match datetime_notna (Some fmt) s with
    | Ok valid => Ok (orb_masks skip valid)
    | Raise _ => auto            (* except Exception: pass *)
    end
  else auto.

Definition rule_numeric_range (series : list cell) (min_val max_val : Q)
  : result (list bool) :=
  let s := stripped series in
  let skip := _is_empty_for_validity <$> s in
  let in_range := (fun x =>
    match to_numeric P x with
    | Some num => Qle_bool min_val num && Qle_bool num max_val
    | None => false
    end) <$> s in
  Ok (orb_masks skip in_range).

Definition rule_allowed_values (series : list cell) (allowed : list string)
  : result (list bool) :=
  let s := stripped series in
  let skip := _is_empty_for_validity <$> s in
  let allowed_lower := (fun v => Text.lower (Text.strip v)) <$> allowed in
  Ok (orb_masks skip
          ((fun x => bool_decide (Text.lower x ∈ allowed_lower)) <$> s)).

Definition rule_custom_regex (series : list cell) (pattern : string)
  : result (list bool) :=
  let s := stripped series in
  let skip := _is_empty_for_validity <$> s in
  match str_fullmatch pattern s with
  | Ok valid => Ok (orb_masks skip valid)
  | Raise ReError => Ok (all_true series)      (* except re.error *)
  | Raise e => Raise e
  end.

(** The three rules written inline in [execute_validity_rules]. *)
Definition inline_special_chars (series : list cell) (pattern : string)
  : result (list bool) :=
  m <- str_match pattern (astype_str <$> series) ;;
  Ok (orb_masks m (isna <$> series)).

Definition inline_length_check (series : list cell) (max_len : Z)
  : result (list bool) :=
  Ok (orb_masks ((fun c => Text.len (astype_str c) <=? max_len) <$> series)
                  (isna <$> series)).

Definition inline_format_check (series : list cell) (pattern : string)
  : result (list bool) :=
  m <- str_match pattern (astype_str <$> series) ;;
  Ok (orb_masks m (isna <$> series)).

End ValidityRules.

(* ===================================================================== *)
(** * Validity executor *)
(* ===================================================================== *)

(** The [config] dict of a criteria-builder entry: every key is optional
    and, when present, holds a value of the type the executor reads. *)
Record Config : Type := mkConfig {
  cfg_data_type             : option string;
  cfg_date_fmt              : option string;
  cfg_range_min             : option Q;
  cfg_range_max             : option Q;
  cfg_allowed_values_str    : option string;
  cfg_allowed_values        : option string;
  cfg_regex                 : option string;
  cfg_custom_regex          : option string;
  cfg_allowed_chars_pattern : option string;
  cfg_max_length_val        : option Z;
  cfg_format_pattern        : option string;
  cfg_date_target_fmt       : option string;
  cfg_null_default          : option string;
}.

Definition no_config : Config :=
  mkConfig None None None None None None None None None None None None None.

(** [{"max_length_val": n}], [{"regex": pattern}], [{"data_type": t}] *)
Definition config_max_length (n : Z) : Config :=
  mkConfig None None None None None None None None None (Some n) None None None.
Definition config_regex (pattern : string) : Config :=
  mkConfig None None None None None None (Some pattern) None None None None None None.
Definition config_data_type (t : string) : Config :=
  mkConfig (Some t) None None None None None None None None None None None None.

Record RuleEntry : Type := mkEntry {
  entry_column : string;
  entry_rule   : string;
  entry_config : Config;
}.

(** [d.get(key, default)] *)
Definition get {A} (o : option A) (default : A) : A :=
  match o with Some x => x | None => default end.

(** The annexure under construction and the audit log. *)
Definition ExecState : Type := list IssueRecord * ExecLog.

(** [df.index[mask]] for a boolean mask *)
Definition index_where (mask : list bool) : list nat :=
  omap (fun '(i, b) => if b : bool then Some i else None) (labelled mask).

(** [list(df.index[~mask])] *)
Definition failing_labels (mask : list bool) : list nat :=
  index_where (negb <$> mask).

(** The tail common to every branch of the executors: one annexure row per
    failing label, then one [_log_rule] call. *)
Definition record_rule (dim : string) (st : ExecState) (s : list cell)
    (mask : list bool) (col label issue expected : string) (n : Z) : ExecState :=
  let fails := failing_labels mask in
  (st.1 ++ ((fun idx => _annex_row (Z.of_nat idx) col label issue
                          (astype_str (nth idx s (VStr ""))) expected dim) <$> fails),
   _log_rule st.2 dim col label n (llen fails)).

(** [[v.strip() for v in raw.split(",") if v.strip()] if raw else []] *)
Definition parse_allowed (raw : string) : list string :=
  if Text.truthy raw
  then filter (fun v => Text.truthy v = true) (Text.strip <$> Text.split "," raw)
  else [].

Definition allowed_preview (allowed_list : list string) : string :=
  Text.join ", " (take 5 allowed_list)
  +:+ (if 5 <? llen allowed_list then "…" else "").

Definition simple_rule_names : list string :=
  ["Email Format"; "Phone Format"; "PAN Format"].

(** [for x in xs: st = step(st, x)], stopping at the first exception. *)
Fixpoint for_each {A S} (step : S -> A -> result S) (st : S) (xs : list A)
  : result S :=
  match xs with
  | [] => Ok st
  | x :: xs' => st' <- step st x ;; for_each step st' xs'
  end.

Section ValidityExecutor.
Context (E : RegexEngine) (P : Pandas).

Definition run_simple_rule (st : ExecState) (n : Z) (s : list cell)
    (col rule_name : string) : result ExecState :=
  if String.eqb rule_name "Email Format" then
    mask <- rule_email_format E s ;;
    Ok (record_rule "Validity" st s mask col rule_name "Invalid Format"
            "Valid email (user@domain.tld)" n)
  else if String.eqb rule_name "Phone Format" then
    mask <- rule_phone_format E s ;;
    Ok (record_rule "Validity" st s mask col rule_name "Invalid Format"
            "Valid phone (7–15 digits)" n)
  else
    mask <- rule_pan_format E s ;;
    Ok (record_rule "Validity" st s mask col rule_name "Invalid Format"
            "PAN: AAAAA9999A" n).

Definition run_data_type (st : ExecState) (n : Z) (s : list cell)
    (col exp_type : string) : result ExecState :=
  mask <- rule_data_type E P s exp_type ;;
  Ok (record_rule "Validity" st s mask col ("Data Type (" +:+ exp_type +:+ ")")
          "Invalid Format" ("Expected type: " +:+ exp_type) n).

Definition run_date_format (st : ExecState) (n : Z) (s : list cell)
    (col fmt : string) : result ExecState :=
  mask <- rule_date_format P s fmt ;;
  let exp := "Valid date" +:+
    (if Text.truthy fmt then " (" +:+ fmt +:+ ")" else " (any parseable)") in
  Ok (record_rule "Validity" st s mask col "Date Format" "Invalid Format" exp n).

Definition run_numeric_range (st : ExecState) (n : Z) (s : list cell)
    (col : string) (rmin rmax : Q) : result ExecState :=
  mask <- rule_numeric_range P s rmin rmax ;;
  let label := "Numeric Range [" +:+ repr_float P rmin +:+ "–"
               +:+ repr_float P rmax +:+ "]" in
  Ok (record_rule "Validity" st s mask col label "Invalid Format"
          ("Between " +:+ repr_float P rmin +:+ " and " +:+ repr_float P rmax) n).

Definition run_allowed_values (st : ExecState) (n : Z) (s : list cell)
    (col : string) (allowed_list : list string) : result ExecState :=
  match allowed_list with
  | [] => Ok st
  | _ =>
      mask <- rule_allowed_values s allowed_list ;;
      Ok (record_rule "Validity" st s mask col "Allowed Values" "Invalid Format"
              ("One of: " +:+ allowed_preview allowed_list) n)
  end.

Definition run_custom_regex (st : ExecState) (n : Z) (s : list cell)
    (col pattern : string) : result ExecState :=
  if Text.truthy pattern then
    mask <- rule_custom_regex E s pattern ;;
    Ok (record_rule "Validity" st s mask col ("Regex: " +:+ Text.take 30 pattern)
            "Invalid Format" ("Matches: " +:+ Text.take 50 pattern) n)
  else Ok st.

Definition run_special_chars (st : ExecState) (n : Z) (s : list cell)
    (col pattern : string) : result ExecState :=
  mask <- inline_special_chars E s pattern ;;
  Ok (record_rule "Validity" st s mask col "Special Characters Not Allowed"
          "Invalid Format" "Alphanumeric + spaces only" n).

Definition run_length_check (st : ExecState) (n : Z) (s : list cell)
    (col : string) (max_len : Z) : result ExecState :=
  mask <- inline_length_check s max_len ;;
  Ok (record_rule "Validity" st s mask col
          ("Length Check (max " +:+ str_Z max_len +:+ ")")
          "Invalid Format" ("Length ≤ " +:+ str_Z max_len) n).

Definition run_format_check (st : ExecState) (n : Z) (s : list cell)
    (col pattern : string) : result ExecState :=
  mask <- inline_format_check E s pattern ;;
  Ok (record_rule "Validity" st s mask col
          ("Format Check (" +:+ Text.take 30 pattern +:+ ")")
          "Invalid Format" ("Expected format: " +:+ Text.take 50 pattern) n).

(** One iteration of the loop over [column_rule_map]. *)
Definition validity_entry (df : DataFrame) (dtype_map : gmap string string)
    (range_min range_max : Q) (date_fmt : string)
    (st : ExecState) (entry : RuleEntry) : result ExecState :=
  let col := entry_column entry in
  let rule_name := entry_rule entry in
  let cfg := entry_config entry in
  let n := n_rows df in
  if negb (has_column df col) then Ok st
  else
    s <- series df col ;;
    if bool_decide (rule_name ∈ simple_rule_names) then
      run_simple_rule st n s col rule_name
    else if String.eqb rule_name "Data Type Validation" then
      run_data_type st n s col
        (get (cfg_data_type cfg) (get (dtype_map !! col) "string"))
    else if String.eqb rule_name "Date Format" then
      run_date_format st n s col (get (cfg_date_fmt cfg) date_fmt)
    else if String.eqb rule_name "Numeric Range" then
      run_numeric_range st n s col (get (cfg_range_min cfg) range_min)
                                   (get (cfg_range_max cfg) range_max)
    else if String.eqb rule_name "Allowed Values" then
      run_allowed_values st n s col
        (parse_allowed (get (cfg_allowed_values_str cfg)
                            (get (cfg_allowed_values cfg) "")))
    else if String.eqb rule_name "Custom Regex" then
      run_custom_regex st n s col
        (get (cfg_regex cfg) (get (cfg_custom_regex cfg) ""))
    else if String.eqb rule_name "Special Characters Not Allowed" then
      run_special_chars st n s col
        (get (cfg_allowed_chars_pattern cfg) "^[a-zA-Z0-9\s]+$")
    else if String.eqb rule_name "Length Check" then
      run_length_check st n s col (get (cfg_max_length_val cfg) 255)
    else if String.eqb rule_name "Format Check" then
      run_format_check st n s col (get (cfg_format_pattern cfg) "^[a-zA-Z0-9]+$")
    else Ok st.

Definition when (b : bool) (step : ExecState -> result ExecState)
    (st : ExecState) : result ExecState :=
  if b then step st else Ok st.

(** One iteration of the legacy loop over [columns]. *)
Definition validity_legacy_column (df : DataFrame) (selected_rules : list string)
    (dtype_map : gmap string string) (range_min range_max : Q)
    (allowed_list : list string) (custom_regex date_fmt : string)
    (st : ExecState) (col : string) : result ExecState :=
  let n := n_rows df in
  let sel r := bool_decide (r ∈ selected_rules) in
  if negb (has_column df col) then Ok st
  else
    s <- series df col ;;
    st <- for_each (fun st rule_name =>
                     when (sel rule_name)
                          (fun st => run_simple_rule st n s col rule_name) st)
                  st simple_rule_names ;;
    st <- when (sel "Data Type Validation")
           (fun st => run_data_type st n s col (get (dtype_map !! col) "string")) st ;;
    st <- when (sel "Date Format")
           (fun st => run_date_format st n s col date_fmt) st ;;
    st <- when (sel "Numeric Range")
           (fun st => run_numeric_range st n s col range_min range_max) st ;;
    st <- when (sel "Allowed Values")
           (fun st => run_allowed_values st n s col allowed_list) st ;;
    when (sel "Custom Regex" && Text.truthy custom_regex)
         (fun st => run_custom_regex st n s col custom_regex) st.

(** [execute_validity_rules]: the returned annexure and the log after the
    call. *)
Definition execute_validity_rules (log : ExecLog) (df : DataFrame)
    (selected_rules columns : list string) (dtype_map : gmap string string)
    (range_min range_max : Q) (allowed_values_str custom_regex date_fmt : string)
    (column_rule_map : option (list RuleEntry)) : result ExecState :=
  match column_rule_map with
  | Some (e :: es) =>
      for_each (validity_entry df dtype_map range_min range_max date_fmt)
               ([], log) (e :: es)
  | _ =>
      for_each (validity_legacy_column df selected_rules dtype_map
                  range_min range_max (parse_allowed allowed_values_str)
                  custom_regex date_fmt)
               ([], log) columns
  end.

End ValidityExecutor.

(* ===================================================================== *)
(** * Standardization transforms *)
(* ===================================================================== *)

(** Every transform returns the cleaned series and the changed mask. *)
Definition Transformed : Type := list string * list bool.

(** [original != cleaned], element by element *)
Definition differs (original cleaned : list string) : list bool :=
  zip_with (fun o c => negb (String.eqb o c)) original cleaned.

Definition std_by (clean : string -> string) (series : list cell) : Transformed :=
  let original := astype_str <$> series in
  let cleaned := clean <$> original in
  (cleaned, differs original cleaned).

Definition std_trim_spaces : list cell -> Transformed :=
  std_by Text.strip.
Definition std_remove_extra_spaces : list cell -> Transformed :=
  std_by (fun x => Text.collapse_spaces (Text.strip x)).
Definition std_proper_case : list cell -> Transformed :=
  std_by (fun x => Text.title (Text.strip x)).
Definition std_lowercase : list cell -> Transformed :=
  std_by (fun x => Text.lower (Text.strip x)).
Definition std_uppercase : list cell -> Transformed :=
  std_by (fun x => Text.upper (Text.strip x)).
Definition std_remove_special_chars : list cell -> Transformed :=
  std_by (fun x => Text.strip (Text.keep_alnum_space x)).

Definition std_normalize_date (P : Pandas) (series : list cell) (target_fmt : string)
  : result Transformed :=
  let original := astype_str <$> series in
  parse <- of_option ValueError (to_datetime P None true (Text.strip <$> original)) ;;
  let cleaned := (fun o =>
    match parse (Text.strip o) with
    | Some t => strftime P t target_fmt
    | None => o                                   (* .fillna(original) *)
    end) <$> original in
  Ok (cleaned, differs original cleaned).

Definition std_replace_null_default (series : list cell) (default : string)
  : Transformed :=
  let null_mask (c : cell) : bool :=
    let s := Text.strip (astype_str c) in
    String.eqb s "" || String.eqb (Text.lower s) "nan"
    || String.eqb (Text.lower s) "none" || isna c in
  ((fun c => if null_mask c then default else Text.strip (astype_str c)) <$> series,
   null_mask <$> series).

(* ===================================================================== *)
(** * Standardization executor *)
(* ===================================================================== *)

(** [cleaned[col] = new_vals] *)
Definition set_column (df : DataFrame) (col : string) (vals : list string) : DataFrame :=
  match index_of col (df_columns df) with
  | Some i =>
      {| df_columns := df_columns df;
         df_rows := zip_with (fun row v => <[i := VStr v]> row) (df_rows df) vals |}
  | None => df
  end.

(** [cleaned.index[changed]] *)
Definition changed_labels (changed : list bool) : list nat := index_where changed.

(** [int(changed.sum())] *)
Definition count_true (m : list bool) : Z := llen (filter (fun b => b = true) m).

Record StdState : Type := mkStd {
  std_cleaned  : DataFrame;
  std_annexure : list IssueRecord;
  std_log      : ExecLog;
}.

(** The tail common to [_apply_inline], [_apply_norm_date] and
    [_apply_null_default]; [expected idx] is the Expected_Value of the row. *)
Definition record_changes (st : StdState) (n : Z) (col label : string)
    (old : list cell) (tr : Transformed) (expected : nat -> string) : StdState :=
  let '(new_vals, changed) := tr in
  {| std_cleaned := set_column (std_cleaned st) col new_vals;
     std_annexure :=
       std_annexure st ++
       ((fun idx => _annex_row (Z.of_nat idx) col label "Non-Standard Values"
                      (astype_str (nth idx old (VStr ""))) (expected idx)
                      "Standardization") <$> changed_labels changed);
     std_log := _log_rule (std_log st) "Standardization" col label n (count_true changed) |}.

Definition inline_rules : list (string * (list cell -> Transformed)) :=
  [ ("Trim Spaces",               std_trim_spaces);
    ("Remove Extra Spaces",       std_remove_extra_spaces);
    ("Convert to Proper Case",    std_proper_case);
    ("Convert to Lowercase",      std_lowercase);
    ("Convert to Uppercase",      std_uppercase);
    ("Remove Special Characters", std_remove_special_chars) ].

Fixpoint lookup_rule {A} (name : string) (l : list (string * A)) : option A :=
  match l with
  | [] => None
  | (k, v) :: l' => if String.eqb name k then Some v else lookup_rule name l'
  end.

Section StandardizationExecutor.
Context (P : Pandas).

Definition _apply_inline (n : Z) (st : StdState) (col : string)
    (rule_name : string) (func : list cell -> Transformed) : result StdState :=
  old <- series (std_cleaned st) col ;;
  let tr := func old in
  Ok (record_changes st n col rule_name old tr
          (fun idx => nth idx tr.1 "")).

Definition _apply_norm_date (n : Z) (st : StdState) (col fmt : string)
  : result StdState :=
  old <- series (std_cleaned st) col ;;
  tr <- std_normalize_date P old fmt ;;
  Ok (record_changes st n col ("Normalize Date (" +:+ fmt +:+ ")") old tr
          (fun idx => nth idx tr.1 "")).

Definition _apply_null_default (n : Z) (st : StdState) (col default : string)
  : result StdState :=
  old <- series (std_cleaned st) col ;;
  let tr := std_replace_null_default old default in
  Ok (record_changes st n col ("Replace Null → " +:+ default) old tr
          (fun _ => default)).

(** One iteration of the loop over [column_rule_map]. *)
Definition standardization_entry (n : Z) (date_target_fmt null_default : string)
    (st : StdState) (entry : RuleEntry) : result StdState :=
  let col := entry_column entry in
  let rule_name := entry_rule entry in
  let cfg := entry_config entry in
  if negb (has_column (std_cleaned st) col) then Ok st
  else
    match lookup_rule rule_name inline_rules with
    | Some func => _apply_inline n st col rule_name func
    | None =>
        if String.eqb rule_name "Normalize Date Format" then
          _apply_norm_date n st col (get (cfg_date_target_fmt cfg) date_target_fmt)
        else if String.eqb rule_name "Replace Null with Default" then
          _apply_null_default n st col (get (cfg_null_default cfg) null_default)
        else Ok st
    end.

(** One iteration of the legacy loop over [columns]. *)
Definition standardization_legacy_column (n : Z) (selected_rules : list string)
    (date_target_fmt null_default : string)
    (st : StdState) (col : string) : result StdState :=
  let sel r := bool_decide (r ∈ selected_rules) in
  if negb (has_column (std_cleaned st) col) then Ok st
  else
    st <- for_each (fun st '(rule_name, func) =>
                     if sel rule_name then _apply_inline n st col rule_name func
                     else Ok st)
                  st inline_rules ;;
    st <- (if sel "Normalize Date Format"
          then _apply_norm_date n st col date_target_fmt else Ok st) ;;
    if sel "Replace Null with Default"
    then _apply_null_default n st col null_default else Ok st.

Definition execute_standardization_rules (log : ExecLog) (df : DataFrame)
    (selected_rules columns : list string)
    (date_target_fmt null_default : string)
    (column_rule_map : option (list RuleEntry)) : result StdState :=
  let st0 := {| std_cleaned := df; std_annexure := []; std_log := log |} in
  match column_rule_map with
  | Some (e :: es) =>
      for_each (standardization_entry (n_rows df) date_target_fmt null_default)
               st0 (e :: es)
  | _ =>
      for_each (standardization_legacy_column (n_rows df) selected_rules
                  date_target_fmt null_default)
               st0 columns
  end.

End StandardizationExecutor.

(* ===================================================================== *)
(** * Duplicate records *)
(* ===================================================================== *)

(** One row of a duplicate frame: a row of the input (its index label and
    cells) with the four columns every detector adds. *)
Record DupRow : Type := mkDupRow {
  dr_label           : nat;
  dr_cells           : list cell;
  Duplicate_Group_ID : Z;
  Duplicate_Type     : string;
  Similarity_Score   : Q;
  dr_Row_Number      : Z;         (* column "Row_Number": label + 2 *)
}.

(** [Series.unique()]: distinct values in order of first appearance. *)
Fixpoint unique (l : list string) : list string :=
  match l with
  | [] => []
  | x :: l' => x :: filter (fun y => y <> x) (unique l')
  end.

(** [Series.duplicated(keep=False)] on one value of the series *)
Definition duplicated (vals : list string) (v : string) : bool :=
  bool_decide (2 <= length (filter (fun y => y = v) vals))%nat.

(** [{v: i + 1 for i, v in enumerate(groups.unique())}[v]] *)
Definition group_id (uniq : list string) (v : string) : Z :=
  match index_of v uniq with
  | Some i => Z.of_nat i + 1
  | None => 0
  end.

(** Rows of [df] addressed by label. *)
Definition row_of (df : DataFrame) (label : nat) : list cell :=
  nth label (df_rows df) [].

(** The frame built once the keys of the eligible rows are known:
    [keyed] lists the eligible rows as (label, key). *)
Definition exact_groups (df : DataFrame) (type : string)
    (keyed : list (nat * string)) : list DupRow :=
  let dups := filter (fun lk => duplicated (snd <$> keyed) lk.2 = true) keyed in
  let uniq := unique (snd <$> dups) in
  (fun lk => {| dr_label := lk.1;
                dr_cells := row_of df lk.1;
                Duplicate_Group_ID := group_id uniq lk.2;
                Duplicate_Type := type;
                Similarity_Score := 100;
                dr_Row_Number := Z.of_nat lk.1 + 2 |}) <$> dups.

Definition detect_exact_duplicates_single (df : DataFrame) (col : string)
  : result (list DupRow) :=
  column <- series df col ;;
  let s := labelled (normalize <$> column) in
  (* Exclude null/empty rows from duplicate detection *)
  let s_valid := filter (fun lv => is_null_sentinel lv.2 = false) s in
  Ok (exact_groups df "Exact" s_valid).

(** [df[cols]]: one list of cells per row, [KeyError] on a missing column. *)
Fixpoint column_indices (df_cols cols : list string) : result (list nat) :=
  match cols with
  | [] => Ok []
  | c :: cs =>
      i <- of_option KeyError (index_of c df_cols) ;;
      rest <- column_indices df_cols cs ;;
      Ok (i :: rest)
  end.

Definition select_cells (idxs : list nat) (row : list cell) : list cell :=
  (fun i => nth i row (VStr "")) <$> idxs.

Definition project (df : DataFrame) (cols : list string) : result (list (list cell)) :=
  idxs <- column_indices (df_columns df) cols ;;
  Ok (select_cells idxs <$> df_rows df).

Definition detect_exact_duplicates_combination (df : DataFrame) (cols : list string)
  : result (list DupRow) :=
  sub <- project df cols ;;
  let combo := labelled ((fun row : list cell => normalize <$> row) <$> sub) in
  (* Exclude rows where EVERY selected column is a null sentinel *)
  let combo_valid :=
    filter (fun lr => forallb is_null_sentinel lr.2 = false) combo in
  let combo_key :=
    (fun lr : nat * list string => (lr.1, Text.join "||" lr.2)) <$> combo_valid in
  Ok (exact_groups df "Combination" combo_key).

(* ===================================================================== *)
(** * Hybrid fuzzy scoring engine *)
(* ===================================================================== *)

(** [difflib.SequenceMatcher(None, a, b).ratio()] without junk: the
    longest matching block (earliest in [a], then earliest in [b]) is taken
    and the pieces to its left and to its right are matched recursively.
    The autojunk heuristic, which needs [len(b) >= 200], is left out. *)
Module Difflib.

Fixpoint lcp (a b : list ascii) : nat :=
  match a, b with
  | x :: a', y :: b' => if Ascii.eqb x y then S (lcp a' b') else O
  | _, _ => O
  end.

Fixpoint scan_b (a_suffix : list ascii) (i j : nat) (b : list ascii)
    (best : nat * nat * nat) : nat * nat * nat :=
  match b with
  | [] => best
  | _ :: b' =>
      let k := lcp a_suffix b in
      scan_b a_suffix i (S j) b' (if Nat.ltb best.2 k then (i, j, k) else best)
  end.

Fixpoint scan_a (i : nat) (a b : list ascii) (best : nat * nat * nat)
  : nat * nat * nat :=
  match a with
  | [] => best
  | _ :: a' => scan_a (S i) a' b (scan_b a i O b best)
  end.

Definition find_longest_match (a b : list ascii) : nat * nat * nat :=
  scan_a O a b (O, O, O).

(** Total size of the matching blocks. *)
Fixpoint matches (fuel : nat) (a b : list ascii) : nat :=
  match fuel with
  | O => O
  | S fuel' =>
      let '(i, j, k) := find_longest_match a b in
      match k with
      | O => O
      | _ => (k + matches fuel' (take i a) (take j b)
                + matches fuel' (drop (i + k) a) (drop (j + k) b))%nat
      end
  end.

Definition ratio (a b : string) : Q :=
  let la := String.list_ascii_of_string a in
  let lb := String.list_ascii_of_string b in
  let total := (length la + length lb)%nat in
  match total with
  | O => 1%Q
  | _ => (inject_Z (2 * Z.of_nat (matches (S (length la)) la lb))
          / inject_Z (Z.of_nat total))%Q
  end.

End Difflib.

(** The four rapidfuzz scorers and whether [rapidfuzz.process.cdist] can
    be imported. *)
Record RapidFuzz : Type := mkRapidFuzz {
  fuzz_ratio            : string -> string -> Q;
  fuzz_partial_ratio    : string -> string -> Q;
  fuzz_token_sort_ratio : string -> string -> Q;
  fuzz_token_set_ratio  : string -> string -> Q;
  cdist_importable      : bool;
}.

(** [Some rf] when [RAPIDFUZZ_AVAILABLE], [None] otherwise. *)
Definition FuzzEnv : Type := option RapidFuzz.

(** [_SCORER_WEIGHTS], in dict order *)
Definition _SCORER_WEIGHTS (rf : RapidFuzz) : list ((string -> string -> Q) * Q) :=
  [ (fuzz_ratio rf,            0.15%Q);
    (fuzz_partial_ratio rf,    0.20%Q);
    (fuzz_token_sort_ratio rf, 0.30%Q);
    (fuzz_token_set_ratio rf,  0.35%Q) ].

(** [sum(...)] of floats *)
Definition sum_Q (l : list Q) : Q := foldl Qplus 0%Q l.

Definition ensemble (rf : RapidFuzz) (a b : string) : Q :=
  sum_Q ((fun sw : (string -> string -> Q) * Q => sw.1 a b * sw.2)%Q
           <$> _SCORER_WEIGHTS rf).

Definition _hybrid_cell_score (env : FuzzEnv) (a_val b_val : string) : Q :=
  let a_str := Text.lower (Text.strip a_val) in
  let b_str := Text.lower (Text.strip b_val) in
  (* Exact match shortcut *)
  if String.eqb a_str b_str then 100%Q
  (* Both empty *)
  else if negb (Text.truthy a_str) && negb (Text.truthy b_str) then 100%Q
  (* One empty *)
  else if negb (Text.truthy a_str) || negb (Text.truthy b_str) then 0%Q
  else
    match env with
    | Some rf => ensemble rf a_str b_str
    | None => (Difflib.ratio a_str b_str * 100)%Q
    end.

(** A row as [_hybrid_row_score] reads it: [row.get(col, "")]. *)
Definition _hybrid_row_score (env : FuzzEnv) (df_cols : list string)
    (a b : list cell) (cols : list string) (weights : list Q) : Q :=
  let scored :=
    omap (fun cw : string * Q =>
            let '(col, w) := cw in
            if Qle_bool w 0 then None
            else
              let av := row_get df_cols a col (VStr "") in
              let bv := row_get df_cols b col (VStr "") in
              let sim := if isna av || isna bv then 0%Q
                         else _hybrid_cell_score env (astype_str av) (astype_str bv) in
              Some (sim, w))
         (zip cols weights) in
  match scored with
  | [] => 0%Q
  | _ =>
      let total_w := sum_Q (snd <$> scored) in
      (sum_Q ((fun sw : Q * Q => sw.1 * sw.2)%Q <$> scored) / total_w)%Q
  end.

Definition matrix : Type := list (list Q).

Definition zeros (n : nat) : matrix := replicate n (replicate n 0%Q).

(** [cdist(vals, vals, scorer=f, score_cutoff=0) * sw] *)
Definition cdist (vals : list string) (f : string -> string -> Q) (sw : Q) : matrix :=
  (fun a => (fun b => f a b * sw)%Q <$> vals) <$> vals.

Definition mat_add (m1 m2 : matrix) : matrix := zip_with (zip_with Qplus) m1 m2.
Definition mat_scale (m : matrix) (k : Q) : matrix :=
  (fun row : list Q => (fun x => x * k)%Q <$> row) <$> m.
Definition mat_get (m : matrix) (i j : nat) : Q := nth j (nth i m []) 0%Q.

(** [_rapidfuzz_cdist_block_scores]; [Ok None] is the [None] it returns
    when the vectorised scorer cannot be used. *)
Definition _rapidfuzz_cdist_block_scores (env : FuzzEnv) (df_cols : list string)
    (block_rows : list (list cell)) (cols : list string) (weights : list Q)
  : result (option matrix) :=
  match env with
  | None => Ok None
  | Some rf =>
      if negb (cdist_importable rf) then Ok None
      else
        let n := length block_rows in
        let total_weight :=
          sum_Q (filter (fun w => Qle_bool w 0 = false) weights) in
        if Qeq_bool total_weight 0 then Ok (Some (zeros n))
        else
          final <- for_each (fun (final_matrix : matrix) (cw : string * Q) =>
                 let '(col, col_w) := cw in
                 if Qle_bool col_w 0 then Ok final_matrix
                 else
                   i <- of_option KeyError (index_of col df_cols) ;;
                   let vals :=
                     (fun row => normalize (nth i row (VStr ""))) <$> block_rows in
                   let col_matrix :=
                     foldl (fun m (sw : (string -> string -> Q) * Q) =>
                              mat_add m (cdist vals sw.1 sw.2))
                           (zeros n) (_SCORER_WEIGHTS rf) in
                   Ok (mat_add final_matrix
                         (mat_scale col_matrix (col_w / total_weight)%Q)))
              (zeros n) (zip cols weights) ;;
          Ok (Some final)
  end.

(* ===================================================================== *)
(** * Hybrid fuzzy duplicate detection *)
(* ===================================================================== *)

(** One accepted pair: a dict of [matches], a row of [pair_df]. *)
Record Match : Type := mkMatch {
  _i     : nat;
  _j     : nat;
  _score : Q;
}.

(** The messages of [warnings_out]; the arguments are the values the
    f-strings interpolate. *)
Inductive Warning : Type :=
| RapidFuzzMissing
| NullRowsSkipped (dropped : nat)
| BlocksSkipped (skipped_blocks : nat) (max_pairs_per_block : Z)
| ScalarFallback (scalar_fallback_blocks : nat).

(** What the result depends on but the source leaves to the libraries:
    the order [sort_values] gives to rows of equal score (the default sort
    is not stable) and the iteration order of a Python [set]. *)
Record Runtime : Type := mkRuntime {
  sort_by_score : list Match -> list Match;
  sort_by_score_perm : forall l, sort_by_score l ≡ₚ l;
  sort_by_score_sorted :
    forall l, Sorted (fun a b => (_score b <= _score a)%Q) (sort_by_score l);
  set_iter : list nat -> list nat;
  set_iter_NoDup : forall l, NoDup (set_iter l);
  set_iter_elem : forall l x, x ∈ set_iter l <-> x ∈ l;
}.

(** A row of [work]: a row of the input with its label and its [_block]. *)
Record WorkRow : Type := mkWorkRow {
  w_label : nat;
  w_cells : list cell;
  w_block : string;
}.

(** [d.setdefault(k, []).append(x)] on an insertion-ordered dict *)
Fixpoint group_append {K A} `{EqDecision K} (k : K) (x : A)
    (d : list (K * list A)) : list (K * list A) :=
  match d with
  | [] => [(k, [x])]
  | (k', xs) :: d' =>
      if decide (k = k') then (k', xs ++ [x]) :: d'
      else (k', xs) :: group_append k x d'
  end.

(** Grouping by a key: groups in order of first appearance, elements in
    list order. *)
Definition group_by_key {K A} `{EqDecision K} (key : A -> K) (l : list A)
  : list (K * list A) :=
  foldl (fun d x => group_append (key x) x d) [] l.

(** [groupby("_block", sort=False)] *)
Definition groupby_block (work : list WorkRow) : list (string * list WorkRow) :=
  group_by_key w_block work.

(** The pairs [(i_pos, j_pos)] with [i_pos < j_pos], in loop order, with
    the elements at those positions. *)
Fixpoint upper_pairs {A} (l : list A) : list (A * A) :=
  match l with
  | [] => []
  | x :: l' => ((fun y => (x, y)) <$> l') ++ upper_pairs l'
  end.

Definition geo_columns : list string :=
  ["Country"; "country"; "COUNTRY"; "City"; "city"; "CITY";
   "State"; "state"; "STATE"; "Region"; "region"].

(** The first geographic column the frame has. *)
Definition geo_column (df_cols : list string) : option nat :=
  head (omap (fun g => index_of g df_cols) geo_columns).

(** Null / blank filtering: the rows kept and the number dropped. *)
Definition fuzzy_valid (df : DataFrame) (cols : list string) (row : list cell) : bool :=
  forallb (fun col =>
             match index_of col (df_columns df) with
             | Some i => negb (is_absent (nth i row (VStr "")))
             | None => true
             end) cols.

(** Blocking key construction *)
Definition block_key (first : nat) (geo : option nat) (row : list cell) : string :=
  let primary := Text.take 2 (normalize (nth first row (VStr ""))) in
  match geo with
  | Some g => primary +:+ "|" +:+ Text.take 3 (normalize (nth g row (VStr "")))
  | None => primary
  end.

Definition accept (threshold : Z) (i j : nat) (score : Q) : list Match :=
  if Qle_bool (inject_Z threshold) score
  then [ {| _i := i; _j := j; _score := score |} ] else [].

(** A block the performance guard skips: two rows or more and a pair count
    above the cap. *)
Definition oversized (max_pairs_per_block : Z) (block : list WorkRow) : bool :=
  (2 <=? llen block) && (max_pairs_per_block <? llen block * (llen block - 1) / 2).

(** Two rows are linked when a match records them as a pair, and grouped
    together when the frame gives them one [Duplicate_Group_ID]. *)
Definition linked (accepted : list Match) (a b : nat) : Prop :=
  exists s, mkMatch a b s ∈ accepted \/ mkMatch b a s ∈ accepted.

Definition in_group (out : list DupRow) (gid : Z) (label : nat) : Prop :=
  exists row, row ∈ out /\ dr_label row = label /\ Duplicate_Group_ID row = gid.


(** The state of the main comparison loop. *)
Record LoopState : Type := mkLoop {
  matches : list Match;
  skipped_blocks : nat;
  scalar_fallback_blocks : nat;
}.

Section FuzzyEngine.
Context (rt : Runtime) (env : FuzzEnv).

(** Scalar scoring of every pair of a block. *)
Definition scalar_block (df_cols : list string) (block : list WorkRow)
    (cols : list string) (weights : list Q) (threshold : Z) : list Match :=
  mjoin ((fun p : WorkRow * WorkRow =>
            accept threshold (w_label p.1) (w_label p.2)
              (_hybrid_row_score env df_cols (w_cells p.1) (w_cells p.2) cols weights))
         <$> upper_pairs block).

(** Vectorised scoring: the upper triangle of the score matrix. *)
Definition matrix_block (score_matrix : matrix) (block : list WorkRow)
    (threshold : Z) : list Match :=
  mjoin ((fun p : (nat * WorkRow) * (nat * WorkRow) =>
            accept threshold (w_label p.1.2) (w_label p.2.2)
              (mat_get score_matrix p.1.1 p.2.1))
         <$> upper_pairs (labelled block)).

(** One iteration of the main comparison loop. *)
Definition compare_block (df_cols : list string) (cols : list string)
    (weights : list Q) (threshold max_pairs_per_block : Z)
    (st : LoopState) (group : string * list WorkRow) : result LoopState :=
  let block := group.2 in
  let n := llen block in
  if n <? 2 then Ok st
  else
    let n_pairs := n * (n - 1) / 2 in
    if bool_decide (is_Some env) && (n_pairs <=? max_pairs_per_block) then
      (* Tier 1: vectorised cdist (rapidfuzz) *)
      score_matrix <- _rapidfuzz_cdist_block_scores env df_cols
                        (w_cells <$> block) cols weights ;;
      match score_matrix with
      | Some m =>
          Ok {| matches := matches st ++ matrix_block m block threshold;
                skipped_blocks := skipped_blocks st;
                scalar_fallback_blocks := scalar_fallback_blocks st |}
      | None =>
          Ok {| matches := matches st
                           ++ scalar_block df_cols block cols weights threshold;
                skipped_blocks := skipped_blocks st;
                scalar_fallback_blocks := S (scalar_fallback_blocks st) |}
      end
    else if n_pairs <=? max_pairs_per_block then
      (* Tier 2: scalar hybrid fallback *)
      Ok {| matches := matches st
                       ++ scalar_block df_cols block cols weights threshold;
            skipped_blocks := skipped_blocks st;
            scalar_fallback_blocks := S (scalar_fallback_blocks st) |}
    else
      (* Block too large: skip entirely *)
      Ok {| matches := matches st;
            skipped_blocks := S (skipped_blocks st);
            scalar_fallback_blocks := scalar_fallback_blocks st |}.

(** [weights], normalised: equal weights unless one is given per column. *)
Definition normalise_weights (cols : list string) (weights : option (list Q))
  : list Q :=
  match weights with
  | Some w => if Nat.eqb (length w) (length cols) then w
              else replicate (length cols) 1%Q
  | None => replicate (length cols) 1%Q
  end.

(** [work] after null filtering, before the [_block] column is added. *)
Definition fuzzy_work (df : DataFrame) (cols : list string) (ignore_nulls : bool)
  : list (nat * list cell) :=
  if ignore_nulls
  then filter (fun lr => fuzzy_valid df cols lr.2 = true) (labelled (df_rows df))
  else labelled (df_rows df).

(** [work] with its [_block] column, for the runs that reach the
    blocking step (some column selected, some row left); [KeyError] when
    the primary column is missing. *)
Definition fuzzy_blocks (df : DataFrame) (cols : list string) (ignore_nulls : bool)
  : result (list WorkRow) :=
  match cols, fuzzy_work df cols ignore_nulls with
  | [], _ | _, [] => Ok []
  | first_col :: _, work =>
      first <- of_option KeyError (index_of first_col (df_columns df)) ;;
      let geo := geo_column (df_columns df) in
      Ok ((fun lr : nat * list cell =>
             {| w_label := lr.1; w_cells := lr.2;
                w_block := block_key first geo lr.2 |})
          <$> work)
  end.

(** The main comparison loop over the blocks of [work]. *)
Definition fuzzy_compare (df : DataFrame) (cols : list string) (threshold : Z)
    (weights : option (list Q)) (max_pairs_per_block : Z) (ignore_nulls : bool)
  : result LoopState :=
  work <- fuzzy_blocks df cols ignore_nulls ;;
  for_each (compare_block (df_columns df) cols (normalise_weights cols weights)
              threshold max_pairs_per_block)
           {| matches := []; skipped_blocks := O; scalar_fallback_blocks := O |}
           (groupby_block (filter (fun r => w_block r <> "") work)).

End FuzzyEngine.

(* ===================================================================== *)
(** * Union-find and group assembly *)
(* ===================================================================== *)

(** The closures [_find] and [_union] over the dict [parent].  The
    recursion of [_find] follows parent links; the model bounds it by
    [fuel] and answers [None] when the budget runs out. *)
Module UnionFind.

(** [parent.setdefault(x, x)] *)
Definition setdefault (parent : gmap nat nat) (x : nat) : gmap nat nat :=
  match parent !! x with
  | Some _ => parent
  | None => <[x := x]> parent
  end.

Fixpoint _find (fuel : nat) (parent : gmap nat nat) (x : nat)
  : option (gmap nat nat * nat) :=
  match fuel with
  | O => None
  | S fuel' =>
      let parent := setdefault parent x in
      let px := default x (parent !! x) in
      if decide (px <> x) then
        match _find fuel' parent px with
        | Some (parent, r) => Some (<[x := r]> parent, r)   (* path compression *)
        | None => None
        end
      else Some (parent, px)
  end.

Definition _union (fuel : nat) (parent : gmap nat nat) (x y : nat)
  : option (gmap nat nat) :=
  match _find fuel parent x with
  | Some (parent, rx) =>
      match _find fuel parent y with
      | Some (parent, ry) =>
          Some (if decide (rx <> ry) then <[ry := rx]> parent else parent)
      | None => None
      end
  | None => None
  end.

End UnionFind.

(** [for _, row in pair_df.iterrows(): _union(row["_i"], row["_j"])] *)
Fixpoint union_all (fuel : nat) (parent : gmap nat nat) (pair_df : list Match)
  : option (gmap nat nat) :=
  match pair_df with
  | [] => Some parent
  | m :: rest =>
      match UnionFind._union fuel parent (_i m) (_j m) with
      | Some parent => union_all fuel parent rest
      | None => None
      end
  end.

(** [for idx in all_matched: members.setdefault(_find(idx), []).append(idx)] *)
Fixpoint collect_members (fuel : nat) (parent : gmap nat nat)
    (members : list (nat * list nat)) (all_matched : list nat)
  : option (list (nat * list nat)) :=
  match all_matched with
  | [] => Some members
  | idx :: rest =>
      match UnionFind._find fuel parent idx with
      | Some (parent, root) =>
          collect_members fuel parent (group_append root idx members) rest
      | None => None
      end
  end.

(** [work.loc[idx]] *)
Definition work_loc (work : list WorkRow) (idx : nat) : result WorkRow :=
  of_option KeyError (List.find (fun r => Nat.eqb (w_label r) idx) work).

(** [work.loc[idx_list]] *)
Fixpoint work_loc_list (work : list WorkRow) (idx_list : list nat)
  : result (list WorkRow) :=
  match idx_list with
  | [] => Ok []
  | idx :: rest =>
      r <- work_loc work idx ;;
      rs <- work_loc_list work rest ;;
      Ok (r :: rs)
  end.

(** [float(group_pairs["_score"].max())], or the threshold when the group
    has no pair of its own. *)
Definition best_score (pair_df : list Match) (idx_list : list nat) (threshold : Z) : Q :=
  let group_pairs :=
    filter (fun m => _i m ∈ idx_list /\ _j m ∈ idx_list) pair_df in
  match _score <$> group_pairs with
  | [] => inject_Z threshold
  | s :: ss => foldl (fun a b => if Qle_bool a b then b else a) s ss
  end.

(** The loop over [members.items()]: the frames of the groups of two rows
    or more, numbered from 1. *)
Fixpoint out_frames (work : list WorkRow) (pair_df : list Match) (threshold : Z)
    (group_num : Z) (members : list (nat * list nat)) : result (list (list DupRow)) :=
  match members with
  | [] => Ok []
  | (_, idx_list) :: rest =>
      if (length idx_list <? 2)%nat then
        out_frames work pair_df threshold group_num rest
      else
        let group_num := group_num + 1 in
        grp <- work_loc_list work idx_list ;;
        let score := Num.round2 (best_score pair_df idx_list threshold) in
        frames <- out_frames work pair_df threshold group_num rest ;;
        Ok (((fun r => {| dr_label := w_label r;
                          dr_cells := w_cells r;
                          Duplicate_Group_ID := group_num;
                          Duplicate_Type := "Hybrid Fuzzy";
                          Similarity_Score := score;
                          dr_Row_Number := Z.of_nat (w_label r) + 2 |}) <$> grp)
            :: frames)
  end.

Section FuzzyGroups.
Context (rt : Runtime).

Definition all_matched (pair_df : list Match) : list nat :=
  set_iter rt ((_i <$> pair_df) ++ (_j <$> pair_df)).

(** From the accepted pairs to the duplicate frame. *)
Definition fuzzy_groups (work : list WorkRow) (threshold : Z)
    (accepted : list Match) : result (list DupRow) :=
  match accepted with
  | [] => Ok []
  | _ =>
      let pair_df := sort_by_score rt accepted in
      let fuel := S (length pair_df) in
      parent <- of_option OutOfFuel (union_all fuel ∅ pair_df) ;;
      members <- of_option OutOfFuel
                   (collect_members fuel parent [] (all_matched pair_df)) ;;
      frames <- out_frames work pair_df threshold 0 members ;;
      Ok (mjoin frames)
  end.

Definition detect_fuzzy_duplicates (env : FuzzEnv) (df : DataFrame)
    (cols : list string) (threshold : Z) (weights : option (list Q))
    (max_pairs_per_block : Z) (ignore_nulls : bool)
  : result (list DupRow * list Warning) :=
  match cols with
  | [] => Ok ([], [])
  | _ =>
      let warnings_out :=
        if bool_decide (is_Some env) then [] else [RapidFuzzMissing] in
      let work := fuzzy_work df cols ignore_nulls in
      let dropped := (length (df_rows df) - length work)%nat in
      let warnings_out :=
        if ignore_nulls && negb (Nat.eqb dropped 0)
        then warnings_out ++ [NullRowsSkipped dropped] else warnings_out in
      match work with
      | [] => Ok ([], warnings_out)
      | _ =>
          blocks <- fuzzy_blocks df cols ignore_nulls ;;
          loop <- fuzzy_compare env df cols threshold weights
                    max_pairs_per_block ignore_nulls ;;
          let warnings_out :=
            if negb (Nat.eqb (skipped_blocks loop) 0)
            then warnings_out
                 ++ [BlocksSkipped (skipped_blocks loop) max_pairs_per_block]
            else warnings_out in
          let warnings_out :=
            if negb (Nat.eqb (scalar_fallback_blocks loop) 0)
               && bool_decide (is_Some env)
            then warnings_out ++ [ScalarFallback (scalar_fallback_blocks loop)]
            else warnings_out in
          dup_df <- fuzzy_groups blocks threshold (matches loop) ;;
          Ok (dup_df, warnings_out)
      end
  end.

End FuzzyGroups.

(** A reference runtime: a stable sort by descending score, and a set
    iterated in ascending order (what CPython gives for small ints). *)
Definition score_ge (a b : Match) : Prop := (_score b <= _score a)%Q.

#[global] Instance score_ge_dec : RelDecision score_ge.
Proof.
  intros a b. unfold score_ge.
  destruct (Qlt_le_dec (_score a) (_score b)) as [Hlt | Hle].
  - right. intros H. exact (Qlt_not_le _ _ Hlt H).
  - left. exact Hle.
Defined.

#[global] Instance score_ge_total : Total score_ge.
Proof.
  intros a b. unfold score_ge.
  destruct (Qlt_le_dec (_score a) (_score b)) as [Hlt | Hle].
  - right. apply Qlt_le_weak, Hlt.
  - left. exact Hle.
Qed.

Definition reference_runtime : Runtime.
Proof.
  refine {| sort_by_score := merge_sort score_ge;
            sort_by_score_perm := merge_sort_Permutation score_ge;
            sort_by_score_sorted := fun l => Sorted_merge_sort score_ge l;
            set_iter := fun l => merge_sort le (remove_dups l) |}.
  - intros l. rewrite merge_sort_Permutation. apply NoDup_remove_dups.
  - intros l x. rewrite merge_sort_Permutation. apply elem_of_remove_dups.
Defined.

(* ===================================================================== *)
(** * Completeness rules *)
(* ===================================================================== *)

(** True where a value is present: not a null sentinel once trimmed and
    lowercased. *)
Definition rule_not_null (series : list cell) : list bool :=
  (fun c => negb (is_null_sentinel (Text.lower (Text.strip (astype_str c)))))
  <$> series.

(** True where the trimmed value is not empty. *)
Definition rule_not_empty (series : list cell) : list bool :=
  (fun c => 0 <? Text.len (Text.strip (astype_str c))) <$> series.

(** [re.fullmatch(r"\s+", s)] *)
Definition fullmatch_spaces (s : string) : bool :=
  Text.truthy s && all_chars Text.is_space s.

(** True where the value is NOT whitespace-only. *)
Definition rule_whitespace_only (series : list cell) : list bool :=
  (fun c => negb (fullmatch_spaces (astype_str c))) <$> series.

(** True where the trimmed value is present and has [min_len] characters
    or more. *)
Definition rule_minimum_length (series : list cell) (min_len : Z) : list bool :=
  (fun c => let s := Text.strip (astype_str c) in
            negb (is_null_sentinel (Text.lower s)) && (min_len <=? Text.len s))
  <$> series.

(* ===================================================================== *)
(** * Completeness executor *)
(* ===================================================================== *)

(** The [config] dict of a completeness entry of the criteria builder. *)
Record CompletenessConfig : Type := mkCompletenessConfig {
  ccfg_min_length     : option Z;
  ccfg_min_length_val : option Z;
}.

Record CompletenessEntry : Type := mkCompletenessEntry {
  centry_column : string;
  centry_rule   : string;
  centry_config : CompletenessConfig;
}.

(** The dict [rule_funcs], in insertion order. *)
Definition rule_funcs : list (string * ((list cell -> list bool) * string * string)) :=
  [ ("Not Null",        (rule_not_null,        "Missing Values", "Non-null value"));
    ("Not Empty",       (rule_not_empty,       "Missing Values", "Non-empty value"));
    ("Whitespace Only", (rule_whitespace_only, "Missing Values", "Non-whitespace value")) ].

Section CompletenessExecutor.
(** Python's [repr] on a [str]. *)
Context (repr : string -> string).

Definition _run_simple (st : ExecState) (n : Z) (s : list cell)
    (col rule_name : string) (entry : (list cell -> list bool) * string * string)
  : ExecState :=
  let '(func, issue, expected) := entry in
  let fails := failing_labels (func s) in
  (st.1 ++ ((fun idx =>
               let v := astype_str (nth idx s (VStr "")) in
               let orig := if String.eqb rule_name "Whitespace Only"
                           then repr v else v in
               _annex_row (Z.of_nat idx) col rule_name issue orig expected
                 "Completeness") <$> fails),
   _log_rule st.2 "Completeness" col rule_name n (llen fails)).

Definition run_minimum_length (st : ExecState) (n : Z) (s : list cell)
    (col : string) (min_len : Z) : ExecState :=
  record_rule "Completeness" st s (rule_minimum_length s min_len) col
    ("Minimum Length (" +:+ str_Z min_len +:+ ")") "Missing Values"
    ("Length ≥ " +:+ str_Z min_len) n.

Definition run_mandatory (st : ExecState) (n : Z) (s : list cell) (col : string)
  : ExecState :=
  record_rule "Completeness" st s (rule_not_null s) col "Mandatory Column"
    "Missing Values" "Required value" n.

(** One iteration of the loop over [column_rule_map]. *)
Definition completeness_entry (df : DataFrame) (min_length_val : Z)
    (st : ExecState) (entry : CompletenessEntry) : result ExecState :=
  let col := centry_column entry in
  let rule_name := centry_rule entry in
  let cfg := centry_config entry in
  let n := n_rows df in
  if negb (has_column df col) then Ok st
  else
    s <- series df col ;;
    match lookup_rule rule_name rule_funcs with
    | Some f => Ok (_run_simple st n s col rule_name f)
    | None =>
        if String.eqb rule_name "Minimum Length" then
          Ok (run_minimum_length st n s col
                (get (ccfg_min_length cfg)
                     (get (ccfg_min_length_val cfg) min_length_val)))
        else if String.eqb rule_name "Mandatory Column" then
          Ok (run_mandatory st n s col)
        else Ok st
    end.

(** One iteration of the legacy loop over [columns]. *)
Definition completeness_legacy_column (df : DataFrame)
    (selected_rules : list string) (min_length_val : Z)
    (st : ExecState) (col : string) : result ExecState :=
  let n := n_rows df in
  let sel r := bool_decide (r ∈ selected_rules) in
  if negb (has_column df col) then Ok st
  else
    s <- series df col ;;
    st <- for_each (fun st (rf : string * ((list cell -> list bool) * string * string)) =>
                     if sel rf.1 then Ok (_run_simple st n s col rf.1 rf.2)
                     else Ok st)
                  st rule_funcs ;;
    if sel "Minimum Length"
    then Ok (run_minimum_length st n s col min_length_val) else Ok st.

(** One iteration of the loop over [mandatory_cols]. *)
Definition completeness_mandatory_column (df : DataFrame)
    (st : ExecState) (col : string) : result ExecState :=
  if negb (has_column df col) then Ok st
  else s <- series df col ;; Ok (run_mandatory st (n_rows df) s col).

(** [execute_completeness_rules]: the returned annexure and the log after
    the call. *)
Definition execute_completeness_rules (log : ExecLog) (df : DataFrame)
    (selected_rules columns : list string) (min_length_val : Z)
    (mandatory_cols : option (list string))
    (column_rule_map : option (list CompletenessEntry)) : result ExecState :=
  match column_rule_map with
  | Some (e :: es) =>
      for_each (completeness_entry df min_length_val) ([], log) (e :: es)
  | _ =>
      st <- for_each (completeness_legacy_column df selected_rules min_length_val)
                     ([], log) columns ;;
      match mandatory_cols with
      | Some (c :: cs) =>
          if bool_decide ("Mandatory Column" ∈ selected_rules)
          then for_each (completeness_mandatory_column df) st (c :: cs)
          else Ok st
      | _ => Ok st
      end
  end.

End CompletenessExecutor.

(* ===================================================================== *)
(** * Severity and status labels *)
(* ===================================================================== *)

(** [x < bound] on floats *)
Definition lt_Q (x bound : Q) : bool := negb (Qle_bool bound x).

Definition _severity_label (score : Q) : string :=
  if lt_Q score 50 then "Critical"
  else if lt_Q score 70 then "High"
  else if lt_Q score 85 then "Medium"
  else if lt_Q score 95 then "Low"
  else "Pass".

Definition _CLR_GOOD          : string := "C6EFCE".
Definition _CLR_GOOD_FONT     : string := "276221".
Definition _CLR_MODERATE      : string := "FFEB9C".
Definition _CLR_MODERATE_FONT : string := "9C5700".
Definition _CLR_POOR          : string := "FFC7CE".
Definition _CLR_POOR_FONT     : string := "9C0006".

Definition _get_status (score : Q) : string :=
  if lt_Q 95 score then "Good"
  else if Qle_bool 85 score then "Moderate"
  else "Needs Improvement".

Definition _score_color (score : Q) : string :=
  if lt_Q 95 score then _CLR_GOOD
  else if Qle_bool 85 score then _CLR_MODERATE
  else _CLR_POOR.

Definition _score_font_color (score : Q) : string :=
  if lt_Q 95 score then _CLR_GOOD_FONT
  else if Qle_bool 85 score then _CLR_MODERATE_FONT
  else _CLR_POOR_FONT.

(* ===================================================================== *)
(** * Vocabulary of the properties *)
(* ===================================================================== *)

(** A rule passes row [i]: whenever it returns a mask, the mask holds at
    [i] and [i] is not among the failing labels. *)
Definition passes_at (r : result (list bool)) (i : nat) : Prop :=
  forall m, r = Ok m -> m !! i = Some true /\ i ∉ failing_labels m.

(** The data types [rule_data_type] knows. *)
Definition known_data_types : list string := ["numeric"; "integer"; "float"; "date"].

(** What "flagged iff changed" means for one rule application: at every
    row the transform yields a cleaned value and a flag, the flag is set
    exactly when the cleaned value differs from the original text, and the
    annexure rows added for that row number one when flagged and none
    otherwise. *)
Definition flags_exactly_changes (old : list cell) (tr : Transformed)
    (added : list IssueRecord) : Prop :=
  forall i c, old !! i = Some c ->
    exists v flag,
      tr.1 !! i = Some v /\ tr.2 !! i = Some flag
      /\ (flag = true <-> v <> astype_str c)
      /\ length (filter (fun r => Row_Number r = Z.of_nat i + 2) added)
         = if flag then 1%nat else 0%nat.

Section Dict.
Context {K A : Type} `{EqDecision K}.

(** First binding of a key in an insertion-ordered dict. *)
Fixpoint assoc (d : list (K * list A)) (k : K) : option (list A) :=
  match d with
  | [] => None
  | (k', xs) :: d' => if decide (k = k') then Some xs else assoc d' k
  end.

End Dict.

(** The value a dict lookup gives for a group of rows: no binding for an
    empty group. *)
Definition nonempty {A} (xs : list A) : option (list A) :=
  match xs with [] => None | _ => Some xs end.

(** The pair a match records: two rows of the block, in loop order, and a
    score at or above the threshold. *)
Definition pair_of (block : list WorkRow) (threshold : Z) (m : Match) : Prop :=
  exists r1 r2, (r1, r2) ∈ upper_pairs block
    /\ _i m = w_label r1 /\ _j m = w_label r2
    /\ (inject_Z threshold <= _score m)%Q.

(** The blocks of the comparison loop. *)
Definition blocks_of (work : list WorkRow) : list (string * list WorkRow) :=
  groupby_block (filter (fun r => w_block r <> "") work).

(** The forest invariant of [parent].  [rep] names the root of every
    node's tree and [d] bounds the number of links from a node to its
    root; both are the identity and zero outside the dict. *)
Record uf_inv (parent : gmap nat nat) (rep d : nat -> nat) (n : nat) : Prop := {
  inv_rep : forall x p, parent !! x = Some p -> rep p = rep x;
  inv_root : forall x, parent !! x = Some x -> rep x = x /\ d x = O;
  inv_rank : forall x p, parent !! x = Some p -> p <> x -> (d p < d x)%nat;
  inv_bound : forall x, (d x < n)%nat;
  inv_rep_root : forall x, is_Some (parent !! x) -> parent !! rep x = Some (rep x);
  inv_out : forall x, parent !! x = None -> rep x = x /\ d x = O;
}.

(** What one run of an executor leaves behind for dimension [dim] on a
    frame of [n] rows: the log entries [new] it appended and the annexure
    rows [added] it returned.  Each entry is of the dimension, evaluated
    [n] rows and failed between none and all of them; the annexure holds
    one row per failure, each of the dimension and on a data row of the
    sheet (rows 2 to n + 1). *)
Record accounted (dim : string) (n : Z) (new : ExecLog)
    (added : list IssueRecord) : Prop := {
  acc_failed : llen added = sum_Z (Failed <$> new);
  acc_entries :
    Forall (fun e => Dimension e = dim /\ Evaluated e = n /\ 0 <= Failed e <= n) new;
  acc_rows :
    Forall (fun r => Issue_Dimension r = dim /\ 2 <= Row_Number r < n + 2) added;
}.

(** The state of an executor, seen from the state [st0] it started in. *)
Definition extends (dim : string) (n : Z) (st0 st : ExecState) : Prop :=
  exists added new,
    st = (st0.1 ++ added, st0.2 ++ new) /\ accounted dim n new added.



(** The column names a standardization run may rewrite. *)
Definition targeted_columns (columns : list string)
    (column_rule_map : option (list RuleEntry)) : list string :=
  match column_rule_map with
  | Some (e :: es) => entry_column <$> (e :: es)
  | _ => columns
  end.

(** Two frames of one shape: the same column names, the same number of
    rows, and row by row the same number of cells. *)
Definition same_shape (df1 df2 : DataFrame) : Prop :=
  df_columns df1 = df_columns df2
  /\ length <$> df_rows df1 = length <$> df_rows df2.

(** The standardization state, seen from the state [st0] it started in:
    the frame keeps its shape, the columns outside [touched] keep their
    cells, and the annexure and the log grow together. *)
Definition std_extends (n : Z) (touched : list string) (st0 st : StdState) : Prop :=
  same_shape (std_cleaned st0) (std_cleaned st)
  /\ (forall c, c ∉ touched -> series (std_cleaned st) c = series (std_cleaned st0) c)
  /\ extends "Standardization" n (std_annexure st0, std_log st0)
             (std_annexure st, std_log st).

(** A log whose counts are counts: nothing negative. *)
Definition counts_only (log : ExecLog) : Prop :=
  Forall (fun e => 0 <= Failed e /\ 0 <= Evaluated e) log.

(** A score that is a percentage. *)
Definition is_percentage (q : Q) : Prop := (0 <= q <= 100)%Q.

(** A frame with one column of codes: a clean one, one with a dash, and an
    empty cell. *)
Definition codes : DataFrame :=
  mkDF ["code"] [[VStr "AB12"]; [VStr "A-1"]; [VStr ""]].

(** Two columns of names with stray spaces and mixed case. *)
Definition people : DataFrame :=
  mkDF ["name"; "city"] [[VStr " asha "; VStr "Pune "]; [VStr "BO"; VStr "Goa"]].

(* ===================================================================== *)
(** * Example frames *)
(* ===================================================================== *)

(** Three spellings of one name; "Jon Smith" and "John Smyth" are the two
    that differ most. *)
Definition smiths : DataFrame :=
  mkDF ["Name"] [[VStr "Jon Smith"]; [VStr "John Smith"]; [VStr "John Smyth"]].

(** Scenario D: 250 rows that share one block key. *)
Definition one_big_block : DataFrame :=
  mkDF ["Name"] (replicate 250 [VStr "acme"]).

(** Two rows whose only monitored cell is a null sentinel, around a pair of
    equal names. *)
Definition sentinel_rows : DataFrame :=
  mkDF ["Name"] [[VStr "nan"]; [VStr "Acme"]; [VStr "Acme"]; [VStr "nan"]].

(** Scenario A: ten rows, a Not Null rule that fails two of them. *)
Definition scenario_A_log : ExecLog :=
  _log_rule [] "Completeness" "email" "Not Null" 10 2.

(* ===================================================================== *)
(** * Properties: rounding *)
(* ===================================================================== *)

Section RoundingFacts.
Local Open Scope Q_scope.

Lemma round_half_even_comp (x y : Q) :
  x == y -> Num.round_half_even x = Num.round_half_even y.
Proof.
  intros H. unfold Num.round_half_even.
  rewrite (Qfloor_comp _ _ H).
  assert (Hc : (x - inject_Z (Qfloor y) ?= 1 # 2) = (y - inject_Z (Qfloor y) ?= 1 # 2)).
  { apply Qcompare_comp; [rewrite H; reflexivity | reflexivity]. }
  rewrite Hc. reflexivity.
Qed.

Lemma round_half_even_Z (z : Z) : Num.round_half_even (inject_Z z) = z.
Proof.
  unfold Num.round_half_even. rewrite Qfloor_Z.
  assert (H : (inject_Z z - inject_Z z ?= 1 # 2) = Lt).
  { apply (proj1 (Qlt_alt _ _)). lra. }
  rewrite H. reflexivity.
Qed.


Lemma round2_eq (x : Q) : Num.round2 x == inject_Z (Num.round_half_even (x * 100)) / 100.
Proof.
  unfold Num.round2. rewrite Qred_correct.
  unfold Qeq, Qdiv, Qmult, Qinv, inject_Z; simpl. lia.
Qed.


Lemma round2_comp (x y : Q) : x == y -> Num.round2 x = Num.round2 y.
Proof.
  intros H. unfold Num.round2.
  rewrite (round_half_even_comp (x * 100) (y * 100)); [reflexivity |].
  rewrite H. reflexivity.
Qed.

(** A number of hundredths is left as it is (in lowest terms). *)
Lemma round2_hundredths (z : Z) : Num.round2 (z # 100) = Qred (z # 100).
Proof.
  unfold Num.round2.
  rewrite (round_half_even_comp ((z # 100) * 100) (inject_Z z)).
  - rewrite round_half_even_Z. reflexivity.
  - unfold Qeq, Qmult, inject_Z; simpl. lia.
Qed.

Lemma round2_between (lo hi : Z) (q : Q) :
  inject_Z lo <= q <= inject_Z hi ->
  inject_Z lo <= Num.round2 q <= inject_Z hi.
Proof.
  intros [Hlo Hhi].
  rewrite round2_eq.
  assert (Hr : (lo * 100 <= Num.round_half_even (q * 100) <= hi * 100)%Z).
  { unfold Num.round_half_even.
    pose proof (Qfloor_le (q * 100)) as Hf1.
    pose proof (Qlt_floor (q * 100)) as Hf2.
    assert (Hl : (lo * 100 <= Qfloor (q * 100))%Z).
    { rewrite <- (Qfloor_Z (lo * 100)%Z). apply Qfloor_resp_le.
      rewrite inject_Z_mult. change (inject_Z 100) with 100. lra. }
    assert (Hh : (Qfloor (q * 100) <= hi * 100)%Z).
    { rewrite <- (Qfloor_Z (hi * 100)%Z). apply Qfloor_resp_le.
      rewrite inject_Z_mult. change (inject_Z 100) with 100. lra. }
    destruct (Z.eq_dec (Qfloor (q * 100)) (hi * 100)%Z) as [He | Hne].
    - assert (Hx : q * 100 - inject_Z (Qfloor (q * 100)) <= 0).
      { rewrite He, inject_Z_mult. change (inject_Z 100) with 100. lra. }
      assert (Hc : (q * 100 - inject_Z (Qfloor (q * 100)) ?= 1 # 2) = Lt).
      { apply (proj1 (Qlt_alt _ _)). lra. }
      rewrite Hc. lia.
    - destruct (q * 100 - inject_Z (Qfloor (q * 100)) ?= 1 # 2); [destruct (Z.even _) | |]; lia. }
  destruct Hr as [Hr1 Hr2].
  rewrite Zle_Qle in Hr1, Hr2.
  rewrite inject_Z_mult in Hr1, Hr2. change (inject_Z 100) with 100 in Hr1, Hr2.
  set (r := inject_Z (Num.round_half_even (q * 100))) in *.
  change (r / 100) with (r * (1 # 100)). lra.
Qed.

End RoundingFacts.

(* ===================================================================== *)
(** * Properties: audit log and scoring engine *)
(* ===================================================================== *)

Section ScoringFacts.
Local Open Scope Q_scope.

Lemma pct_bounds (a b : Z) :
  (0 <= a <= b)%Z -> (0 < b)%Z -> 0 <= Num.pct a b <= 100.
Proof.
  intros [Ha Hab] Hb. unfold Num.pct.
  assert (Hb' : 0 < inject_Z b) by (change 0%Q with (inject_Z 0); rewrite <- Zlt_Qlt; exact Hb).
  assert (Ha' : 0 <= inject_Z a) by (change 0%Q with (inject_Z 0); rewrite <- Zle_Qle; exact Ha).
  assert (Hab' : inject_Z a <= inject_Z b) by (rewrite <- Zle_Qle; exact Hab).
  assert (H0 : 0 <= inject_Z a / inject_Z b).
  { apply Qle_shift_div_l; [exact Hb' | lra]. }
  assert (H1 : inject_Z a / inject_Z b <= 1).
  { apply Qle_shift_div_r; [exact Hb' | lra]. }
  split; lra.
Qed.

Lemma pct_full (b : Z) : (0 < b)%Z -> Num.pct b b == 100.
Proof.
  intros Hb. unfold Num.pct.
  assert (Hb' : ~ inject_Z b == 0).
  { intros H. assert (0 < inject_Z b) by (change 0%Q with (inject_Z 0); rewrite <- Zlt_Qlt; exact Hb). lra. }
  field. exact Hb'.
Qed.

Lemma max0_nonneg (x : Q) : 0 <= x -> Num.max0 x = x.
Proof.
  intros H. unfold Num.max0.
  destruct (Qle_bool 0 x) eqn:E; [reflexivity |].
  apply Qle_bool_iff in H. congruence.
Qed.

Lemma round2_100 (x : Q) : x == 100 -> Num.round2 x = 100.
Proof.
  intros H. rewrite (round2_comp x (10000 # 100)).
  - rewrite round2_hundredths. reflexivity.
  - rewrite H. reflexivity.
Qed.

End ScoringFacts.

Lemma _score_from_log_unfold (log : ExecLog) (dim : string) (n : Z) :
  _score_from_log log dim n =
    match entries_of log dim with
    | [] => None
    | _ =>
        if sum_Z (Evaluated <$> entries_of log dim) =? 0 then None
        else Some (Num.round2 (Num.max0
               (Num.pct (sum_Z (Evaluated <$> entries_of log dim)
                         - sum_Z (Failed <$> entries_of log dim))
                        (sum_Z (Evaluated <$> entries_of log dim)))))
    end.
Proof. reflexivity. Qed.










(** C10.  On a non-empty frame, when the duplicate frame is missing or
    empty the scorer returns exactly 100 and appends one Uniqueness entry
    with Evaluated = total rows and Failed = 0 (severity Pass); read back
    from a fresh log, that entry scores 100 rather than not-evaluated. *)
Theorem uniqueness_clean_pass_logged
    (log : ExecLog) (total : Z) (dup_records : option DupFrame) :
  0 < total ->
  (dup_records = None \/ exists d, dup_records = Some d /\ dup_len d = O) ->
  compute_uniqueness_score log total dup_records
  = (100%Q,
     log ++ [ {| Dimension  := "Uniqueness";
                 Column     := "ALL";
                 Rule       := "Exact/Fuzzy Duplicate Check";
                 Evaluated  := total;
                 Failed     := 0;
                 Passed     := total - 0;
                 Score_pct  := Some 100%Q;
                 Severity   := "Pass";
                 Issue_Type := "Duplicate Records" |} ])
  /\ _score_from_log (compute_uniqueness_score [] total dup_records).2
       "Uniqueness" total = Some 100%Q.
Proof.
  intros Htotal Hdup.
  assert (Hz : (total =? 0) = false) by (apply Z.eqb_neq; lia).
  assert (Hpos : (0 <? total) = true) by (apply Z.ltb_lt; lia).
  assert (Hr : Num.round2 (Num.pct (total - 0) total) = 100%Q).
  { apply round2_100. rewrite Z.sub_0_r. apply pct_full. exact Htotal. }
  assert (Hscore : forall l,
    compute_uniqueness_score l total dup_records
    = (100%Q, _log_rule l "Uniqueness" "ALL" "Exact/Fuzzy Duplicate Check" total 0)).
  { intros l. unfold compute_uniqueness_score. rewrite Hz.
    destruct Hdup as [-> | (d & -> & Hd)]; [reflexivity |].
    rewrite Hd. reflexivity. }
  assert (Hlog : forall l,
    _log_rule l "Uniqueness" "ALL" "Exact/Fuzzy Duplicate Check" total 0
    = l ++ [ {| Dimension  := "Uniqueness";
                Column     := "ALL";
                Rule       := "Exact/Fuzzy Duplicate Check";
                Evaluated  := total;
                Failed     := 0;
                Passed     := total - 0;
                Score_pct  := Some 100%Q;
                Severity   := "Pass";
                Issue_Type := "Duplicate Records" |} ]).
  { intros l. unfold _log_rule. rewrite Hpos, Hr. reflexivity. }
  split.
  - rewrite Hscore, Hlog. reflexivity.
  - rewrite Hscore, Hlog. simpl.
    rewrite _score_from_log_unfold. simpl.
    rewrite Z.add_0_r, Hz.
    f_equal. apply round2_100.
    rewrite max0_nonneg.
    + rewrite Z.sub_0_r. apply pct_full. exact Htotal.
    + apply (pct_bounds (total - 0) total); lia.
Qed.

Lemma uniqueness_clean_pass_logged_witness :
  compute_uniqueness_score [] 10 None
  = (100%Q,
     [] ++ [ {| Dimension  := "Uniqueness";
                Column     := "ALL";
                Rule       := "Exact/Fuzzy Duplicate Check";
                Evaluated  := 10;
                Failed     := 0;
                Passed     := 10 - 0;
                Score_pct  := Some 100%Q;
                Severity   := "Pass";
                Issue_Type := "Duplicate Records" |} ])
  /\ _score_from_log (compute_uniqueness_score [] 10 None).2
       "Uniqueness" 10 = Some 100%Q.
Proof.
  apply (uniqueness_clean_pass_logged [] 10 None); [lia | left; reflexivity].
Defined.

(* ===================================================================== *)
(** * Properties: masks and labels *)
(* ===================================================================== *)

Lemma labelled_lookup {A} (l : list A) (i : nat) :
  labelled l !! i = (fun x => (i, x)) <$> l !! i.
Proof. unfold labelled. apply list_lookup_imap. Qed.

Lemma elem_of_labelled {A} (l : list A) (i : nat) (x : A) :
  (i, x) ∈ labelled l <-> l !! i = Some x.
Proof.
  unfold labelled. rewrite elem_of_lookup_imap. split.
  - intros (j & y & [= -> ->] & H). exact H.
  - intros H. exists i, x. split; [reflexivity | exact H].
Qed.

Lemma index_where_shift (f : nat -> nat) (mask : list bool) :
  omap (fun '(i, b) => if b : bool then Some i else None)
       (imap (fun i x => (f i, x)) mask)
  = f <$> index_where mask.
Proof.
  unfold index_where, labelled.
  revert f. induction mask as [| c mask IH]; intros f; [reflexivity |].
  rewrite !imap_cons. cbn [omap list_omap].
  pose proof (IH (f ∘ S)) as H1. pose proof (IH S) as H2.
  unfold compose in H1, H2 |- *. cbn beta in H1, H2 |- *.
  rewrite H1, H2.
  destruct c; cbn; rewrite <- list_fmap_compose; reflexivity.
Qed.

Lemma index_where_cons (b : bool) (mask : list bool) :
  index_where (b :: mask)
  = (if b then [O] else []) ++ (S <$> index_where mask).
Proof.
  rewrite <- (index_where_shift S mask).
  unfold index_where, labelled. rewrite imap_cons. cbn [omap list_omap].
  destruct b; reflexivity.
Qed.

Lemma elem_of_index_where (mask : list bool) (i : nat) :
  i ∈ index_where mask <-> mask !! i = Some true.
Proof.
  revert i. induction mask as [| b mask IH]; intros i.
  - cbn. rewrite elem_of_nil. split; [tauto | discriminate].
  - rewrite index_where_cons, elem_of_app, list_elem_of_fmap.
    destruct i as [| i]; cbn.
    + split.
      * intros [H | (j & Hj & _)]; [| discriminate].
        destruct b; [reflexivity | apply elem_of_nil in H; tauto].
      * intros [= ->]. left. apply list_elem_of_here.
    + rewrite <- IH. split.
      * intros [H | (j & [= ->] & Hj)]; [| exact Hj].
        destruct b; [apply list_elem_of_singleton in H; discriminate
                    | apply elem_of_nil in H; tauto].
      * intros H. right. exists i. split; [reflexivity | exact H].
Qed.

Lemma NoDup_index_where (mask : list bool) : NoDup (index_where mask).
Proof.
  induction mask as [| b mask IH]; [constructor |].
  rewrite index_where_cons.
  assert (Hs : NoDup (S <$> index_where mask)).
  { apply NoDup_fmap_2; [intros x y; lia | exact IH]. }
  destruct b; [| exact Hs].
  cbn. constructor; [| exact Hs].
  rewrite list_elem_of_fmap. intros (j & Hj & _). discriminate.
Qed.

(** A list without repetition holds each of its elements exactly once. *)
Lemma count_NoDup (l : list nat) (i : nat) :
  NoDup l ->
  length (filter (fun j => j = i) l) = if decide (i ∈ l) then 1%nat else 0%nat.
Proof.
  induction 1 as [| x l Hx Hnd IH]; [reflexivity |].
  rewrite filter_cons. destruct (decide (x = i)) as [-> | Hne].
  - cbn. rewrite IH. destruct (decide (i ∈ l)); [contradiction |].
    destruct (decide (i ∈ i :: l)) as [_ | Hn]; [reflexivity |].
    exfalso. apply Hn, list_elem_of_here.
  - rewrite IH. destruct (decide (i ∈ l)) as [Hi | Hi].
    + destruct (decide (i ∈ x :: l)) as [_ | Hn]; [reflexivity |].
      exfalso. apply Hn. apply list_elem_of_further, Hi.
    + destruct (decide (i ∈ x :: l)) as [Hi' | _]; [| reflexivity].
      apply elem_of_cons in Hi' as [-> | Hi']; [congruence | contradiction].
Qed.

(** The rows a rule flags, counted per label: one when the mask holds at
    the label, none otherwise. *)
Lemma count_index_where (mask : list bool) (i : nat) :
  length (filter (fun j => j = i) (index_where mask))
  = if decide (mask !! i = Some true) then 1%nat else 0%nat.
Proof.
  rewrite count_NoDup by apply NoDup_index_where.
  destruct (decide (i ∈ index_where mask)) as [H | H];
    rewrite elem_of_index_where in H;
    destruct (decide (mask !! i = Some true)); done.
Qed.

Lemma index_where_all_false (mask : list bool) :
  (forall b, b ∈ mask -> b = false) -> index_where mask = [].
Proof.
  intros H. destruct (index_where mask) as [| i l] eqn:E; [reflexivity |].
  assert (Hi : i ∈ index_where mask) by (rewrite E; apply list_elem_of_here).
  apply elem_of_index_where in Hi.
  apply list_elem_of_lookup_2 in Hi. apply H in Hi. discriminate.
Qed.

Lemma failing_labels_all_true {A} (l : list A) : failing_labels (all_true l) = [].
Proof.
  unfold failing_labels, all_true. apply index_where_all_false.
  intros b Hb. rewrite <- list_fmap_compose in Hb.
  apply list_elem_of_fmap in Hb as (x & -> & _). reflexivity.
Qed.

Lemma orb_masks_skip (skip valid : list bool) (i : nat) :
  length valid = length skip ->
  skip !! i = Some true ->
  orb_masks skip valid !! i = Some true.
Proof.
  intros Hlen Hs. unfold orb_masks. rewrite lookup_zip_with, Hs. cbn.
  destruct (valid !! i) as [v |] eqn:E; [reflexivity |].
  apply lookup_ge_None in E. apply lookup_lt_Some in Hs. lia.
Qed.

(* ===================================================================== *)
(** * Properties: validity rules *)
(* ===================================================================== *)

Lemma lower_upper_char (c : ascii) :
  Text.lower_char (Text.upper_char c) = Text.lower_char c.
Proof. destruct c as [[] [] [] [] [] [] [] []]; reflexivity. Qed.

Lemma lower_upper (s : string) : Text.lower (Text.upper s) = Text.lower s.
Proof.
  induction s as [| c s IH]; [reflexivity |].
  cbn. rewrite lower_upper_char. f_equal. exact IH.
Qed.

Lemma stripped_lookup (series : list cell) (i : nat) (c : cell) :
  series !! i = Some c ->
  stripped series !! i = Some (Text.strip (astype_str c)).
Proof. intros H. unfold stripped. rewrite list_lookup_fmap, H. reflexivity. Qed.

Lemma skip_absent (series : list cell) (i : nat) (c : cell) :
  series !! i = Some c -> is_absent c = true ->
  (_is_empty_for_validity <$> stripped series) !! i = Some true.
Proof.
  intros H Ha. rewrite list_lookup_fmap, (stripped_lookup _ _ _ H). cbn.
  f_equal. exact Ha.
Qed.

Lemma skip_absent_upper (series : list cell) (i : nat) (c : cell) :
  series !! i = Some c -> is_absent c = true ->
  (_is_empty_for_validity <$> (Text.upper <$> stripped series)) !! i = Some true.
Proof.
  intros H Ha. rewrite !list_lookup_fmap, (stripped_lookup _ _ _ H). cbn.
  f_equal. unfold _is_empty_for_validity. rewrite lower_upper. exact Ha.
Qed.

Section SkipRules.
Context (E : RegexEngine) (P : Pandas).
Context (series : list cell) (i : nat) (c : cell).
Hypothesis (Hcell : series !! i = Some c) (Habsent : is_absent c = true).

Local Ltac skip_mask :=
  apply orb_masks_skip;
  [ rewrite ?length_fmap; reflexivity
  | first [ apply (skip_absent series i c Hcell Habsent)
          | apply (skip_absent_upper series i c Hcell Habsent) ] ].

Lemma str_fullmatch_ok (pattern : string) (s : list string) (valid : list bool) :
  str_fullmatch E pattern s = Ok valid -> length valid = length s.
Proof.
  unfold str_fullmatch. destruct (re_compile E pattern); cbn; [| discriminate].
  intros [= <-]. apply length_fmap.
Qed.

Lemma datetime_notna_ok (fmt : option string) (s : list string) (valid : list bool) :
  datetime_notna P fmt s = Ok valid -> length valid = length s.
Proof.
  unfold datetime_notna. destruct (to_datetime P fmt true s); cbn; [| discriminate].
  intros [= <-]. apply length_fmap.
Qed.

Local Ltac skip_bind H :=
  match type of H with
  | context [str_fullmatch E ?p ?s] =>
      let v := fresh "valid" in let Ev := fresh "Ev" in
      destruct (str_fullmatch E p s) as [v | ?] eqn:Ev; cbn in H; [| discriminate];
      apply str_fullmatch_ok in Ev
  | context [datetime_notna P ?f ?s] =>
      let v := fresh "valid" in let Ev := fresh "Ev" in
      destruct (datetime_notna P f s) as [v | ?] eqn:Ev; cbn in H; [| discriminate];
      apply datetime_notna_ok in Ev
  end.

Local Ltac skip_done H :=
  injection H as <-; apply orb_masks_skip;
  [ rewrite ?length_fmap in *; congruence
  | first [ apply (skip_absent series i c Hcell Habsent)
          | apply (skip_absent_upper series i c Hcell Habsent) ] ].

Lemma all_true_lookup : all_true series !! i = Some true.
Proof. unfold all_true. rewrite list_lookup_fmap, Hcell. reflexivity. Qed.

Lemma email_skips_absent (m : list bool) :
  rule_email_format E series = Ok m -> m !! i = Some true.
Proof. unfold rule_email_format. intros H. skip_bind H. skip_done H. Qed.

Lemma phone_skips_absent (m : list bool) :
  rule_phone_format E series = Ok m -> m !! i = Some true.
Proof. unfold rule_phone_format. intros H. skip_bind H. skip_done H. Qed.

Lemma pan_skips_absent (m : list bool) :
  rule_pan_format E series = Ok m -> m !! i = Some true.
Proof. unfold rule_pan_format. intros H. skip_bind H. skip_done H. Qed.

Lemma data_type_skips_absent (expected : string) (m : list bool) :
  rule_data_type E P series expected = Ok m -> m !! i = Some true.
Proof.
  unfold rule_data_type. intros H.
  repeat (match type of H with
          | (if ?b then _ else _) = _ => destruct b
          end);
    try (skip_bind H; skip_done H).
  injection H as <-. apply all_true_lookup.
Qed.

Lemma date_format_skips_absent (fmt : string) (m : list bool) :
  rule_date_format P series fmt = Ok m -> m !! i = Some true.
Proof.
  unfold rule_date_format. intros H.
  destruct (Text.truthy fmt).
  - destruct (datetime_notna P (Some fmt) (stripped series)) as [v | e] eqn:Ev.
    + apply datetime_notna_ok in Ev. skip_done H.
    + skip_bind H. skip_done H.
  - skip_bind H. skip_done H.
Qed.

Lemma numeric_range_skips_absent (lo hi : Q) (m : list bool) :
  rule_numeric_range P series lo hi = Ok m -> m !! i = Some true.
Proof. unfold rule_numeric_range. intros H. skip_done H. Qed.

Lemma allowed_values_skips_absent (allowed : list string) (m : list bool) :
  rule_allowed_values series allowed = Ok m -> m !! i = Some true.
Proof. unfold rule_allowed_values. intros H. skip_done H. Qed.

Lemma custom_regex_skips_absent (pattern : string) (m : list bool) :
  rule_custom_regex E series pattern = Ok m -> m !! i = Some true.
Proof.
  unfold rule_custom_regex. intros H.
  destruct (str_fullmatch E pattern (stripped series)) as [v | e] eqn:Ev.
  - apply str_fullmatch_ok in Ev. skip_done H.
  - destruct e; try discriminate. injection H as <-. apply all_true_lookup.
Qed.

End SkipRules.

Lemma passes_at_intro (r : result (list bool)) (i : nat) :
  (forall m, r = Ok m -> m !! i = Some true) -> passes_at r i.
Proof.
  intros H m Hm. specialize (H m Hm). split; [exact H |].
  unfold failing_labels. rewrite elem_of_index_where, list_lookup_fmap, H.
  discriminate.
Qed.

(** The eight validity rules built on [_is_empty_for_validity] treat an
    Absent cell as passing: whenever the rule returns a mask, the mask
    holds at that row, so the row is not among the failing labels (no
    IssueRecord, not counted as failed). *)
Theorem validity_skip_rules_pass_absent
    (E : RegexEngine) (P : Pandas) (series : list cell) (i : nat) (c : cell)
    (expected fmt pattern : string) (lo hi : Q) (allowed : list string) :
  series !! i = Some c -> is_absent c = true ->
  passes_at (rule_email_format E series) i
  /\ passes_at (rule_phone_format E series) i
  /\ passes_at (rule_pan_format E series) i
  /\ passes_at (rule_data_type E P series expected) i
  /\ passes_at (rule_date_format P series fmt) i
  /\ passes_at (rule_numeric_range P series lo hi) i
  /\ passes_at (rule_allowed_values series allowed) i
  /\ passes_at (rule_custom_regex E series pattern) i.
Proof.
  intros Hc Ha.
  repeat apply conj; apply passes_at_intro; intros m Hm.
  - exact (email_skips_absent E series i c Hc Ha m Hm).
  - exact (phone_skips_absent E series i c Hc Ha m Hm).
  - exact (pan_skips_absent E series i c Hc Ha m Hm).
  - exact (data_type_skips_absent E P series i c Hc Ha expected m Hm).
  - exact (date_format_skips_absent P series i c Hc Ha fmt m Hm).
  - exact (numeric_range_skips_absent P series i c Hc Ha lo hi m Hm).
  - exact (allowed_values_skips_absent series i c Hc Ha allowed m Hm).
  - exact (custom_regex_skips_absent E series i c Hc Ha pattern m Hm).
Qed.

Lemma validity_skip_rules_pass_absent_witness :
  [VStr "a@b.co"; VStr " N/A "] !! 1%nat = Some (VStr " N/A ")
  /\ is_absent (VStr " N/A ") = true
  /\ passes_at (rule_custom_regex (table_engine sample_patterns)
                  [VStr "a@b.co"; VStr " N/A "] "^[a-zA-Z0-9]+$") 1.
Proof.
  split; [reflexivity |]. split; [reflexivity |].
  eapply (validity_skip_rules_pass_absent (table_engine sample_patterns)
            no_parse_pandas [VStr "a@b.co"; VStr " N/A "] 1 (VStr " N/A ")
            "" "" "^[a-zA-Z0-9]+$" 0%Q 0%Q []); reflexivity.
Defined.

(** C1 at three failing inputs.  Length Check, Format Check and Special
    Characters Not Allowed do not skip Absent cells: the cells "missing"
    (longer than a maximum of 5), "" and "n/a" (rejected by the default
    patterns) are null sentinels, yet each is reported as a Validity
    failure and logged as one failed row. *)
Theorem validity_inline_rules_flag_absent (P : Pandas) :
  (is_absent (VStr "missing") = true
   /\ validity_entry (table_engine sample_patterns) P
        (mkDF ["code"] [[VStr "missing"]]) ∅ 0 100 "" ([], [])
        (mkEntry "code" "Length Check" (config_max_length 5))
      = Ok ([ _annex_row 0 "code" "Length Check (max 5)" "Invalid Format"
                "missing" "Length ≤ 5" "Validity" ],
            _log_rule [] "Validity" "code" "Length Check (max 5)" 1 1))
  /\ (is_absent (VStr "") = true
      /\ validity_entry (table_engine sample_patterns) P
           (mkDF ["code"] [[VStr ""]]) ∅ 0 100 "" ([], [])
           (mkEntry "code" "Format Check" no_config)
         = Ok ([ _annex_row 0 "code" "Format Check (^[a-zA-Z0-9]+$)"
                   "Invalid Format" "" "Expected format: ^[a-zA-Z0-9]+$"
                   "Validity" ],
               _log_rule [] "Validity" "code" "Format Check (^[a-zA-Z0-9]+$)" 1 1))
  /\ (is_absent (VStr "n/a") = true
      /\ validity_entry (table_engine sample_patterns) P
           (mkDF ["code"] [[VStr "n/a"]]) ∅ 0 100 "" ([], [])
           (mkEntry "code" "Special Characters Not Allowed" no_config)
         = Ok ([ _annex_row 0 "code" "Special Characters Not Allowed"
                   "Invalid Format" "n/a" "Alphanumeric + spaces only"
                   "Validity" ],
               _log_rule [] "Validity" "code" "Special Characters Not Allowed" 1 1)).
Proof. repeat split; vm_compute; reflexivity. Qed.

Lemma has_column_series (df : DataFrame) (col : string) :
  has_column df col = true -> exists s, series df col = Ok s.
Proof.
  unfold has_column, series. intros H. apply bool_decide_eq_true in H.
  destruct H as [i Hi]. rewrite Hi. eexists. reflexivity.
Qed.

Lemma record_rule_all_true (dim : string) (st : ExecState) (s : list cell)
    (col label issue expected : string) (n : Z) :
  record_rule dim st s (all_true s) col label issue expected n
  = (st.1, _log_rule st.2 dim col label n 0).
Proof.
  unfold record_rule. rewrite failing_labels_all_true. cbn.
  rewrite app_nil_r. reflexivity.
Qed.

Lemma run_custom_regex_malformed (E : RegexEngine) (st : ExecState) (n : Z)
    (s : list cell) (col pattern : string) :
  Text.truthy pattern = true -> re_compile E pattern = None ->
  run_custom_regex E st n s col pattern
  = Ok (st.1, _log_rule st.2 "Validity" col ("Regex: " +:+ Text.take 30 pattern) n 0).
Proof.
  intros Ht Hc. unfold run_custom_regex, rule_custom_regex, str_fullmatch.
  rewrite Ht, Hc. cbn. rewrite record_rule_all_true. reflexivity.
Qed.

Lemma run_data_type_unknown (E : RegexEngine) (P : Pandas) (st : ExecState) (n : Z)
    (s : list cell) (col t : string) :
  t ∉ known_data_types ->
  run_data_type E P st n s col t
  = Ok (st.1, _log_rule st.2 "Validity" col ("Data Type (" +:+ t +:+ ")") n 0).
Proof.
  intros Ht. unfold run_data_type, rule_data_type.
  assert (Hne : forall k, k ∈ known_data_types -> String.eqb t k = false).
  { intros k Hk. apply String.eqb_neq. intros ->. contradiction. }
  rewrite !Hne by (unfold known_data_types; set_solver).
  cbn. rewrite record_rule_all_true. reflexivity.
Qed.

(** Decide the comparisons of literal rule names. *)
Ltac dispatch_rule :=
  repeat match goal with
    | |- context [String.eqb ?a ?b] =>
        let v := eval vm_compute in (String.eqb a b) in
        change (String.eqb a b) with v; cbv iota
    | |- context [bool_decide (?a ∈ ?l)] =>
        let v := eval vm_compute in (bool_decide (a ∈ l)) in
        change (bool_decide (a ∈ l)) with v; cbv iota
    end.

(** C8 (amended).  A Custom Regex rule whose pattern does not compile, and
    a Data Type rule whose type name is not one of numeric, integer, float
    and date, evaluate as always-pass: on either path of
    [execute_validity_rules] the call returns normally with no
    IssueRecord, and the audit log gains one entry with Failed = 0.  The
    returned value is the annexure alone; it carries no warning. *)
Theorem malformed_parameter_always_passes
    (E : RegexEngine) (P : Pandas) (log : ExecLog) (df : DataFrame)
    (col pattern t : string) (selected columns : list string)
    (dtype_map : gmap string string) (rmin rmax : Q) (av cr date_fmt : string) :
  has_column df col = true ->
  Text.truthy pattern = true ->
  re_compile E pattern = None ->
  t ∉ known_data_types ->
  execute_validity_rules E P log df selected columns dtype_map rmin rmax av cr
    date_fmt (Some [mkEntry col "Custom Regex" (config_regex pattern)])
  = Ok ([], _log_rule log "Validity" col ("Regex: " +:+ Text.take 30 pattern)
              (n_rows df) 0)
  /\ execute_validity_rules E P log df ["Custom Regex"] [col] dtype_map rmin rmax
       av pattern date_fmt None
     = Ok ([], _log_rule log "Validity" col ("Regex: " +:+ Text.take 30 pattern)
                 (n_rows df) 0)
  /\ execute_validity_rules E P log df selected columns dtype_map rmin rmax av cr
       date_fmt (Some [mkEntry col "Data Type Validation" (config_data_type t)])
     = Ok ([], _log_rule log "Validity" col ("Data Type (" +:+ t +:+ ")")
                 (n_rows df) 0).
Proof.
  intros Hcol Ht Hc Hty.
  destruct (has_column_series df col Hcol) as [s Hs].
  repeat apply conj.
  - unfold execute_validity_rules, for_each, validity_entry.
    cbn [entry_column entry_rule entry_config config_regex cfg_regex get].
    rewrite Hcol, Hs. cbn [negb bind]. dispatch_rule.
    rewrite run_custom_regex_malformed by assumption. reflexivity.
  - unfold execute_validity_rules, for_each, validity_legacy_column.
    rewrite Hcol, Hs. cbn [negb bind for_each simple_rule_names].
    dispatch_rule. unfold when. cbn [bind andb].
    rewrite Ht. rewrite run_custom_regex_malformed by assumption. reflexivity.
  - unfold execute_validity_rules, for_each, validity_entry.
    cbn [entry_column entry_rule entry_config config_data_type cfg_data_type get].
    rewrite Hcol, Hs. cbn [negb bind]. dispatch_rule.
    rewrite run_data_type_unknown by assumption. reflexivity.
Qed.

Lemma malformed_parameter_always_passes_witness :
  execute_validity_rules (table_engine sample_patterns) no_parse_pandas []
    (mkDF ["code"] [[VStr "abc"]; [VStr "x-1"]]) [] [] ∅ 0 100 "" "" ""
    (Some [mkEntry "code" "Custom Regex" (config_regex "(")])
  = Ok ([], _log_rule [] "Validity" "code" ("Regex: " +:+ Text.take 30 "(")
              (n_rows (mkDF ["code"] [[VStr "abc"]; [VStr "x-1"]])) 0)
  /\ execute_validity_rules (table_engine sample_patterns) no_parse_pandas []
       (mkDF ["code"] [[VStr "abc"]; [VStr "x-1"]]) ["Custom Regex"] ["code"] ∅
       0 100 "" "(" "" None
     = Ok ([], _log_rule [] "Validity" "code" ("Regex: " +:+ Text.take 30 "(")
                 (n_rows (mkDF ["code"] [[VStr "abc"]; [VStr "x-1"]])) 0)
  /\ execute_validity_rules (table_engine sample_patterns) no_parse_pandas []
       (mkDF ["code"] [[VStr "abc"]; [VStr "x-1"]]) [] [] ∅ 0 100 "" "" ""
       (Some [mkEntry "code" "Data Type Validation" (config_data_type "strng")])
     = Ok ([], _log_rule [] "Validity" "code" ("Data Type (" +:+ "strng" +:+ ")")
                 (n_rows (mkDF ["code"] [[VStr "abc"]; [VStr "x-1"]])) 0).
Proof.
  apply (malformed_parameter_always_passes (table_engine sample_patterns)
           no_parse_pandas [] (mkDF ["code"] [[VStr "abc"]; [VStr "x-1"]])
           "code" "(" "strng" [] [] ∅ 0 100 "" "" "").
  - reflexivity.
  - reflexivity.
  - reflexivity.
  - unfold known_data_types. intros H. repeat (apply elem_of_cons in H as [H | H]; [discriminate |]). apply elem_of_nil in H. exact H.
Defined.

(** C8, as stated, fails on its last clause.  A Custom Regex rule with the
    uncompilable pattern "(" on a two-row column returns an empty annexure
    and logs a Pass entry: that is everything the caller receives, the same
    as for a pattern every row matches, and it holds no warning. *)
Lemma malformed_parameter_counterexample :
  re_compile (table_engine sample_patterns) "(" = None
  /\ execute_validity_rules (table_engine sample_patterns) no_parse_pandas []
       (mkDF ["code"] [[VStr "abc"]; [VStr "x-1"]]) [] [] ∅ 0 100 "" "" ""
       (Some [mkEntry "code" "Custom Regex" (config_regex "(")])
     = Ok ([] : list IssueRecord,
           [ {| Dimension  := "Validity";
                Column     := "code";
                Rule       := "Regex: (";
                Evaluated  := 2;
                Failed     := 0;
                Passed     := 2;
                Score_pct  := Some 100%Q;
                Severity   := "Pass";
                Issue_Type := "Invalid Format" |} ]).
Proof. split; vm_compute; reflexivity. Qed.

(* ===================================================================== *)
(** * Properties: standardization *)
(* ===================================================================== *)

Lemma differs_lookup (original cleaned : list string) (i : nat) (o c : string) :
  original !! i = Some o -> cleaned !! i = Some c ->
  differs original cleaned !! i = Some (negb (String.eqb o c)).
Proof.
  intros Ho Hc. unfold differs. rewrite lookup_zip_with, Ho, Hc. reflexivity.
Qed.

Lemma count_rows_fmap (f : nat -> IssueRecord) (l : list nat) (i : nat) :
  (forall idx, Row_Number (f idx) = Z.of_nat idx + 2) ->
  length (filter (fun r => Row_Number r = Z.of_nat i + 2) (f <$> l))
  = length (filter (fun j => j = i) l).
Proof.
  intros Hf. induction l as [| x l IH]; [reflexivity |].
  rewrite fmap_cons, !filter_cons.
  destruct (decide (x = i)) as [-> | Hne].
  - destruct (decide (Row_Number (f i) = Z.of_nat i + 2)) as [_ | Hn];
      [cbn; f_equal; exact IH | exfalso; apply Hn, Hf].
  - destruct (decide (Row_Number (f x) = Z.of_nat i + 2)) as [He | _];
      [| exact IH].
    rewrite Hf in He. lia.
Qed.

Lemma count_true_labels (m : list bool) : count_true m = llen (index_where m).
Proof.
  unfold count_true, llen. f_equal.
  induction m as [| b m IH]; [reflexivity |].
  rewrite index_where_cons, filter_cons, length_app, length_fmap, <- IH.
  destruct b; cbn.
  - destruct (decide (true = true)); [reflexivity | congruence].
  - destruct (decide (false = true)); [discriminate | reflexivity].
Qed.

(** The rows [record_changes] appends, and the count it logs. *)
Lemma record_changes_added (st : StdState) (n : Z) (col label : string)
    (old : list cell) (tr : Transformed) (expected : nat -> string) :
  exists added,
    std_annexure (record_changes st n col label old tr expected)
      = std_annexure st ++ added
    /\ std_log (record_changes st n col label old tr expected)
       = _log_rule (std_log st) "Standardization" col label n (llen added)
    /\ forall i,
         length (filter (fun r => Row_Number r = Z.of_nat i + 2) added)
         = if decide (tr.2 !! i = Some true) then 1%nat else 0%nat.
Proof.
  destruct tr as [new_vals changed]. unfold record_changes. cbn.
  eexists. split; [reflexivity |]. split.
  - rewrite count_true_labels. unfold llen, changed_labels.
    rewrite length_fmap. reflexivity.
  - intros i. rewrite count_rows_fmap by (intros idx; reflexivity).
    unfold changed_labels. apply count_index_where.
Qed.

Lemma std_by_flags (clean : string -> string) (old : list cell)
    (added : list IssueRecord) :
  (forall i, length (filter (fun r => Row_Number r = Z.of_nat i + 2) added)
             = if decide ((std_by clean old).2 !! i = Some true)
               then 1%nat else 0%nat) ->
  flags_exactly_changes old (std_by clean old) added.
Proof.
  intros Hcount i c Hc.
  exists (clean (astype_str c)),
         (negb (String.eqb (astype_str c) (clean (astype_str c)))).
  assert (H1 : (std_by clean old).1 !! i = Some (clean (astype_str c))).
  { cbn. rewrite !list_lookup_fmap, Hc. reflexivity. }
  assert (H2 : (std_by clean old).2 !! i
               = Some (negb (String.eqb (astype_str c) (clean (astype_str c))))).
  { cbn. apply differs_lookup; rewrite !list_lookup_fmap, Hc; reflexivity. }
  split; [exact H1 |]. split; [exact H2 |]. split.
  - rewrite negb_true_iff, String.eqb_neq. split; intros H; congruence.
  - rewrite Hcount, H2.
    destruct (negb _); [destruct (decide _); congruence
                       | destruct (decide _); [discriminate | reflexivity]].
Qed.

Lemma inline_rule_is_std_by (rule_name : string) (func : list cell -> Transformed) :
  lookup_rule rule_name inline_rules = Some func ->
  exists clean, func = std_by clean.
Proof.
  unfold inline_rules. cbn [lookup_rule].
  repeat (destruct (String.eqb rule_name _);
          [intros [= <-]; eexists; reflexivity |]).
  discriminate.
Qed.

(** C9 (amended).  For the six inline transforms (Trim Spaces, Remove
    Extra Spaces, Proper Case, Lowercase, Uppercase, Remove Special
    Characters) and for Normalize Date, one application of the rule to a
    column flags a cell exactly when its cleaned value differs from the
    original one, adds one IssueRecord for each flagged cell and none for
    the others, and logs the number of records added as the failed count.
    Replace Null with Default instead flags a cell exactly when its
    stripped text is empty, "nan" or "none" (any case) or the cell is
    NaN, whatever the cleaned value. *)
Theorem standardization_flags_changed_cells
    (P : Pandas) (n : Z) (st : StdState) (col : string) (old : list cell) :
  series (std_cleaned st) col = Ok old ->
  (forall rule_name func,
     lookup_rule rule_name inline_rules = Some func ->
     exists st' added,
       _apply_inline n st col rule_name func = Ok st'
       /\ std_annexure st' = std_annexure st ++ added
       /\ std_log st' = _log_rule (std_log st) "Standardization" col rule_name n
                          (llen added)
       /\ flags_exactly_changes old (func old) added)
  /\ (forall fmt tr,
        std_normalize_date P old fmt = Ok tr ->
        exists st' added,
          _apply_norm_date P n st col fmt = Ok st'
          /\ std_annexure st' = std_annexure st ++ added
          /\ std_log st' = _log_rule (std_log st) "Standardization" col
                             ("Normalize Date (" +:+ fmt +:+ ")") n (llen added)
          /\ flags_exactly_changes old tr added)
  /\ (forall default,
        exists st' added,
          _apply_null_default n st col default = Ok st'
          /\ std_annexure st' = std_annexure st ++ added
          /\ forall i c, old !! i = Some c ->
               length (filter (fun r => Row_Number r = Z.of_nat i + 2) added)
               = if decide (Text.strip (astype_str c) = ""
                            \/ Text.lower (Text.strip (astype_str c)) = "nan"
                            \/ Text.lower (Text.strip (astype_str c)) = "none"
                            \/ isna c = true)
                 then 1%nat else 0%nat).
Proof.
  intros Hs. repeat apply conj.
  - intros rule_name func Hfunc.
    destruct (inline_rule_is_std_by _ _ Hfunc) as [clean ->].
    unfold _apply_inline. rewrite Hs. cbn [bind].
    destruct (record_changes_added st n col rule_name old (std_by clean old)
                (fun idx => nth idx (std_by clean old).1 ""))
      as (added & Ha & Hl & Hcount).
    eexists. exists added. split; [reflexivity |].
    split; [exact Ha |]. split; [exact Hl |].
    apply std_by_flags. exact Hcount.
  - intros fmt tr Htr.
    unfold _apply_norm_date. rewrite Hs. cbn [bind]. rewrite Htr. cbn [bind].
    destruct (record_changes_added st n col ("Normalize Date (" +:+ fmt +:+ ")")
                old tr (fun idx => nth idx tr.1 ""))
      as (added & Ha & Hl & Hcount).
    eexists. exists added. split; [reflexivity |].
    split; [exact Ha |]. split; [exact Hl |].
    unfold std_normalize_date in Htr.
    destruct (to_datetime P None true _) as [parse |]; cbn in Htr; [| discriminate].
    injection Htr as <-.
    intros i c Hc.
    set (o := astype_str c).
    set (v := match parse (Text.strip o) with
              | Some t => strftime P t fmt
              | None => o
              end).
    exists v, (negb (String.eqb o v)).
    assert (H1 : ((fun o0 : string =>
                     match parse (Text.strip o0) with
                     | Some t => strftime P t fmt
                     | None => o0
                     end) <$> (astype_str <$> old)) !! i = Some v).
    { rewrite !list_lookup_fmap, Hc. reflexivity. }
    assert (H2 : differs (astype_str <$> old)
                   ((fun o0 : string =>
                       match parse (Text.strip o0) with
                       | Some t => strftime P t fmt
                       | None => o0
                       end) <$> (astype_str <$> old)) !! i
                 = Some (negb (String.eqb o v))).
    { apply differs_lookup; [rewrite list_lookup_fmap, Hc; reflexivity | exact H1]. }
    split; [exact H1 |]. split; [exact H2 |]. split.
    + rewrite negb_true_iff, String.eqb_neq. split; intros H; congruence.
    + rewrite Hcount. cbn [snd]. rewrite H2.
      destruct (negb _); [destruct (decide _); congruence
                         | destruct (decide _); [discriminate | reflexivity]].
  - intros default.
    unfold _apply_null_default. rewrite Hs. cbn [bind].
    destruct (record_changes_added st n col ("Replace Null → " +:+ default) old
                (std_replace_null_default old default) (fun _ => default))
      as (added & Ha & _ & Hcount).
    eexists. exists added. split; [reflexivity |]. split; [exact Ha |].
    intros i c Hc. rewrite Hcount. cbn [std_replace_null_default snd].
    rewrite list_lookup_fmap, Hc. cbn [fmap option_fmap option_map].
    destruct (decide (Text.strip (astype_str c) = ""
                      \/ Text.lower (Text.strip (astype_str c)) = "nan"
                      \/ Text.lower (Text.strip (astype_str c)) = "none"
                      \/ isna c = true)) as [Hd | Hd].
    + destruct (decide _) as [_ | Hn]; [reflexivity |].
      exfalso. apply Hn. f_equal.
      rewrite !orb_true_iff, !String.eqb_eq. tauto.
    + destruct (decide _) as [He | _]; [| reflexivity].
      exfalso. apply Hd. injection He as He.
      rewrite !orb_true_iff, !String.eqb_eq in He. tauto.
Qed.

Lemma standardization_flags_changed_cells_witness :
  series (mkDF ["name"] [[VStr "  abc  "]; [VStr "Bob"]]) "name"
    = Ok [VStr "  abc  "; VStr "Bob"]
  /\ exists st' added,
       _apply_inline 2
         {| std_cleaned := mkDF ["name"] [[VStr "  abc  "]; [VStr "Bob"]];
            std_annexure := []; std_log := [] |}
         "name" "Trim Spaces" std_trim_spaces = Ok st'
       /\ std_annexure st' = [] ++ added
       /\ std_log st' = _log_rule [] "Standardization" "name" "Trim Spaces" 2
                          (llen added)
       /\ flags_exactly_changes [VStr "  abc  "; VStr "Bob"]
            (std_trim_spaces [VStr "  abc  "; VStr "Bob"]) added.
Proof.
  split; [reflexivity |].
  destruct (standardization_flags_changed_cells no_parse_pandas 2
              {| std_cleaned := mkDF ["name"] [[VStr "  abc  "]; [VStr "Bob"]];
                 std_annexure := []; std_log := [] |}
              "name" [VStr "  abc  "; VStr "Bob"] eq_refl) as (H & _).
  apply (H "Trim Spaces" std_trim_spaces). reflexivity.
Defined.

(** C9, as stated, fails for Replace Null with Default.  On the column
    "  abc  ", "nan" with default "N/A" the first cell is cleaned to "abc",
    which differs from the original, yet its changed flag is false and the
    only IssueRecord is the one of the second row. *)
Lemma standardization_counterexample :
  std_replace_null_default [VStr "  abc  "; VStr "nan"] "N/A"
    = (["abc"; "N/A"], [false; true])
  /\ _apply_null_default 2
       {| std_cleaned := mkDF ["name"] [[VStr "  abc  "]; [VStr "nan"]];
          std_annexure := []; std_log := [] |}
       "name" "N/A"
     = Ok {| std_cleaned := mkDF ["name"] [[VStr "abc"]; [VStr "N/A"]];
             std_annexure :=
               [ _annex_row 1 "name" "Replace Null → N/A" "Non-Standard Values"
                   "nan" "N/A" "Standardization" ];
             std_log := _log_rule [] "Standardization" "name"
                          "Replace Null → N/A" 2 1 |}.
Proof. split; vm_compute; reflexivity. Qed.

(* ===================================================================== *)
(** * Properties: hybrid cell similarity *)
(* ===================================================================== *)

Lemma truthy_false (s : string) : Text.truthy s = false <-> s = "".
Proof. destruct s; cbn; split; congruence. Qed.





(** With rapidfuzz the same inputs reach the ensemble, whose value is
    below 100 as soon as one scorer is, and above 0 as soon as one is. *)
Lemma ensemble_between (rf : RapidFuzz) (a b : string) :
  (0 <= fuzz_ratio rf a b <= 100)%Q ->
  (0 <= fuzz_partial_ratio rf a b <= 100)%Q ->
  (0 <= fuzz_token_sort_ratio rf a b <= 100)%Q ->
  (0 <= fuzz_token_set_ratio rf a b <= 100)%Q ->
  ((fuzz_ratio rf a b < 100 -> ensemble rf a b < 100)
   /\ (0 < fuzz_ratio rf a b -> 0 < ensemble rf a b))%Q.
Proof.
  intros H1 H2 H3 H4. unfold ensemble, sum_Q, _SCORER_WEIGHTS. cbn.
  split; intros H; lra.
Qed.

(* ===================================================================== *)
(** * Properties: grouping *)
(* ===================================================================== *)

Section GroupBy.
Context {K A : Type} `{EqDecision K}.

Lemma assoc_elem (d : list (K * list A)) (k : K) (xs : list A) :
  assoc d k = Some xs -> (k, xs) ∈ d.
Proof.
  induction d as [| [k' ys] d IH]; cbn; [discriminate |].
  destruct (decide (k = k')) as [-> | Hne].
  - intros [= ->]. apply list_elem_of_here.
  - intros H. apply list_elem_of_further, IH, H.
Qed.

Lemma assoc_None (d : list (K * list A)) (k : K) :
  assoc d k = None <-> k ∉ d.*1.
Proof.
  induction d as [| [k' ys] d IH]; cbn.
  - split; [intros _; apply not_elem_of_nil | reflexivity].
  - destruct (decide (k = k')) as [-> | Hne].
    + split; [discriminate | intros Hn; exfalso; apply Hn, list_elem_of_here].
    + rewrite IH, not_elem_of_cons. tauto.
Qed.

Lemma elem_assoc (d : list (K * list A)) (k : K) (xs : list A) :
  NoDup d.*1 -> (k, xs) ∈ d -> assoc d k = Some xs.
Proof.
  induction d as [| [k' ys] d IH]; cbn; intros Hnd Hin.
  - apply elem_of_nil in Hin. contradiction.
  - apply NoDup_cons in Hnd as [Hk Hnd].
    apply elem_of_cons in Hin as [[= -> ->] | Hin].
    + destruct (decide (k' = k')); [reflexivity | congruence].
    + destruct (decide (k = k')) as [-> | Hne]; [| apply IH; assumption].
      exfalso. apply Hk. apply list_elem_of_fmap. exists (k', xs). split; [reflexivity | exact Hin].
Qed.

Lemma group_append_keys (k : K) (x : A) (d : list (K * list A)) :
  (group_append k x d).*1 = if decide (k ∈ d.*1) then d.*1 else d.*1 ++ [k].
Proof.
  induction d as [| [k' ys] d IH]; cbn.
  - destruct (decide (k ∈ [])) as [H0 | _]; [apply elem_of_nil in H0; contradiction | reflexivity].
  - destruct (decide (k = k')) as [-> | Hne]; cbn.
    + destruct (decide (k' ∈ k' :: d.*1)) as [_ | Hn]; [reflexivity |].
      exfalso. apply Hn, list_elem_of_here.
    + rewrite IH.
      destruct (decide (k ∈ d.*1)) as [Hi | Hi].
      * destruct (decide (k ∈ k' :: d.*1)) as [_ | Hn]; [reflexivity |].
        exfalso. apply Hn, list_elem_of_further, Hi.
      * destruct (decide (k ∈ k' :: d.*1)) as [Hi' | _]; [| reflexivity].
        apply elem_of_cons in Hi' as [-> | Hi']; [congruence | contradiction].
Qed.

Lemma group_append_NoDup (k : K) (x : A) (d : list (K * list A)) :
  NoDup d.*1 -> NoDup (group_append k x d).*1.
Proof.
  intros Hnd. rewrite group_append_keys.
  destruct (decide (k ∈ d.*1)) as [Hi | Hi]; [exact Hnd |].
  apply NoDup_app. split; [exact Hnd |]. split.
  - intros y Hy Hy'. apply list_elem_of_singleton in Hy'. subst y. contradiction.
  - apply NoDup_singleton.
Qed.

Lemma group_append_assoc (k : K) (x : A) (d : list (K * list A)) (k' : K) :
  assoc (group_append k x d) k'
  = if decide (k' = k) then Some (default [] (assoc d k) ++ [x]) else assoc d k'.
Proof.
  induction d as [| [k0 ys] d IH]; cbn.
  - destruct (decide (k' = k)); reflexivity.
  - destruct (decide (k = k0)) as [-> | Hne]; cbn.
    + destruct (decide (k' = k0)) as [-> | Hne'].
      * destruct (decide (k0 = k0)); [reflexivity | congruence].
      * reflexivity.
    + destruct (decide (k' = k0)) as [-> | Hne'].
      * destruct (decide (k0 = k)); [congruence | reflexivity].
      * rewrite IH. destruct (decide (k' = k)); [| reflexivity].
        subst k'. reflexivity.
Qed.

Context (key : A -> K).

Lemma group_by_key_snoc (l : list A) (x : A) :
  group_by_key key (l ++ [x]) = group_append (key x) x (group_by_key key l).
Proof. unfold group_by_key. rewrite foldl_app. reflexivity. Qed.

(** The dict built by [group_by_key] binds each key to the elements with
    that key, in list order, and binds no key without elements. *)
Lemma group_by_key_spec (l : list A) :
  NoDup (group_by_key key l).*1
  /\ forall k, assoc (group_by_key key l) k
               = nonempty (filter (fun x => key x = k) l).
Proof.
  induction l as [| x l IH] using rev_ind.
  - split; [constructor | reflexivity].
  - destruct IH as [Hnd Ha]. rewrite group_by_key_snoc. split.
    + apply group_append_NoDup, Hnd.
    + intros k. rewrite group_append_assoc, filter_app, filter_cons, filter_nil.
      destruct (decide (k = key x)) as [-> | Hne].
      * rewrite Ha. destruct (decide (key x = key x)); [| congruence].
        destruct (filter (fun x0 => key x0 = key x) l); reflexivity.
      * rewrite Ha. destruct (decide (key x = k)); [congruence |].
        rewrite app_nil_r. reflexivity.
Qed.

Lemma group_by_key_elem (l : list A) (k : K) (xs : list A) :
  (k, xs) ∈ group_by_key key l ->
  xs = filter (fun x => key x = k) l /\ xs <> [].
Proof.
  intros Hin. destruct (group_by_key_spec l) as [Hnd Ha].
  apply (elem_assoc _ _ _ Hnd) in Hin. rewrite Ha in Hin.
  destruct (filter (fun x => key x = k) l) eqn:E; cbn in Hin; [discriminate |].
  injection Hin as <-. split; [reflexivity | discriminate].
Qed.

Lemma group_by_key_covers (l : list A) (x : A) :
  x ∈ l ->
  (key x, filter (fun y => key y = key x) l) ∈ group_by_key key l.
Proof.
  intros Hx. destruct (group_by_key_spec l) as [_ Ha].
  apply assoc_elem. rewrite Ha.
  destruct (filter (fun y => key y = key x) l) eqn:E; [| reflexivity].
  assert (Hin : x ∈ filter (fun y => key y = key x) l).
  { apply list_elem_of_filter. split; [reflexivity | exact Hx]. }
  rewrite E in Hin. apply elem_of_nil in Hin. contradiction.
Qed.

End GroupBy.

(* ===================================================================== *)
(** * Properties: exact duplicate detection *)
(* ===================================================================== *)

Lemma exact_groups_label (df : DataFrame) (type : string)
    (keyed : list (nat * string)) (r : DupRow) :
  r ∈ exact_groups df type keyed ->
  exists key, (dr_label r, key) ∈ keyed.
Proof.
  unfold exact_groups. intros H.
  apply list_elem_of_fmap in H as ([l k] & -> & H).
  apply list_elem_of_filter in H as [_ H]. exists k. exact H.
Qed.

Lemma series_lookup (df : DataFrame) (col : string) (column : list cell)
    (i : nat) (row : list cell) :
  series df col = Ok column -> df_rows df !! i = Some row ->
  column !! i = Some (row_get (df_columns df) row col (VStr "")).
Proof.
  unfold series, row_get. destruct (index_of col (df_columns df)) as [k |];
    [| discriminate].
  intros [= <-] Hrow. rewrite list_lookup_fmap, Hrow. reflexivity.
Qed.

Lemma single_excludes_absent (df : DataFrame) (col : string) (out : list DupRow)
    (i : nat) (row : list cell) :
  df_rows df !! i = Some row ->
  all_monitored_absent df [col] row ->
  detect_exact_duplicates_single df col = Ok out ->
  i ∉ dr_label <$> out.
Proof.
  intros Hrow Habs Hd Hin.
  unfold detect_exact_duplicates_single in Hd.
  destruct (series df col) as [column | e] eqn:Hs; cbn in Hd; [| discriminate].
  injection Hd as <-.
  apply list_elem_of_fmap in Hin as (r & -> & Hr).
  apply exact_groups_label in Hr as (key & Hr).
  apply list_elem_of_filter in Hr as [Hnn Hr]. cbn in Hnn.
  apply elem_of_labelled in Hr.
  rewrite list_lookup_fmap, (series_lookup _ _ _ _ _ Hs Hrow) in Hr.
  injection Hr as <-.
  specialize (Habs col (list_elem_of_here _ _)).
  unfold is_absent in Habs. congruence.
Qed.

Lemma column_indices_select (df_cols cols : list string) (idxs : list nat)
    (row : list cell) :
  column_indices df_cols cols = Ok idxs ->
  select_cells idxs row = (fun c => row_get df_cols row c (VStr "")) <$> cols.
Proof.
  revert idxs. induction cols as [| c cols IH]; intros idxs; cbn.
  - intros [= <-]. reflexivity.
  - unfold row_get at 1. destruct (index_of c df_cols) as [k |]; cbn; [| discriminate].
    destruct (column_indices df_cols cols) as [rest | e]; cbn; [| discriminate].
    intros [= <-]. unfold select_cells. cbn. f_equal. apply (IH rest eq_refl).
Qed.

Lemma combination_excludes_absent (df : DataFrame) (cols : list string)
    (out : list DupRow) (i : nat) (row : list cell) :
  df_rows df !! i = Some row ->
  all_monitored_absent df cols row ->
  detect_exact_duplicates_combination df cols = Ok out ->
  i ∉ dr_label <$> out.
Proof.
  intros Hrow Habs Hd Hin.
  unfold detect_exact_duplicates_combination, project in Hd.
  destruct (column_indices (df_columns df) cols) as [idxs | e] eqn:Hi;
    cbn in Hd; [| discriminate].
  injection Hd as <-.
  apply list_elem_of_fmap in Hin as (r & -> & Hr).
  apply exact_groups_label in Hr as (key & Hr).
  apply list_elem_of_fmap in Hr as ([l vals] & [= Hl _] & Hr). cbn in Hl. subst l.
  apply list_elem_of_filter in Hr as [Hnn Hr]. cbn in Hnn.
  apply elem_of_labelled in Hr.
  rewrite !list_lookup_fmap, Hrow in Hr. cbn in Hr. injection Hr as <-.
  rewrite (column_indices_select _ _ _ _ Hi) in Hnn.
  assert (Hall : forallb is_null_sentinel
                   (normalize <$> ((fun c => row_get (df_columns df) row c (VStr ""))
                                   <$> cols)) = true).
  { apply forallb_forall. intros v Hv. apply list_elem_of_In in Hv.
    apply list_elem_of_fmap in Hv as (cl & -> & Hc).
    apply list_elem_of_fmap in Hc as (c & -> & Hc).
    apply (Habs c Hc). }
  congruence.
Qed.

(* ===================================================================== *)
(** * Properties: the fuzzy comparison loop *)
(* ===================================================================== *)

Lemma labelled_fst {A} (l : list A) : (labelled l).*1 = seq 0 (length l).
Proof.
  apply list_eq. intros i. rewrite list_lookup_fmap, labelled_lookup.
  destruct (l !! i) as [x |] eqn:E; cbn.
  - symmetry. apply lookup_seq. split; [reflexivity |].
    apply lookup_lt_Some in E. exact E.
  - symmetry. apply lookup_ge_None. rewrite length_seq.
    apply lookup_ge_None in E. exact E.
Qed.

Lemma labelled_snd {A} (l : list A) : (labelled l).*2 = l.
Proof.
  apply list_eq. intros i. rewrite list_lookup_fmap, labelled_lookup.
  destruct (l !! i); reflexivity.
Qed.

Lemma NoDup_labelled_fst {A} (l : list A) : NoDup (labelled l).*1.
Proof. rewrite labelled_fst. apply NoDup_seq. Qed.

Lemma NoDup_fmap_filter {A B} (f : A -> B) (P : A -> Prop)
    `{forall x, Decision (P x)} (l : list A) :
  NoDup (f <$> l) -> NoDup (f <$> filter P l).
Proof.
  intros Hnd. eapply sublist_NoDup; [exact Hnd | apply fmap_sublist, sublist_filter].
Qed.

Lemma upper_pairs_elem {A} (l : list A) (x y : A) :
  (x, y) ∈ upper_pairs l -> x ∈ l /\ y ∈ l.
Proof.
  induction l as [| z l IH]; cbn; intros H.
  - apply elem_of_nil in H. contradiction.
  - apply elem_of_app in H as [H | H].
    + apply list_elem_of_fmap in H as (w & [= -> ->] & Hw).
      split; [apply list_elem_of_here | apply list_elem_of_further, Hw].
    + destruct (IH H) as [Hx Hy].
      split; apply list_elem_of_further; assumption.
Qed.

Lemma upper_pairs_distinct {A B} (f : A -> B) (l : list A) (x y : A) :
  NoDup (f <$> l) -> (x, y) ∈ upper_pairs l -> f x <> f y.
Proof.
  induction l as [| z l IH]; cbn; intros Hnd H.
  - apply elem_of_nil in H. contradiction.
  - apply NoDup_cons in Hnd as [Hz Hnd].
    apply elem_of_app in H as [H | H].
    + apply list_elem_of_fmap in H as (w & [= -> ->] & Hw).
      intros He. apply Hz. rewrite He. apply list_elem_of_fmap_2, Hw.
    + apply IH; assumption.
Qed.

Lemma upper_pairs_fmap {A B} (f : A -> B) (l : list A) :
  upper_pairs (f <$> l) = (fun p => (f p.1, f p.2)) <$> upper_pairs l.
Proof.
  induction l as [| z l IH]; [reflexivity |].
  cbn. rewrite fmap_app, IH, <- !list_fmap_compose. reflexivity.
Qed.

Lemma accept_elem (threshold : Z) (i j : nat) (score : Q) (m : Match) :
  m ∈ accept threshold i j score ->
  m = mkMatch i j score /\ (inject_Z threshold <= score)%Q.
Proof.
  unfold accept. destruct (Qle_bool (inject_Z threshold) score) eqn:E.
  - intros H. apply list_elem_of_singleton in H. subst m.
    split; [reflexivity | apply Qle_bool_iff, E].
  - intros H. apply elem_of_nil in H. contradiction.
Qed.

Lemma scalar_block_pairs (env : FuzzEnv) (df_cols : list string)
    (block : list WorkRow) (cols : list string) (weights : list Q)
    (threshold : Z) (m : Match) :
  m ∈ scalar_block env df_cols block cols weights threshold ->
  pair_of block threshold m.
Proof.
  unfold scalar_block. intros H.
  apply list_elem_of_join in H as (ms & Hm & Hms).
  apply list_elem_of_fmap in Hms as ([r1 r2] & -> & Hp).
  apply accept_elem in Hm as [-> Hthr].
  exists r1, r2. repeat split; [exact Hp | exact Hthr].
Qed.

Lemma matrix_block_pairs (score_matrix : matrix) (block : list WorkRow)
    (threshold : Z) (m : Match) :
  m ∈ matrix_block score_matrix block threshold ->
  pair_of block threshold m.
Proof.
  unfold matrix_block. intros H.
  apply list_elem_of_join in H as (ms & Hm & Hms).
  apply list_elem_of_fmap in Hms as ([[p1 r1] [p2 r2]] & -> & Hp).
  apply accept_elem in Hm as [-> Hthr].
  exists r1, r2. repeat split; [| exact Hthr].
  rewrite <- (labelled_snd block) at 1. rewrite upper_pairs_fmap.
  apply list_elem_of_fmap. exists ((p1, r1), (p2, r2)). split; [reflexivity | exact Hp].
Qed.

Lemma for_each_app {A S} (step : S -> A -> result S) (st : S) (xs ys : list A) :
  for_each step st (xs ++ ys)
  = (st' <- for_each step st xs ;; for_each step st' ys).
Proof.
  revert st. induction xs as [| x xs IH]; intros st; cbn; [reflexivity |].
  destruct (step st x); cbn; [apply IH | reflexivity].
Qed.


(** One iteration of the loop: what it appends and what it counts. *)
Lemma compare_block_step (env : FuzzEnv) (df_cols cols : list string)
    (weights : list Q) (threshold cap : Z) (st st' : LoopState)
    (group : string * list WorkRow) :
  compare_block env df_cols cols weights threshold cap st group = Ok st' ->
  exists new,
    matches st' = matches st ++ new
    /\ (forall m, m ∈ new -> pair_of group.2 threshold m)
    /\ (oversized cap group.2 = true -> new = [])
    /\ skipped_blocks st'
       = (skipped_blocks st + if oversized cap group.2 then 1 else 0)%nat.
Proof.
  unfold compare_block, oversized. destruct group as [k block]. cbn [snd].
  set (n := llen block).
  destruct (n <? 2) eqn:En.
  - intros [= <-]. exists []. rewrite app_nil_r.
    assert (H2 : (2 <=? n) = false) by (apply Z.leb_gt; apply Z.ltb_lt in En; lia).
    rewrite H2. cbn [andb].
    split; [reflexivity |].
    split; [intros m Hm; apply elem_of_nil in Hm; contradiction |].
    split; [discriminate | lia].
  - assert (H2 : (2 <=? n) = true) by (apply Z.leb_le; apply Z.ltb_ge in En; lia).
    rewrite H2. cbn [andb].
    destruct (n * (n - 1) / 2 <=? cap) eqn:Ecap.
    + assert (Hlt : (cap <? n * (n - 1) / 2) = false)
        by (apply Z.ltb_ge; apply Z.leb_le in Ecap; lia).
      rewrite Hlt. rewrite andb_true_r.
      destruct (bool_decide (is_Some env)).
      * destruct (_rapidfuzz_cdist_block_scores env df_cols (w_cells <$> block)
                    cols weights) as [[m |] | e]; cbn [bind]; [| | discriminate].
        -- intros [= <-]. eexists. cbn [matches skipped_blocks].
           split; [reflexivity |].
           split; [intros m0 Hm0; eapply matrix_block_pairs, Hm0 |].
           split; [discriminate | lia].
        -- intros [= <-]. eexists. cbn [matches skipped_blocks].
           split; [reflexivity |].
           split; [intros m0 Hm0; eapply scalar_block_pairs, Hm0 |].
           split; [discriminate | lia].
      * intros [= <-]. eexists. cbn [matches skipped_blocks].
        split; [reflexivity |].
        split; [intros m0 Hm0; eapply scalar_block_pairs, Hm0 |].
        split; [discriminate | lia].
    + assert (Hlt : (cap <? n * (n - 1) / 2) = true)
        by (apply Z.ltb_lt; apply Z.leb_gt in Ecap; lia).
      rewrite Hlt, andb_false_r.
      intros [= <-]. exists []. rewrite app_nil_r. cbn [matches skipped_blocks].
      split; [reflexivity |].
      split; [intros m Hm; apply elem_of_nil in Hm; contradiction |].
      split; [reflexivity | lia].
Qed.


(** The whole loop: every match is a pair of some block that was not
    skipped, and the skipped counter counts the oversized blocks. *)
Lemma compare_loop (env : FuzzEnv) (df_cols cols : list string)
    (weights : list Q) (threshold cap : Z)
    (groups : list (string * list WorkRow)) (st st' : LoopState) :
  for_each (compare_block env df_cols cols weights threshold cap) st groups = Ok st' ->
  (forall m, m ∈ matches st' ->
     m ∈ matches st
     \/ exists g, g ∈ groups /\ oversized cap g.2 = false /\ pair_of g.2 threshold m)
  /\ skipped_blocks st'
     = (skipped_blocks st
        + length (filter (fun g => oversized cap g.2 = true) groups))%nat.
Proof.
  revert st. induction groups as [| g groups IH]; intros st; cbn [for_each].
  - intros [= <-]. split; [intros m Hm; left; exact Hm | rewrite filter_nil; cbn; lia].
  - destruct (compare_block env df_cols cols weights threshold cap st g)
      as [st1 | e] eqn:E1; cbn [bind]; [| discriminate].
    intros Hrest. destruct (IH st1 Hrest) as [IHm IHs].
    destruct (compare_block_step _ _ _ _ _ _ _ _ _ E1) as (new & Hnew & Hpairs & Hover & Hsk).
    split.
    + intros m Hm. destruct (IHm m Hm) as [H1 | (g' & Hg' & Hno & Hp)].
      * rewrite Hnew in H1. apply elem_of_app in H1 as [H1 | H1]; [left; exact H1 |].
        right. exists g. split; [apply list_elem_of_here |].
        split; [| apply Hpairs, H1].
        destruct (oversized cap g.2) eqn:Eo; [| reflexivity].
        rewrite (Hover eq_refl) in H1. apply elem_of_nil in H1. contradiction.
      * right. exists g'. split; [apply list_elem_of_further, Hg' |]. split; assumption.
    + rewrite IHs, Hsk, filter_cons.
      destruct (oversized cap g.2); destruct (decide _); cbn; try congruence; lia.
Qed.


(* ===================================================================== *)
(** * Properties: union-find *)
(* ===================================================================== *)

Lemma uf_inv_empty : uf_inv ∅ id (fun _ => O) 1.
Proof.
  constructor; intros; try (rewrite lookup_empty in *; try discriminate).
  - lia.
  - destruct H as [? H]. discriminate.
  - split; reflexivity.
Qed.

Lemma uf_inv_weaken (parent : gmap nat nat) (rep d : nat -> nat) (n m : nat) :
  uf_inv parent rep d n -> (n <= m)%nat -> uf_inv parent rep d m.
Proof.
  intros [] Hle. constructor; try assumption.
  intros x. specialize (inv_bound0 x). lia.
Qed.

Lemma setdefault_inv (parent : gmap nat nat) (rep d : nat -> nat) (n x : nat) :
  uf_inv parent rep d n ->
  uf_inv (UnionFind.setdefault parent x) rep d n
  /\ is_Some (UnionFind.setdefault parent x !! x)
  /\ forall y, is_Some (parent !! y) -> is_Some (UnionFind.setdefault parent x !! y).
Proof.
  intros Hinv. unfold UnionFind.setdefault.
  destruct (parent !! x) as [p |] eqn:Ex.
  - split; [exact Hinv |]. split; [rewrite Ex; eauto | auto].
  - destruct (inv_out _ _ _ _ Hinv x Ex) as [Hrx Hdx].
    split; [| split].
    + constructor.
      * intros y p. destruct (decide (y = x)) as [-> | Hne].
        -- rewrite lookup_insert_eq. intros [= <-]. reflexivity.
        -- rewrite lookup_insert_ne by congruence. apply (inv_rep _ _ _ _ Hinv).
      * intros y. destruct (decide (y = x)) as [-> | Hne].
        -- intros _. split; assumption.
        -- rewrite lookup_insert_ne by congruence. apply (inv_root _ _ _ _ Hinv).
      * intros y p. destruct (decide (y = x)) as [-> | Hne].
        -- rewrite lookup_insert_eq. intros [= <-] Hp. congruence.
        -- rewrite lookup_insert_ne by congruence. apply (inv_rank _ _ _ _ Hinv).
      * apply (inv_bound _ _ _ _ Hinv).
      * intros y Hy. destruct (decide (y = x)) as [-> | Hne].
        -- rewrite Hrx. apply lookup_insert_eq.
        -- rewrite lookup_insert_ne in Hy by congruence.
           pose proof (inv_rep_root _ _ _ _ Hinv y Hy) as Hr.
           rewrite lookup_insert_ne; [exact Hr |].
           intros He. rewrite <- He in Hr. congruence.
      * intros y Hy. destruct (decide (y = x)) as [-> | Hne].
        -- rewrite lookup_insert_eq in Hy. discriminate.
        -- rewrite lookup_insert_ne in Hy by congruence.
           apply (inv_out _ _ _ _ Hinv y Hy).
    + rewrite lookup_insert_eq. eauto.
    + intros y Hy. destruct (decide (x = y)) as [-> | Hne].
      * rewrite lookup_insert_eq. eauto.
      * rewrite lookup_insert_ne by exact Hne. exact Hy.
Qed.

(** [_find] returns the root of its argument, keeps the forest (with the
    same roots) and does not run out of budget when given more fuel than
    the depth of the node. *)
Lemma find_spec (rep d : nat -> nat) (n fuel : nat) :
  forall (parent : gmap nat nat) (x : nat),
  uf_inv parent rep d n -> (d x < fuel)%nat ->
  exists parent',
    UnionFind._find fuel parent x = Some (parent', rep x)
    /\ uf_inv parent' rep d n
    /\ is_Some (parent' !! x)
    /\ forall y, is_Some (parent !! y) -> is_Some (parent' !! y).
Proof.
  induction fuel as [| fuel IH]; intros parent x Hinv Hfuel; [lia |].
  cbn [UnionFind._find].
  destruct (setdefault_inv parent rep d n x Hinv) as (Hinv1 & [px Hpx] & Hmono1).
  set (parent1 := UnionFind.setdefault parent x) in *.
  rewrite Hpx. change (default x (Some px)) with px.
  destruct (decide (px <> x)) as [Hne | Heq].
  - pose proof (inv_rank _ _ _ _ Hinv1 x px Hpx Hne) as Hrank.
    pose proof (inv_rep _ _ _ _ Hinv1 x px Hpx) as Hrep.
    destruct (IH parent1 px Hinv1 ltac:(lia)) as (parent2 & Hfind & Hinv2 & Hpx2 & Hmono2).
    rewrite Hfind, Hrep.
    assert (Hx2 : is_Some (parent2 !! x)) by (apply Hmono2; rewrite Hpx; eauto).
    pose proof (inv_rep_root _ _ _ _ Hinv2 x Hx2) as Hroot.
    destruct (inv_root _ _ _ _ Hinv2 (rep x) Hroot) as [Hrr Hdr].
    assert (Hrx : rep x <> x) by (intros He; rewrite He in Hdr; lia).
    eexists. split; [reflexivity |]. split; [| split].
    + constructor.
      * intros y p. destruct (decide (y = x)) as [-> | Hny].
        -- rewrite lookup_insert_eq. intros [= <-]. exact Hrr.
        -- rewrite lookup_insert_ne by congruence. apply (inv_rep _ _ _ _ Hinv2).
      * intros y. destruct (decide (y = x)) as [-> | Hny].
        -- rewrite lookup_insert_eq. intros [= He]. congruence.
        -- rewrite lookup_insert_ne by congruence. apply (inv_root _ _ _ _ Hinv2).
      * intros y p. destruct (decide (y = x)) as [-> | Hny].
        -- rewrite lookup_insert_eq. intros [= <-] _. lia.
        -- rewrite lookup_insert_ne by congruence. apply (inv_rank _ _ _ _ Hinv2).
      * apply (inv_bound _ _ _ _ Hinv2).
      * intros y Hy.
        assert (Hy2 : is_Some (parent2 !! y)).
        { destruct (decide (y = x)) as [-> | Hny]; [exact Hx2 |].
          rewrite lookup_insert_ne in Hy by congruence. exact Hy. }
        pose proof (inv_rep_root _ _ _ _ Hinv2 y Hy2) as Hry.
        rewrite lookup_insert_ne; [exact Hry |].
        intros He. rewrite <- He in Hry.
        destruct (inv_root _ _ _ _ Hinv2 x Hry) as [_ Hd0]. lia.
      * intros y Hy. destruct (decide (y = x)) as [-> | Hny].
        -- rewrite lookup_insert_eq in Hy. discriminate.
        -- rewrite lookup_insert_ne in Hy by congruence.
           apply (inv_out _ _ _ _ Hinv2 y Hy).
    + rewrite lookup_insert_eq. eauto.
    + intros y Hy. destruct (decide (x = y)) as [-> | Hny].
      * rewrite lookup_insert_eq. eauto.
      * rewrite lookup_insert_ne by exact Hny. apply Hmono2, Hmono1, Hy.
  - assert (Hpx' : px = x) by (destruct (decide (px = x)); [assumption | contradiction]).
    subst px.
    destruct (inv_root _ _ _ _ Hinv1 x Hpx) as [Hrx _].
    exists parent1. rewrite Hrx. split; [reflexivity |].
    split; [exact Hinv1 |]. split; [rewrite Hpx; eauto | exact Hmono1].
Qed.

(** [_union] joins the trees of its arguments and keeps every earlier
    identification; the depth bound grows by at most one. *)
Lemma union_spec (parent : gmap nat nat) (rep d : nat -> nat) (n fuel x y : nat) :
  uf_inv parent rep d n -> (n <= fuel)%nat ->
  exists parent' rep' d',
    UnionFind._union fuel parent x y = Some parent'
    /\ uf_inv parent' rep' d' (S n)
    /\ rep' x = rep' y
    /\ (forall a b, rep a = rep b -> rep' a = rep' b)
    /\ is_Some (parent' !! x) /\ is_Some (parent' !! y)
    /\ forall z, is_Some (parent !! z) -> is_Some (parent' !! z).
Proof.
  intros Hinv Hfuel. unfold UnionFind._union.
  destruct (find_spec rep d n fuel parent x Hinv)
    as (parent1 & Hf1 & Hinv1 & Hx1 & Hmono1).
  { pose proof (inv_bound _ _ _ _ Hinv x). lia. }
  rewrite Hf1.
  destruct (find_spec rep d n fuel parent1 y Hinv1)
    as (parent2 & Hf2 & Hinv2 & Hy2 & Hmono2).
  { pose proof (inv_bound _ _ _ _ Hinv y). lia. }
  rewrite Hf2.
  assert (Hx2 : is_Some (parent2 !! x)) by (apply Hmono2, Hx1).
  pose proof (inv_rep_root _ _ _ _ Hinv2 x Hx2) as Hrx.
  pose proof (inv_rep_root _ _ _ _ Hinv2 y Hy2) as Hry.
  set (rx := rep x) in *. set (ry := rep y) in *.
  destruct (decide (rx <> ry)) as [Hne | Heq].
  - exists (<[ry := rx]> parent2),
           (fun z => if decide (rep z = ry) then rx else rep z),
           (fun z => if decide (rep z = ry) then S (d z) else d z).
    destruct (inv_root _ _ _ _ Hinv2 rx Hrx) as [Hrrx Hdrx].
    destruct (inv_root _ _ _ _ Hinv2 ry Hry) as [Hrry Hdry].
    split; [reflexivity |]. split; [| split; [| split; [| split; [| split]]]].
    + constructor.
      * intros z p. destruct (decide (z = ry)) as [-> | Hnz].
        -- rewrite lookup_insert_eq. intros [= <-].
           rewrite Hrrx, Hrry.
           destruct (decide (rx = ry)); [congruence |].
           destruct (decide (ry = ry)); [reflexivity | congruence].
        -- rewrite lookup_insert_ne by congruence. intros Hz.
           rewrite (inv_rep _ _ _ _ Hinv2 z p Hz). reflexivity.
      * intros z. destruct (decide (z = ry)) as [-> | Hnz].
        -- rewrite lookup_insert_eq. intros [= He]. congruence.
        -- rewrite lookup_insert_ne by congruence. intros Hz.
           destruct (inv_root _ _ _ _ Hinv2 z Hz) as [Hrz Hdz].
           rewrite Hrz. destruct (decide (z = ry)); [congruence |].
           split; [reflexivity | assumption].
      * intros z p. destruct (decide (z = ry)) as [-> | Hnz].
        -- rewrite lookup_insert_eq. intros [= <-] _.
           rewrite Hrrx, Hrry.
           destruct (decide (rx = ry)); [congruence |].
           destruct (decide (ry = ry)); [lia | congruence].
        -- rewrite lookup_insert_ne by congruence. intros Hz Hp.
           rewrite (inv_rep _ _ _ _ Hinv2 z p Hz).
           pose proof (inv_rank _ _ _ _ Hinv2 z p Hz Hp).
           destruct (decide (rep z = ry)); lia.
      * intros z. pose proof (inv_bound _ _ _ _ Hinv2 z).
        destruct (decide (rep z = ry)); lia.
      * intros z Hz.
        assert (Hz2 : is_Some (parent2 !! z)).
        { destruct (decide (z = ry)) as [-> | Hnz]; [rewrite Hry; eauto |].
          rewrite lookup_insert_ne in Hz by congruence. exact Hz. }
        destruct (decide (rep z = ry)) as [He | Hn].
        -- rewrite lookup_insert_ne by congruence. exact Hrx.
        -- rewrite lookup_insert_ne by congruence.
           apply (inv_rep_root _ _ _ _ Hinv2 z Hz2).
      * intros z Hz. destruct (decide (z = ry)) as [-> | Hnz].
        -- rewrite lookup_insert_eq in Hz. discriminate.
        -- rewrite lookup_insert_ne in Hz by congruence.
           destruct (inv_out _ _ _ _ Hinv2 z Hz) as [Hrz Hdz].
           rewrite Hrz. destruct (decide (z = ry)); [congruence |].
           split; [reflexivity | assumption].
    + fold rx ry. destruct (decide (rx = ry)); [congruence |].
      destruct (decide (ry = ry)); [reflexivity | congruence].
    + intros a b Hab. rewrite Hab. reflexivity.
    + destruct (decide (ry = x)) as [-> | Hnx];
        [rewrite lookup_insert_eq; eauto | rewrite lookup_insert_ne by exact Hnx; exact Hx2].
    + destruct (decide (ry = y)) as [-> | Hny];
        [rewrite lookup_insert_eq; eauto | rewrite lookup_insert_ne by exact Hny; exact Hy2].
    + intros z Hz. destruct (decide (ry = z)) as [-> | Hnz];
        [rewrite lookup_insert_eq; eauto
        | rewrite lookup_insert_ne by exact Hnz; apply Hmono2, Hmono1, Hz].
  - assert (Hxy : rx = ry) by (destruct (decide (rx = ry)); [assumption | contradiction]).
    exists parent2, rep, d.
    split; [reflexivity |].
    split; [apply (uf_inv_weaken _ _ _ n); [exact Hinv2 | lia] |].
    split; [exact Hxy |]. split; [auto |].
    split; [exact Hx2 |]. split; [exact Hy2 |].
    intros z Hz. apply Hmono2, Hmono1, Hz.
Qed.

Lemma union_all_spec (pairs : list Match) :
  forall (parent : gmap nat nat) (rep d : nat -> nat) (n fuel : nat),
  uf_inv parent rep d n -> (n + length pairs <= fuel)%nat ->
  exists parent' rep' d',
    union_all fuel parent pairs = Some parent'
    /\ uf_inv parent' rep' d' (n + length pairs)
    /\ (forall m, m ∈ pairs -> rep' (_i m) = rep' (_j m))
    /\ (forall a b, rep a = rep b -> rep' a = rep' b).
Proof.
  induction pairs as [| m pairs IH]; intros parent rep d n fuel Hinv Hfuel.
  - exists parent, rep, d. cbn. split; [reflexivity |].
    split; [rewrite Nat.add_0_r; exact Hinv |].
    split; [intros m Hm; apply elem_of_nil in Hm; contradiction | auto].
  - cbn [union_all length] in *.
    destruct (union_spec parent rep d n fuel (_i m) (_j m) Hinv ltac:(lia))
      as (parent1 & rep1 & d1 & Hu & Hinv1 & Hij & Hkeep & _).
    rewrite Hu.
    destruct (IH parent1 rep1 d1 (S n) fuel Hinv1 ltac:(lia))
      as (parent2 & rep2 & d2 & Hall & Hinv2 & Hpairs & Hkeep2).
    exists parent2, rep2, d2. split; [exact Hall |].
    split; [replace (n + S (length pairs))%nat with (S n + length pairs)%nat by lia;
            exact Hinv2 |].
    split.
    + intros m' Hm'. apply elem_of_cons in Hm' as [-> | Hm'].
      * apply Hkeep2, Hij.
      * apply Hpairs, Hm'.
    + intros a b Hab. apply Hkeep2, Hkeep, Hab.
Qed.

(** With a forest at hand, collecting the members is grouping by root. *)
Lemma collect_members_spec (rep d : nat -> nat) (n fuel : nat) (all : list nat) :
  forall (parent : gmap nat nat) (members : list (nat * list nat)),
  uf_inv parent rep d n -> (n <= fuel)%nat ->
  collect_members fuel parent members all
  = Some (foldl (fun ms idx => group_append (rep idx) idx ms) members all).
Proof.
  induction all as [| idx all IH]; intros parent members Hinv Hfuel; [reflexivity |].
  cbn [collect_members foldl].
  destruct (find_spec rep d n fuel parent idx Hinv)
    as (parent1 & Hf & Hinv1 & _).
  { pose proof (inv_bound _ _ _ _ Hinv idx). lia. }
  rewrite Hf. apply IH; assumption.
Qed.

(* ===================================================================== *)
(** * Properties: group assembly *)
(* ===================================================================== *)

Lemma work_loc_ok (work : list WorkRow) (idx : nat) (r : WorkRow) :
  work_loc work idx = Ok r -> r ∈ work /\ w_label r = idx.
Proof.
  unfold work_loc. destruct (List.find _ work) as [r' |] eqn:E; cbn; [| discriminate].
  intros [= ->]. apply find_some in E as [Hin He].
  split; [apply list_elem_of_In, Hin | apply Nat.eqb_eq, He].
Qed.

Lemma work_loc_returns (work : list WorkRow) (idx : nat) :
  idx ∈ w_label <$> work -> exists r, work_loc work idx = Ok r.
Proof.
  intros H. apply list_elem_of_fmap in H as (r & -> & Hr).
  unfold work_loc. destruct (List.find _ work) as [r' |] eqn:E; [eexists; reflexivity |].
  exfalso. apply list_elem_of_In in Hr.
  pose proof (find_none _ _ E r Hr) as Hn. cbn in Hn.
  rewrite Nat.eqb_refl in Hn. discriminate.
Qed.

Lemma work_loc_list_ok (work : list WorkRow) (idx_list : list nat) (grp : list WorkRow) :
  work_loc_list work idx_list = Ok grp ->
  w_label <$> grp = idx_list /\ forall r, r ∈ grp -> r ∈ work.
Proof.
  revert grp. induction idx_list as [| idx rest IH]; intros grp; cbn.
  - intros [= <-]. split; [reflexivity |].
    intros r Hr. apply elem_of_nil in Hr. contradiction.
  - destruct (work_loc work idx) as [r |] eqn:E; cbn; [| discriminate].
    destruct (work_loc_list work rest) as [rs |]; cbn; [| discriminate].
    intros [= <-]. destruct (IH rs eq_refl) as [Hl Hin].
    apply work_loc_ok in E as [Hr He].
    split; [cbn; congruence |].
    intros r' Hr'. apply elem_of_cons in Hr' as [-> | Hr']; [exact Hr | apply Hin, Hr'].
Qed.

Lemma work_loc_list_returns (work : list WorkRow) (idx_list : list nat) :
  (forall idx, idx ∈ idx_list -> idx ∈ w_label <$> work) ->
  exists grp, work_loc_list work idx_list = Ok grp.
Proof.
  induction idx_list as [| idx rest IH]; intros H; cbn; [eexists; reflexivity |].
  destruct (work_loc_returns work idx) as [r Hr]; [apply H, list_elem_of_here |].
  rewrite Hr. cbn.
  destruct IH as [rs Hrs]; [intros i Hi; apply H, list_elem_of_further, Hi |].
  rewrite Hrs. cbn. eexists. reflexivity.
Qed.

(** The frames of the groups: every row comes from a member list of two
    labels or more and is a row of [work]; and every such member list gets
    one group id, borne by a row for each of its labels. *)
Lemma out_frames_spec (work : list WorkRow) (pair_df : list Match) (threshold : Z)
    (members : list (nat * list nat)) :
  forall (group_num : Z) (frames : list (list DupRow)),
  out_frames work pair_df threshold group_num members = Ok frames ->
  (forall row, row ∈ mjoin frames ->
     exists root idx_list r,
       (root, idx_list) ∈ members /\ dr_label row ∈ idx_list
       /\ r ∈ work /\ w_label r = dr_label row /\ w_cells r = dr_cells row)
  /\ (forall root idx_list,
        (root, idx_list) ∈ members -> (2 <= length idx_list)%nat ->
        exists gid, forall idx, idx ∈ idx_list -> in_group (mjoin frames) gid idx).
Proof.
  induction members as [| [root0 idx_list0] members IH]; intros group_num frames;
    cbn [out_frames].
  - intros [= <-]. split.
    + intros row Hrow. apply elem_of_nil in Hrow. contradiction.
    + intros root idx_list Hin. apply elem_of_nil in Hin. contradiction.
  - destruct (length idx_list0 <? 2)%nat eqn:Elen.
    + intros Hf. destruct (IH _ _ Hf) as [IH1 IH2]. split.
      * intros row Hrow. destruct (IH1 row Hrow) as (root & idx_list & r & Hm & Hrest).
        exists root, idx_list, r. split; [apply list_elem_of_further, Hm | exact Hrest].
      * intros root idx_list Hin Hlen.
        apply elem_of_cons in Hin as [[= -> ->] | Hin].
        -- apply Nat.ltb_lt in Elen. lia.
        -- apply (IH2 root idx_list Hin Hlen).
    + destruct (work_loc_list work idx_list0) as [grp |] eqn:Egrp; cbn [bind];
        [| discriminate].
      destruct (out_frames work pair_df threshold (group_num + 1) members)
        as [frames' |] eqn:Ef; cbn [bind]; [| discriminate].
      intros [= <-]. destruct (IH _ _ Ef) as [IH1 IH2].
      destruct (work_loc_list_ok _ _ _ Egrp) as [Hlabels Hwork].
      split.
      * intros row Hrow. cbn in Hrow. apply elem_of_app in Hrow as [Hrow | Hrow].
        -- apply list_elem_of_fmap in Hrow as (r & -> & Hr). cbn.
           exists root0, idx_list0, r.
           split; [apply list_elem_of_here |].
           split; [rewrite <- Hlabels; apply list_elem_of_fmap_2, Hr |].
           split; [apply Hwork, Hr | split; reflexivity].
        -- destruct (IH1 row Hrow) as (root & idx_list & r & Hm & Hrest).
           exists root, idx_list, r. split; [apply list_elem_of_further, Hm | exact Hrest].
      * intros root idx_list Hin Hlen.
        apply elem_of_cons in Hin as [[= -> ->] | Hin].
        -- exists (group_num + 1). intros idx Hidx.
           rewrite <- Hlabels in Hidx.
           apply list_elem_of_fmap in Hidx as (r & -> & Hr).
           eexists. split; [| split].
           ++ cbn. apply elem_of_app. left.
              apply list_elem_of_fmap_2, Hr.
           ++ reflexivity.
           ++ reflexivity.
        -- destruct (IH2 root idx_list Hin Hlen) as [gid Hgid].
           exists gid. intros idx Hidx.
           destruct (Hgid idx Hidx) as (row & Hrow & Hl & Hg).
           exists row. split; [cbn; apply elem_of_app; right; exact Hrow |].
           split; assumption.
Qed.

Lemma out_frames_returns (work : list WorkRow) (pair_df : list Match) (threshold : Z)
    (members : list (nat * list nat)) :
  (forall root idx_list idx,
     (root, idx_list) ∈ members -> idx ∈ idx_list -> idx ∈ w_label <$> work) ->
  forall group_num,
  exists frames, out_frames work pair_df threshold group_num members = Ok frames.
Proof.
  induction members as [| [root0 idx_list0] members IH]; intros H group_num;
    cbn [out_frames].
  - eexists. reflexivity.
  - assert (H' : forall root idx_list idx,
               (root, idx_list) ∈ members -> idx ∈ idx_list -> idx ∈ w_label <$> work).
    { intros root idx_list idx Hin. apply (H root idx_list idx), list_elem_of_further, Hin. }
    destruct (length idx_list0 <? 2)%nat; [apply IH, H' |].
    destruct (work_loc_list_returns work idx_list0) as [grp Hgrp].
    { intros idx Hidx. apply (H root0 idx_list0 idx); [apply list_elem_of_here | exact Hidx]. }
    rewrite Hgrp. cbn [bind].
    destruct (IH H' (group_num + 1)) as [frames Hframes].
    rewrite Hframes. cbn [bind]. eexists. reflexivity.
Qed.

Lemma two_elements {A} (l : list A) (x y : A) :
  x ∈ l -> y ∈ l -> x <> y -> (2 <= length l)%nat.
Proof.
  intros Hx Hy Hne. destruct l as [| a [| b l]]; cbn; [| | lia].
  - apply elem_of_nil in Hx. contradiction.
  - apply list_elem_of_singleton in Hx, Hy. congruence.
Qed.

Section FuzzyGroupsFacts.
Context (rt : Runtime).

Lemma all_matched_elem (pair_df : list Match) (x : nat) :
  x ∈ all_matched rt pair_df <-> exists m, m ∈ pair_df /\ (x = _i m \/ x = _j m).
Proof.
  unfold all_matched. rewrite set_iter_elem, elem_of_app, !list_elem_of_fmap.
  split.
  - intros [(m & -> & Hm) | (m & -> & Hm)]; exists m; auto.
  - intros (m & Hm & [-> | ->]); [left | right]; exists m; auto.
Qed.

Lemma linked_sorted (accepted : list Match) (a b : nat) :
  linked accepted a b <-> linked (sort_by_score rt accepted) a b.
Proof.
  unfold linked. split; intros [s Hs]; exists s;
    rewrite ?(sort_by_score_perm rt accepted) in *; exact Hs.
Qed.

(** From the accepted pairs to the frame: the run returns, every row of
    the frame is an endpoint of an accepted pair and a row of [work], and
    rows linked through any chain of accepted pairs bear one group id. *)
Lemma fuzzy_groups_spec (work : list WorkRow) (threshold : Z) (accepted : list Match) :
  (forall m, m ∈ accepted ->
     _i m <> _j m /\ _i m ∈ w_label <$> work /\ _j m ∈ w_label <$> work) ->
  exists out,
    fuzzy_groups rt work threshold accepted = Ok out
    /\ (forall row, row ∈ out ->
          (exists m, m ∈ accepted /\ (dr_label row = _i m \/ dr_label row = _j m))
          /\ exists r, r ∈ work /\ w_label r = dr_label row /\ w_cells r = dr_cells row)
    /\ (forall a c, linked accepted a c ->
          exists gid, in_group out gid a
            /\ forall b, tc (linked accepted) a b -> in_group out gid b).
Proof.
  intros Hacc. unfold fuzzy_groups.
  destruct accepted as [| m0 accepted0] eqn:Eacc.
  { exists []. split; [reflexivity |]. split.
    - intros row Hrow. apply elem_of_nil in Hrow. contradiction.
    - intros a c (s & [H | H]); apply elem_of_nil in H; contradiction. }
  rewrite <- Eacc in *. clear Eacc m0 accepted0.
  set (pair_df := sort_by_score rt accepted).
  assert (Hperm : forall m, m ∈ pair_df <-> m ∈ accepted).
  { intros m. unfold pair_df. rewrite (sort_by_score_perm rt accepted). reflexivity. }
  destruct (union_all_spec pair_df ∅ id (fun _ => O) 1 (S (length pair_df))
              uf_inv_empty ltac:(lia))
    as (parent & rep & d & Hall & Hinv & Hpairs & _).
  rewrite Hall. cbn [of_option bind].
  rewrite (collect_members_spec rep d (1 + length pair_df) (S (length pair_df))
             (all_matched rt pair_df) parent [] Hinv ltac:(lia)).
  cbn [of_option bind].
  change (foldl (fun ms idx => group_append (rep idx) idx ms) [] (all_matched rt pair_df))
    with (group_by_key rep (all_matched rt pair_df)).
  set (members := group_by_key rep (all_matched rt pair_df)).
  assert (Hmem : forall root idx_list idx,
             (root, idx_list) ∈ members -> idx ∈ idx_list ->
             idx ∈ all_matched rt pair_df /\ rep idx = root).
  { intros root idx_list idx Hin Hidx.
    apply group_by_key_elem in Hin as [-> _].
    apply list_elem_of_filter in Hidx as [He Hi]. split; assumption. }
  destruct (out_frames_returns work pair_df threshold members) with (group_num := 0)
    as [frames Hframes].
  { intros root idx_list idx Hin Hidx.
    destruct (Hmem root idx_list idx Hin Hidx) as [Hi _].
    apply all_matched_elem in Hi as (m & Hm & [-> | ->]);
      apply Hperm, Hacc in Hm; tauto. }
  rewrite Hframes. cbn [bind].
  destruct (out_frames_spec _ _ _ _ _ _ Hframes) as [Hrows Hgroups].
  exists (mjoin frames). split; [reflexivity |]. split.
  - intros row Hrow.
    destruct (Hrows row Hrow) as (root & idx_list & r & Hin & Hidx & Hr).
    destruct (Hmem root idx_list _ Hin Hidx) as [Hi _].
    apply all_matched_elem in Hi as (m & Hm & Hends).
    split; [exists m; split; [apply Hperm, Hm | exact Hends] |].
    exists r. exact Hr.
  - intros a c Hac.
    assert (Hlink : forall x y, linked accepted x y ->
              rep x = rep y /\ x ∈ all_matched rt pair_df
              /\ y ∈ all_matched rt pair_df /\ x <> y).
    { intros x y (s & [H | H]).
      - pose proof (Hpairs _ (proj2 (Hperm _) H)) as Hr. cbn in Hr.
        destruct (Hacc _ H) as (Hne & _). cbn in Hne.
        split; [exact Hr |].
        split; [apply all_matched_elem; exists (mkMatch x y s);
                split; [apply Hperm, H | left; reflexivity] |].
        split; [apply all_matched_elem; exists (mkMatch x y s);
                split; [apply Hperm, H | right; reflexivity] | exact Hne].
      - pose proof (Hpairs _ (proj2 (Hperm _) H)) as Hr. cbn in Hr.
        destruct (Hacc _ H) as (Hne & _). cbn in Hne.
        split; [symmetry; exact Hr |].
        split; [apply all_matched_elem; exists (mkMatch y x s);
                split; [apply Hperm, H | right; reflexivity] |].
        split; [apply all_matched_elem; exists (mkMatch y x s);
                split; [apply Hperm, H | left; reflexivity] | congruence]. }
    assert (Hchain : forall x y, tc (linked accepted) x y ->
              rep x = rep y /\ y ∈ all_matched rt pair_df).
    { intros x y Htc. induction Htc as [x y Hxy | x y z Hxy _ IHtc].
      - destruct (Hlink x y Hxy) as (Hr & _ & Hy & _). split; assumption.
      - destruct (Hlink x y Hxy) as (Hr & _). destruct IHtc as [Hr' Hz].
        split; [congruence | exact Hz]. }
    destruct (Hlink a c Hac) as (Hrac & Ha & Hc & Hne).
    set (idx_list := filter (fun y => rep y = rep a) (all_matched rt pair_df)).
    assert (Hgroup : (rep a, idx_list) ∈ members)
      by (apply group_by_key_covers, Ha).
    assert (Hina : a ∈ idx_list)
      by (apply list_elem_of_filter; split; [reflexivity | exact Ha]).
    assert (Hinc : c ∈ idx_list)
      by (apply list_elem_of_filter; split; [symmetry; exact Hrac | exact Hc]).
    destruct (Hgroups (rep a) idx_list Hgroup (two_elements _ _ _ Hina Hinc Hne))
      as [gid Hgid].
    exists gid. split; [apply Hgid, Hina |].
    intros b Hab. destruct (Hchain a b Hab) as [Hr Hb].
    apply Hgid. apply list_elem_of_filter. split; [symmetry; exact Hr | exact Hb].
Qed.

End FuzzyGroupsFacts.

(* ===================================================================== *)
(** * Properties: the fuzzy pipeline *)
(* ===================================================================== *)


Lemma fuzzy_work_elem (df : DataFrame) (cols : list string) (ignore_nulls : bool)
    (label : nat) (cells : list cell) :
  (label, cells) ∈ fuzzy_work df cols ignore_nulls ->
  df_rows df !! label = Some cells
  /\ (ignore_nulls = true -> fuzzy_valid df cols cells = true).
Proof.
  unfold fuzzy_work. destruct ignore_nulls.
  - intros H. apply list_elem_of_filter in H as [Hv H].
    apply elem_of_labelled in H. split; [exact H | intros _; exact Hv].
  - intros H. apply elem_of_labelled in H. split; [exact H | discriminate].
Qed.

Lemma fuzzy_work_NoDup (df : DataFrame) (cols : list string) (ignore_nulls : bool) :
  NoDup (fuzzy_work df cols ignore_nulls).*1.
Proof.
  unfold fuzzy_work. destruct ignore_nulls.
  - apply NoDup_fmap_filter, NoDup_labelled_fst.
  - apply NoDup_labelled_fst.
Qed.

Lemma fuzzy_blocks_ok (df : DataFrame) (cols : list string) (ignore_nulls : bool)
    (blocks : list WorkRow) :
  fuzzy_blocks df cols ignore_nulls = Ok blocks ->
  (forall r, r ∈ blocks -> (w_label r, w_cells r) ∈ fuzzy_work df cols ignore_nulls)
  /\ NoDup (w_label <$> blocks)
  /\ (blocks <> [] ->
      exists first_col rest,
        cols = first_col :: rest /\ is_Some (index_of first_col (df_columns df))).
Proof.
  unfold fuzzy_blocks.
  destruct cols as [| first_col rest].
  { intros [= <-]. split; [intros r Hr; apply elem_of_nil in Hr; contradiction |].
    split; [constructor | congruence]. }
  destruct (fuzzy_work df (first_col :: rest) ignore_nulls) as [| w0 work0] eqn:Ew.
  { intros [= <-]. split; [intros r Hr; apply elem_of_nil in Hr; contradiction |].
    split; [constructor | congruence]. }
  rewrite <- Ew.
  destruct (index_of first_col (df_columns df)) as [first |] eqn:Ei;
    cbn [of_option bind]; [| discriminate].
  intros [= <-]. split; [| split].
  - intros r Hr. apply list_elem_of_fmap in Hr as ([l cs] & -> & Hr). exact Hr.
  - rewrite <- list_fmap_compose.
    pose proof (fuzzy_work_NoDup df (first_col :: rest) ignore_nulls) as Hnd.
    exact Hnd.
  - intros _. exists first_col, rest. split; [reflexivity | eauto].
Qed.



Lemma blocks_of_elem (work : list WorkRow) (k : string) (block : list WorkRow) :
  (k, block) ∈ blocks_of work ->
  block = filter (fun r => w_block r = k) (filter (fun r => w_block r <> "") work)
  /\ (forall r, r ∈ block -> r ∈ work /\ w_block r = k).
Proof.
  intros H. apply group_by_key_elem in H as [-> _]. split; [reflexivity |].
  intros r Hr. apply list_elem_of_filter in Hr as [Hk Hr].
  apply list_elem_of_filter in Hr as [_ Hr]. split; assumption.
Qed.

Lemma blocks_of_NoDup (work : list WorkRow) (k : string) (block : list WorkRow) :
  NoDup (w_label <$> work) -> (k, block) ∈ blocks_of work ->
  NoDup (w_label <$> block).
Proof.
  intros Hnd H. apply blocks_of_elem in H as [-> _].
  apply NoDup_fmap_filter, NoDup_fmap_filter, Hnd.
Qed.

Lemma pair_of_endpoints (work : list WorkRow) (k : string) (block : list WorkRow)
    (threshold : Z) (m : Match) :
  NoDup (w_label <$> work) -> (k, block) ∈ blocks_of work ->
  pair_of block threshold m ->
  _i m <> _j m
  /\ (exists r, r ∈ block /\ w_label r = _i m)
  /\ (exists r, r ∈ block /\ w_label r = _j m).
Proof.
  intros Hnd Hb (r1 & r2 & Hp & Hi & Hj & _).
  pose proof (blocks_of_NoDup _ _ _ Hnd Hb) as Hndb.
  pose proof (upper_pairs_distinct w_label block r1 r2 Hndb Hp) as Hne.
  apply upper_pairs_elem in Hp as [H1 H2].
  split; [congruence |]. split; [exists r1 | exists r2]; split; auto.
Qed.

Section Pipeline.
Context (rt : Runtime) (env : FuzzEnv) (df : DataFrame) (cols : list string).
Context (threshold : Z) (weights : option (list Q)) (cap : Z) (ignore_nulls : bool).

Lemma fuzzy_compare_unfold (blocks : list WorkRow) :
  fuzzy_blocks df cols ignore_nulls = Ok blocks ->
  fuzzy_compare env df cols threshold weights cap ignore_nulls
  = for_each (compare_block env (df_columns df) cols (normalise_weights cols weights)
                threshold cap)
             {| matches := []; skipped_blocks := O; scalar_fallback_blocks := O |}
             (blocks_of blocks).
Proof. intros H. unfold fuzzy_compare. rewrite H. reflexivity. Qed.

(** The loop on the blocks of a run: every accepted pair joins two
    different rows of one block that was not skipped. *)
Lemma fuzzy_compare_matches (blocks : list WorkRow) (loop : LoopState) :
  fuzzy_blocks df cols ignore_nulls = Ok blocks ->
  fuzzy_compare env df cols threshold weights cap ignore_nulls = Ok loop ->
  (forall m, m ∈ matches loop ->
     exists g, g ∈ blocks_of blocks /\ oversized cap g.2 = false
               /\ pair_of g.2 threshold m)
  /\ skipped_blocks loop
     = length (filter (fun g => oversized cap g.2 = true) (blocks_of blocks)).
Proof.
  intros Hb Hc. rewrite (fuzzy_compare_unfold blocks Hb) in Hc.
  apply compare_loop in Hc as [Hm Hs]. cbn in Hm, Hs. split; [| exact Hs].
  intros m Hin. destruct (Hm m Hin) as [H0 | H1]; [| exact H1].
  apply elem_of_nil in H0. contradiction.
Qed.

Lemma fuzzy_matches_wellformed (blocks : list WorkRow) (loop : LoopState) :
  fuzzy_blocks df cols ignore_nulls = Ok blocks ->
  fuzzy_compare env df cols threshold weights cap ignore_nulls = Ok loop ->
  forall m, m ∈ matches loop ->
    _i m <> _j m /\ _i m ∈ w_label <$> blocks /\ _j m ∈ w_label <$> blocks.
Proof.
  intros Hb Hc m Hm.
  destruct (fuzzy_blocks_ok _ _ _ _ Hb) as (_ & Hnd & _).
  destruct (fuzzy_compare_matches blocks loop Hb Hc) as [Hpairs _].
  destruct (Hpairs m Hm) as ([k block] & Hg & _ & Hp). cbn [snd] in Hp.
  destruct (pair_of_endpoints _ _ _ _ _ Hnd Hg Hp) as (Hne & (r1 & Hr1 & H1) & (r2 & Hr2 & H2)).
  destruct (blocks_of_elem _ _ _ Hg) as [_ Hin].
  split; [exact Hne |].
  split; [rewrite <- H1 | rewrite <- H2]; apply list_elem_of_fmap_2, Hin; assumption.
Qed.

Hypothesis Hcols : forall c, c ∈ cols -> has_column df c = true.


End Pipeline.


(* ===================================================================== *)
(** * The duplicate-detection claims *)
(* ===================================================================== *)



(** C4 (amended).  A row whose monitored columns all normalize into the
    null-sentinel set is in no duplicate group returned by the
    single-column exact rule, by the combination exact rule, or by the
    hybrid fuzzy rule run with the ignore-nulls flag set. *)
Theorem all_absent_rows_never_grouped
    (rt : Runtime) (env : FuzzEnv) (df : DataFrame) (col : string)
    (cols : list string) (threshold : Z) (weights : option (list Q)) (cap : Z)
    (i : nat) (row : list cell) :
  df_rows df !! i = Some row ->
  (all_monitored_absent df [col] row ->
   forall out, detect_exact_duplicates_single df col = Ok out ->
               i ∉ dr_label <$> out)
  /\ (all_monitored_absent df cols row ->
      forall out, detect_exact_duplicates_combination df cols = Ok out ->
                  i ∉ dr_label <$> out)
  /\ (all_monitored_absent df cols row ->
      forall out warns,
        detect_fuzzy_duplicates rt env df cols threshold weights cap true
        = Ok (out, warns) ->
        i ∉ dr_label <$> out).
Proof.
  intros Hrow. split; [| split].
  - intros Habs out Hd. eapply single_excludes_absent; eassumption.
  - intros Habs out Hd. eapply combination_excludes_absent; eassumption.
  - intros Habs out warns Hd Hin.
    unfold detect_fuzzy_duplicates in Hd.
    destruct cols as [| first_col rest].
    { injection Hd as <- _. apply elem_of_nil in Hin. exact Hin. }
    destruct (fuzzy_work df (first_col :: rest) true) as [| w0 work0] eqn:Ew.
    { injection Hd as <- _. apply elem_of_nil in Hin. exact Hin. }
    rewrite <- Ew in *.
    destruct (fuzzy_blocks df (first_col :: rest) true) as [blocks | e] eqn:Hb;
      cbn [bind] in Hd; [| discriminate].
    destruct (fuzzy_compare env df (first_col :: rest) threshold weights cap true)
      as [loop | e] eqn:Hc; cbn [bind] in Hd; [| discriminate].
    destruct (fuzzy_groups rt blocks threshold (matches loop)) as [dup_df | e] eqn:Hg;
      cbn [bind] in Hd; [| discriminate].
    injection Hd as <- _.
    destruct (fuzzy_groups_spec rt blocks threshold (matches loop)
                (fuzzy_matches_wellformed env df (first_col :: rest) threshold
                   weights cap true blocks loop Hb Hc)) as (out' & Hout' & Hrows & _).
    assert (out' = dup_df) by congruence. subst out'.
    apply list_elem_of_fmap in Hin as (r & -> & Hr).
    destruct (Hrows r Hr) as (_ & wr & Hwr & Hlabel & _).
    destruct (fuzzy_blocks_ok _ _ _ _ Hb) as (Hwork & _ & Hfirst).
    assert (Hne : blocks <> [])
      by (intros ->; apply elem_of_nil in Hwr; exact Hwr).
    apply Hwork in Hwr. apply fuzzy_work_elem in Hwr as [Hcells Hvalid].
    rewrite Hlabel, Hrow in Hcells. injection Hcells as Hcells.
    specialize (Hvalid eq_refl). rewrite <- Hcells in Hvalid.
    destruct (Hfirst Hne) as (fc & rest' & [= <- <-] & [k Hk]).
    unfold fuzzy_valid in Hvalid. cbn [forallb] in Hvalid. rewrite Hk in Hvalid.
    apply andb_true_iff in Hvalid as [Hv _].
    specialize (Habs first_col (list_elem_of_here _ _)).
    unfold row_get in Habs. rewrite Hk in Habs. rewrite Habs in Hv. discriminate.
Qed.

(* ===================================================================== *)
(** * Worked scenarios for the fuzzy detector *)
(* ===================================================================== *)


(** On [smiths] at threshold 90 the detector accepts rows 0-1 and rows 1-2,
    never compares favourably rows 0-2 (their score is below 90), and still
    puts the three rows in group 1. *)
Example smiths_chain :
  fuzzy_compare None smiths ["Name"] 90 None 20000 true
  = Ok {| matches := [mkMatch 0 1 (1800 # 19); mkMatch 1 2 (1800 # 20)];
          skipped_blocks := 0; scalar_fallback_blocks := 1 |}
  /\ (_hybrid_row_score None ["Name"] [VStr "jon smith"] [VStr "john smyth"]
          ["Name"] [1%Q] ?= 90)%Q = Lt
  /\ detect_fuzzy_duplicates reference_runtime None smiths ["Name"] 90 None
       20000 true
     = Ok ([{| dr_label := 0; dr_cells := [VStr "Jon Smith"];
               Duplicate_Group_ID := 1; Duplicate_Type := "Hybrid Fuzzy";
               Similarity_Score := 4737 # 50; dr_Row_Number := 2 |};
            {| dr_label := 1; dr_cells := [VStr "John Smith"];
               Duplicate_Group_ID := 1; Duplicate_Type := "Hybrid Fuzzy";
               Similarity_Score := 4737 # 50; dr_Row_Number := 3 |};
            {| dr_label := 2; dr_cells := [VStr "John Smyth"];
               Duplicate_Group_ID := 1; Duplicate_Type := "Hybrid Fuzzy";
               Similarity_Score := 4737 # 50; dr_Row_Number := 4 |} ],
           [RapidFuzzMissing]).
Proof. repeat apply conj; vm_compute; reflexivity. Qed.


(** Scenario D: 250 rows in one block need 31,125 comparisons; with a cap of
    1,000 the run returns no duplicate row and one skip warning that counts
    one block. *)
Example scenario_D_run :
  detect_fuzzy_duplicates reference_runtime None one_big_block ["Name"] 80 None
    1000 true
  = Ok ([], [RapidFuzzMissing; BlocksSkipped 1 1000])
  /\ 250 * (250 - 1) / 2 = 31125.
Proof. split; vm_compute; reflexivity. Qed.


Lemma sentinel_row_absent :
  all_monitored_absent sentinel_rows ["Name"] [VStr "nan"].
Proof. intros c Hc. apply list_elem_of_singleton in Hc. subst c. reflexivity. Qed.

(** Instance of the all-absent-row theorem on row 0 of [sentinel_rows]. *)
Lemma all_absent_rows_never_grouped_witness :
  df_rows sentinel_rows !! 0%nat = Some [VStr "nan"]
  /\ all_monitored_absent sentinel_rows ["Name"] [VStr "nan"]
  /\ (exists out, detect_exact_duplicates_single sentinel_rows "Name" = Ok out
                  /\ 0%nat ∉ dr_label <$> out)
  /\ (exists out, detect_exact_duplicates_combination sentinel_rows ["Name"] = Ok out
                  /\ 0%nat ∉ dr_label <$> out)
  /\ (exists out warns,
        detect_fuzzy_duplicates reference_runtime None sentinel_rows ["Name"] 80
          None 20000 true = Ok (out, warns)
        /\ 0%nat ∉ dr_label <$> out).
Proof.
  pose proof (all_absent_rows_never_grouped reference_runtime None sentinel_rows
                "Name" ["Name"] 80 None 20000 0 [VStr "nan"] eq_refl)
    as (Hsingle & Hcomb & Hfuzzy).
  split; [reflexivity |].
  split; [exact sentinel_row_absent |].
  split; [| split].
  - eexists. split; [reflexivity |].
    exact (Hsingle sentinel_row_absent _ eq_refl).
  - eexists. split; [reflexivity |].
    exact (Hcomb sentinel_row_absent _ eq_refl).
  - eexists _, _. split; [reflexivity |].
    exact (Hfuzzy sentinel_row_absent _ _ eq_refl).
Defined.

(** With the ignore-nulls flag off, rows 0 and 3 of [sentinel_rows], whose only
    monitored cell is the sentinel "nan", share block "na", score 100 and come
    back as duplicate group 1. *)
Lemma all_absent_rows_counterexample :
  is_absent (VStr "nan") = true
  /\ df_rows sentinel_rows !! 0%nat = Some [VStr "nan"]
  /\ df_rows sentinel_rows !! 3%nat = Some [VStr "nan"]
  /\ detect_fuzzy_duplicates reference_runtime None sentinel_rows ["Name"] 80
       None 20000 false
     = Ok ([ {| dr_label := 0; dr_cells := [VStr "nan"];
                Duplicate_Group_ID := 1; Duplicate_Type := "Hybrid Fuzzy";
                Similarity_Score := 100; dr_Row_Number := 2 |};
             {| dr_label := 3; dr_cells := [VStr "nan"];
                Duplicate_Group_ID := 1; Duplicate_Type := "Hybrid Fuzzy";
                Similarity_Score := 100; dr_Row_Number := 5 |};
             {| dr_label := 1; dr_cells := [VStr "Acme"];
                Duplicate_Group_ID := 2; Duplicate_Type := "Hybrid Fuzzy";
                Similarity_Score := 100; dr_Row_Number := 3 |};
             {| dr_label := 2; dr_cells := [VStr "Acme"];
                Duplicate_Group_ID := 2; Duplicate_Type := "Hybrid Fuzzy";
                Similarity_Score := 100; dr_Row_Number := 4 |} ],
           [RapidFuzzMissing]).
Proof. repeat apply conj; vm_compute; reflexivity. Qed.

(* ===================================================================== *)
(** * Properties: completeness rules *)
(* ===================================================================== *)

Lemma lstrip_spaces (s : string) :
  all_chars Text.is_space s = true -> Text.lstrip s = "".
Proof.
  induction s as [| c s IH]; cbn; [reflexivity |].
  intros H. apply andb_true_iff in H as [Hc Hs]. rewrite Hc. apply IH, Hs.
Qed.

Lemma strip_spaces (s : string) :
  all_chars Text.is_space s = true -> Text.strip s = "".
Proof. intros H. unfold Text.strip. rewrite lstrip_spaces by exact H. reflexivity. Qed.

Lemma len_pos_truthy (s : string) : (0 <? Text.len s) = Text.truthy s.
Proof. destruct s; cbn; [reflexivity |]. unfold Text.len. cbn. reflexivity. Qed.

(** The completeness rules nest.  At every row: a value that passes
    Minimum Length (whatever the length asked) passes Not Null, a value
    that passes Not Null passes Not Empty, and a value that passes Not
    Empty passes Whitespace Only.  A Minimum Length of zero or less is Not
    Null. *)
Theorem completeness_rules_nest (series : list cell) (i : nat) (min_len : Z) :
  (rule_minimum_length series min_len !! i = Some true ->
   rule_not_null series !! i = Some true)
  /\ (rule_not_null series !! i = Some true ->
      rule_not_empty series !! i = Some true)
  /\ (rule_not_empty series !! i = Some true ->
      rule_whitespace_only series !! i = Some true)
  /\ (min_len <= 0 -> rule_minimum_length series min_len = rule_not_null series).
Proof.
  unfold rule_minimum_length, rule_not_null, rule_not_empty, rule_whitespace_only.
  rewrite !list_lookup_fmap.
  destruct (series !! i) as [c |] eqn:Hc; cbn.
  - repeat apply conj.
    + intros [= H]. apply andb_true_iff in H as [H _]. now rewrite H.
    + intros [= H]. f_equal. rewrite len_pos_truthy.
      destruct (Text.strip (astype_str c)) eqn:E; [| reflexivity].
      cbn in H. discriminate.
    + intros [= H]. f_equal. rewrite len_pos_truthy in H.
      destruct (fullmatch_spaces (astype_str c)) eqn:E; [| reflexivity].
      unfold fullmatch_spaces in E. apply andb_true_iff in E as [_ E].
      rewrite (strip_spaces _ E) in H. discriminate.
    + intros Hm. apply list_fmap_ext. intros _ x _. cbn.
      replace (min_len <=? Text.len (Text.strip (astype_str x))) with true.
      * apply andb_true_r.
      * symmetry. apply Z.leb_le. unfold Text.len. lia.
  - repeat apply conj; try discriminate.
    intros Hm. apply list_fmap_ext. intros _ x _. cbn.
    replace (min_len <=? Text.len (Text.strip (astype_str x))) with true.
    + apply andb_true_r.
    + symmetry. apply Z.leb_le. unfold Text.len. lia.
Qed.

(** The nesting is strict: the empty string passes Whitespace Only and
    fails Not Empty, and "n/a" passes Not Empty and fails Not Null. *)
Example completeness_rules_nest_strict :
  rule_whitespace_only [VStr ""; VStr "n/a"; VStr "  "] = [true; true; false]
  /\ rule_not_empty [VStr ""; VStr "n/a"; VStr "  "] = [false; true; false]
  /\ rule_not_null [VStr ""; VStr "n/a"; VStr "  "] = [false; false; false].
Proof. repeat apply conj; reflexivity. Qed.

(* ===================================================================== *)
(** * Properties: what an executor logs and what it returns *)
(* ===================================================================== *)

Lemma sum_Z_app (l1 l2 : list Z) : sum_Z (l1 ++ l2) = sum_Z l1 + sum_Z l2.
Proof. unfold sum_Z. induction l1 as [| x l1 IH]; cbn; lia. Qed.

Lemma sum_Z_cons (x : Z) (l : list Z) : sum_Z (x :: l) = x + sum_Z l.
Proof. reflexivity. Qed.

Lemma index_where_bound (mask : list bool) (i : nat) :
  i ∈ index_where mask -> (i < length mask)%nat.
Proof.
  intros H. apply elem_of_index_where in H. eapply lookup_lt_Some, H.
Qed.

Lemma length_omap_le {A B} (f : A -> option B) (l : list A) :
  (length (omap f l) <= length l)%nat.
Proof.
  induction l as [| x l IH]; cbn; [lia |]. destruct (f x); cbn; lia.
Qed.

Lemma index_where_length (mask : list bool) :
  (length (index_where mask) <= length mask)%nat.
Proof.
  unfold index_where. etransitivity; [apply length_omap_le |].
  unfold labelled. rewrite length_imap. lia.
Qed.

Lemma _log_rule_snoc (log : ExecLog) (dim col rule : string) (n f : Z) :
  exists e, _log_rule log dim col rule n f = log ++ [e]
            /\ Dimension e = dim /\ Column e = col /\ Rule e = rule
            /\ Evaluated e = n /\ Failed e = f /\ Passed e = n - f.
Proof. unfold _log_rule. eexists. split; [reflexivity |]. repeat split. Qed.

Lemma extends_refl (dim : string) (n : Z) (st : ExecState) : extends dim n st st.
Proof.
  exists [], []. rewrite !app_nil_r. split; [now destruct st |].
  constructor; [reflexivity | constructor | constructor].
Qed.

(** One more rule: its annexure rows and its log entry. *)
Lemma extends_step (dim : string) (n : Z) (st0 st : ExecState)
    (rows : list IssueRecord) (col label : string) :
  extends dim n st0 st ->
  llen rows <= n ->
  Forall (fun r => Issue_Dimension r = dim /\ 2 <= Row_Number r < n + 2) rows ->
  extends dim n st0 (st.1 ++ rows, _log_rule st.2 dim col label n (llen rows)).
Proof.
  intros (added & new & -> & [Hf He Hr]) Hle Hrows.
  destruct (_log_rule_snoc (st0.2 ++ new) dim col label n (llen rows))
    as (e & Hlog & Hd & _ & _ & Hev & Hfa & _).
  exists (added ++ rows), (new ++ [e]). cbn [fst snd]. split.
  - rewrite Hlog, <- !app_assoc. reflexivity.
  - constructor.
    + unfold llen in *. rewrite length_app, fmap_app, sum_Z_app. cbn.
      rewrite Hfa. lia.
    + apply Forall_app. split; [exact He |]. constructor; [| constructor].
      rewrite Hfa. unfold llen. repeat split; try assumption; lia.
    + apply Forall_app. split; assumption.
Qed.

Lemma labels_rows (dim : string) (n : Z) (labels : list nat)
    (f : nat -> IssueRecord) :
  (forall i, i ∈ labels -> Z.of_nat i < n) ->
  (forall i, Issue_Dimension (f i) = dim /\ Row_Number (f i) = Z.of_nat i + 2) ->
  Forall (fun r => Issue_Dimension r = dim /\ 2 <= Row_Number r < n + 2) (f <$> labels).
Proof.
  intros Hb Hf. apply Forall_fmap, Forall_forall. intros i Hi. cbn.
  destruct (Hf i) as [-> ->]. specialize (Hb i Hi). repeat split; lia.
Qed.



Lemma series_length (df : DataFrame) (col : string) (s : list cell) :
  series df col = Ok s -> llen s = n_rows df.
Proof.
  unfold series, n_rows, llen. destruct (index_of col (df_columns df)); [| discriminate].
  intros [= <-]. now rewrite length_fmap.
Qed.





Lemma lookup_rule_elem {A} (name : string) (l : list (string * A)) (v : A) :
  lookup_rule name l = Some v -> v ∈ l.*2.
Proof.
  induction l as [| [k x] l IH]; cbn; [discriminate |].
  destruct (String.eqb name k).
  - intros [= ->]. apply list_elem_of_here.
  - intros H. apply list_elem_of_further, IH, H.
Qed.








(** A run on a frame of three rows: Not Null on [name], Minimum Length 4
    on [name], and a rule on a column the frame does not have. *)
Example completeness_run_example :
  let df := mkDF ["name"] [[VStr "Asha"]; [VStr "n/a"]; [VStr " Bo "]] in
  let entry c r := mkCompletenessEntry c r (mkCompletenessConfig (Some 4) None) in
  exists log,
    execute_completeness_rules (fun s => s) [] df [] [] 3 None
      (Some [entry "name" "Not Null"; entry "name" "Minimum Length";
             entry "city" "Not Null"])
    = Ok ([ _annex_row 1 "name" "Not Null" "Missing Values" "n/a"
              "Non-null value" "Completeness";
            _annex_row 1 "name" "Minimum Length (4)" "Missing Values" "n/a"
              "Length ≥ 4" "Completeness";
            _annex_row 2 "name" "Minimum Length (4)" "Missing Values" " Bo "
              "Length ≥ 4" "Completeness" ], log)
    /\ (Failed <$> log) = [1; 2]
    /\ compute_completeness_score log 3 ([] : list IssueRecord) [] []
         (None : option (list CompletenessEntry)) = 50%Q.
Proof. eexists. repeat apply conj; vm_compute; reflexivity. Qed.

(* ===================================================================== *)
(** * Properties: the validity executor *)
(* ===================================================================== *)




Section ValidityMasks.
Context (E : RegexEngine) (P : Pandas) (series : list cell).












End ValidityMasks.


Section ValidityAccounting.
Context (E : RegexEngine) (P : Pandas).
Context (n : Z) (st0 st st' : ExecState) (s : list cell) (col : string).
Hypothesis (He : extends "Validity" n st0 st) (Hs : llen s = n).










End ValidityAccounting.







Example validity_run_example :
  exists log',
    execute_validity_rules (table_engine sample_patterns) no_parse_pandas []
      codes [] [] ∅ 0 100 "" "" ""
      (Some [mkEntry "code" "Format Check" no_config])
    = Ok ([ _annex_row 1 "code" "Format Check (^[a-zA-Z0-9]+$)" "Invalid Format"
              "A-1" "Expected format: ^[a-zA-Z0-9]+$" "Validity";
            _annex_row 2 "code" "Format Check (^[a-zA-Z0-9]+$)" "Invalid Format"
              "" "Expected format: ^[a-zA-Z0-9]+$" "Validity" ], log')
    /\ compute_validity_score log' 3 ([] : list IssueRecord) [] []
         (None : option (list RuleEntry)) = (3333 # 100)%Q.
Proof. eexists. split; vm_compute; reflexivity. Qed.

(* ===================================================================== *)
(** * Properties: the standardization executor *)
(* ===================================================================== *)

Lemma index_of_lookup (c : string) (cols : list string) (i : nat) :
  index_of c cols = Some i -> cols !! i = Some c.
Proof.
  revert i. induction cols as [| c' cols IH]; intros i; cbn; [discriminate |].
  destruct (String.eqb c c') eqn:E.
  - intros [= <-]. apply String.eqb_eq in E. now subst.
  - destruct (index_of c cols) as [j |]; cbn; [| discriminate].
    intros [= <-]. cbn. now apply IH.
Qed.

Lemma nth_insert_ne {A} (l : list A) (i j : nat) (x d : A) :
  i <> j -> nth j (<[i := x]> l) d = nth j l d.
Proof. intros H. rewrite !nth_lookup, list_lookup_insert_ne by exact H. reflexivity. Qed.

Lemma same_shape_refl (df : DataFrame) : same_shape df df.
Proof. split; reflexivity. Qed.

Lemma same_shape_trans (df1 df2 df3 : DataFrame) :
  same_shape df1 df2 -> same_shape df2 df3 -> same_shape df1 df3.
Proof. intros [Hc1 Hr1] [Hc2 Hr2]. split; congruence. Qed.

Lemma set_column_shape (df : DataFrame) (col : string) (vals : list string) :
  length vals = length (df_rows df) ->
  same_shape df (set_column df col vals)
  /\ forall c, c <> col -> series (set_column df col vals) c = series df c.
Proof.
  intros Hlen. unfold set_column.
  destruct (index_of col (df_columns df)) as [i |] eqn:Hi;
    [| split; [apply same_shape_refl | reflexivity]].
  split.
  - split; [reflexivity |]. cbn.
    apply list_eq. intros k. rewrite !list_lookup_fmap, lookup_zip_with.
    destruct (df_rows df !! k) as [row |] eqn:Hk; cbn; [| reflexivity].
    destruct (vals !! k) as [v |] eqn:Hv; cbn.
    + now rewrite length_insert.
    + apply lookup_lt_Some in Hk. apply lookup_ge_None in Hv. lia.
  - intros c Hc. unfold series. cbn.
    destruct (index_of c (df_columns df)) as [j |] eqn:Hj; [| reflexivity].
    f_equal. assert (Hij : i <> j).
    { intros ->. apply index_of_lookup in Hi, Hj. congruence. }
    apply list_eq. intros k. rewrite !list_lookup_fmap, lookup_zip_with.
    destruct (df_rows df !! k) as [row |] eqn:Hk; cbn; [| reflexivity].
    destruct (vals !! k) as [v |] eqn:Hv; cbn.
    + now rewrite nth_insert_ne.
    + apply lookup_lt_Some in Hk. apply lookup_ge_None in Hv. lia.
Qed.

Lemma same_shape_n_rows (df1 df2 : DataFrame) :
  same_shape df1 df2 -> n_rows df1 = n_rows df2.
Proof.
  intros [_ H]. unfold n_rows, llen. apply (f_equal length) in H.
  rewrite !length_fmap in H. now rewrite H.
Qed.

Lemma std_extends_refl (n : Z) (touched : list string) (st : StdState) :
  std_extends n touched st st.
Proof.
  split; [apply same_shape_refl |]. split; [reflexivity | apply extends_refl].
Qed.

(** The tail of every [_apply_*] closure. *)
Lemma record_changes_extends (n : Z) (touched : list string) (st0 st : StdState)
    (col label : string) (old : list cell) (tr : Transformed)
    (expected : nat -> string) :
  std_extends n touched st0 st -> n_rows (std_cleaned st0) = n ->
  series (std_cleaned st) col = Ok old ->
  length tr.1 = length old -> (length tr.2 <= length old)%nat ->
  col ∈ touched ->
  std_extends n touched st0 (record_changes st n col label old tr expected).
Proof.
  intros (Hshape & Hkeep & He) Hn Hold Hl1 Hl2 Hcol.
  pose proof (series_length _ _ _ Hold) as Hlen.
  rewrite <- (same_shape_n_rows _ _ Hshape), Hn in Hlen.
  destruct tr as [new_vals changed]. cbn [fst snd] in *.
  destruct (set_column_shape (std_cleaned st) col new_vals) as [Hs1 Hs2].
  { rewrite Hl1. pose proof (series_length _ _ _ Hold) as Hso.
    unfold n_rows, llen in Hso. lia. }
  unfold record_changes. split; [| split]; cbn [std_cleaned std_annexure std_log].
  - eapply same_shape_trans; eassumption.
  - intros c Hc. rewrite Hs2; [apply Hkeep, Hc |]. intros ->. contradiction.
  - rewrite count_true_labels.
    set (rows := (fun idx => _annex_row _ _ _ _ _ _ _) <$> changed_labels changed).
    replace (llen (index_where changed)) with (llen rows)
      by (unfold llen, rows, changed_labels; now rewrite length_fmap).
    apply (extends_step "Standardization" n (std_annexure st0, std_log st0)
             (std_annexure st, std_log st)); [exact He | |].
    + unfold llen, rows, changed_labels in *. rewrite length_fmap.
      pose proof (index_where_length changed). lia.
    + apply labels_rows; [| intros i; split; reflexivity].
      intros i Hi. apply index_where_bound in Hi. unfold llen in Hlen. lia.
Qed.

Lemma std_by_lengths (clean : string -> string) (old : list cell) :
  length (std_by clean old).1 = length old
  /\ (length (std_by clean old).2 <= length old)%nat.
Proof.
  unfold std_by, differs. cbn. rewrite length_zip_with, !length_fmap. lia.
Qed.

Lemma inline_rules_lengths (func : list cell -> Transformed) :
  func ∈ inline_rules.*2 ->
  forall old, length (func old).1 = length old
              /\ (length (func old).2 <= length old)%nat.
Proof.
  intros Hf old. unfold inline_rules in Hf. cbn in Hf.
  repeat (apply elem_of_cons in Hf as [-> | Hf]; [apply std_by_lengths |]).
  apply elem_of_nil in Hf. contradiction.
Qed.

Section StandardizationAccounting.
Context (P : Pandas) (n : Z) (touched : list string) (st0 st st' : StdState).
Context (col : string).
Hypothesis (He : std_extends n touched st0 st) (Hn : n_rows (std_cleaned st0) = n).
Hypothesis (Hcol : col ∈ touched).

Lemma _apply_inline_extends (rule_name : string) (func : list cell -> Transformed) :
  func ∈ inline_rules.*2 ->
  _apply_inline n st col rule_name func = Ok st' -> std_extends n touched st0 st'.
Proof.
  intros Hf. unfold _apply_inline.
  destruct (series (std_cleaned st) col) as [old |] eqn:Hold; cbn [bind];
    [| discriminate].
  intros [= <-]. destruct (inline_rules_lengths func Hf old).
  now apply record_changes_extends.
Qed.

Lemma _apply_norm_date_extends (fmt : string) :
  _apply_norm_date P n st col fmt = Ok st' -> std_extends n touched st0 st'.
Proof.
  unfold _apply_norm_date.
  destruct (series (std_cleaned st) col) as [old |] eqn:Hold; cbn [bind];
    [| discriminate].
  unfold std_normalize_date.
  destruct (to_datetime P None true _) as [parse |]; cbn [bind of_option];
    [| discriminate].
  intros [= <-].
  apply (record_changes_extends n touched st0 st col _ old (_, _));
    try assumption; cbn.
  - now rewrite !length_fmap.
  - unfold differs. rewrite length_zip_with, !length_fmap. lia.
Qed.

Lemma _apply_null_default_extends (default : string) :
  _apply_null_default n st col default = Ok st' -> std_extends n touched st0 st'.
Proof.
  unfold _apply_null_default.
  destruct (series (std_cleaned st) col) as [old |] eqn:Hold; cbn [bind];
    [| discriminate].
  intros [= <-].
  apply (record_changes_extends n touched st0 st col _ old (_, _));
    try assumption; cbn.
  - now rewrite length_fmap.
  - now rewrite length_fmap.
Qed.

End StandardizationAccounting.

Lemma standardization_entry_extends (P : Pandas) (n : Z) (touched : list string)
    (date_target_fmt null_default : string) (st0 st st' : StdState)
    (entry : RuleEntry) :
  std_extends n touched st0 st -> n_rows (std_cleaned st0) = n ->
  entry_column entry ∈ touched ->
  standardization_entry P n date_target_fmt null_default st entry = Ok st' ->
  std_extends n touched st0 st'.
Proof.
  intros He Hn Hcol. unfold standardization_entry.
  destruct (has_column (std_cleaned st) (entry_column entry)); cbn [negb];
    [| intros [= <-]; exact He].
  destruct (lookup_rule (entry_rule entry) inline_rules) as [func |] eqn:Hf.
  - apply _apply_inline_extends; try assumption.
    apply lookup_rule_elem with (1 := Hf).
  - destruct (String.eqb (entry_rule entry) "Normalize Date Format");
      [now apply _apply_norm_date_extends |].
    destruct (String.eqb (entry_rule entry) "Replace Null with Default");
      [now apply _apply_null_default_extends |].
    intros [= <-]. exact He.
Qed.

Lemma standardization_legacy_extends (P : Pandas) (n : Z) (touched : list string)
    (selected_rules : list string) (date_target_fmt null_default : string)
    (st0 st st' : StdState) (col : string) :
  std_extends n touched st0 st -> n_rows (std_cleaned st0) = n ->
  col ∈ touched ->
  standardization_legacy_column P n selected_rules date_target_fmt null_default
    st col = Ok st' ->
  std_extends n touched st0 st'.
Proof.
  intros He Hn Hcol. unfold standardization_legacy_column.
  destruct (has_column (std_cleaned st) col); cbn [negb];
    [| intros [= <-]; exact He].
  assert (Hinline : forall (rules : list (string * (list cell -> Transformed))) sa sb,
             (forall f, f ∈ rules.*2 -> f ∈ inline_rules.*2) ->
             std_extends n touched st0 sa ->
             for_each (fun st '(rule_name, func) =>
                         if bool_decide (rule_name ∈ selected_rules)
                         then _apply_inline n st col rule_name func
                         else Ok st) sa rules = Ok sb ->
             std_extends n touched st0 sb).
  { induction rules as [| [name func] rules IH]; intros sa sb Hsub Ha; cbn [for_each].
    - intros [= <-]. exact Ha.
    - assert (Hin : func ∈ inline_rules.*2)
        by (apply Hsub; rewrite fmap_cons; apply list_elem_of_here).
      assert (Hsub' : forall f, f ∈ rules.*2 -> f ∈ inline_rules.*2)
        by (intros f Hf; apply Hsub; rewrite fmap_cons;
            apply list_elem_of_further, Hf).
      destruct (bool_decide (name ∈ selected_rules)); cbn [bind].
      + destruct (_apply_inline n sa col name func) as [sc | e] eqn:E; cbn [bind];
          [| discriminate].
        apply IH; [exact Hsub' |].
        eapply _apply_inline_extends with (st := sa); eassumption.
      + apply IH; assumption. }
  destruct (for_each _ st inline_rules) as [st1 | e] eqn:E1; cbn [bind];
    [| discriminate].
  apply Hinline in E1; [| auto | exact He].
  destruct (bool_decide ("Normalize Date Format" ∈ selected_rules)).
  - destruct (_apply_norm_date P n st1 col date_target_fmt) as [st2 | e] eqn:E2;
      cbn [bind]; [| discriminate].
    apply _apply_norm_date_extends with (st0 := st0) (touched := touched) in E2;
      try assumption.
    destruct (bool_decide ("Replace Null with Default" ∈ selected_rules)).
    + now apply _apply_null_default_extends.
    + intros [= <-]. exact E2.
  - cbn [bind].
    destruct (bool_decide ("Replace Null with Default" ∈ selected_rules)).
    + now apply _apply_null_default_extends.
    + intros [= <-]. exact E1.
Qed.

Lemma for_each_std_extends {A} (n : Z) (touched : list string)
    (step : StdState -> A -> result StdState) (xs : list A) (st0 : StdState) :
  (forall st st' x, x ∈ xs -> std_extends n touched st0 st -> step st x = Ok st' ->
                    std_extends n touched st0 st') ->
  forall st st',
  std_extends n touched st0 st -> for_each step st xs = Ok st' ->
  std_extends n touched st0 st'.
Proof.
  induction xs as [| x xs IH]; intros Hstep st st' He; cbn.
  - intros [= <-]. exact He.
  - destruct (step st x) as [st1 | e] eqn:E; cbn; [| discriminate].
    apply IH.
    + intros sa sb y Hy. apply Hstep. apply list_elem_of_further, Hy.
    + eapply Hstep; [apply list_elem_of_here | exact He | exact E].
Qed.

Lemma standardization_run_extends (P : Pandas) (log : ExecLog) (df : DataFrame)
    (selected_rules columns : list string) (date_target_fmt null_default : string)
    (column_rule_map : option (list RuleEntry)) (st : StdState) :
  execute_standardization_rules P log df selected_rules columns date_target_fmt
    null_default column_rule_map = Ok st ->
  std_extends (n_rows df) (targeted_columns columns column_rule_map)
    {| std_cleaned := df; std_annexure := []; std_log := log |} st.
Proof.
  unfold execute_standardization_rules, targeted_columns.
  destruct column_rule_map as [[| e es] |];
    (apply for_each_std_extends; [| apply std_extends_refl]);
    intros sa sb x Hx Ha.
  - now apply standardization_legacy_extends.
  - apply standardization_entry_extends; try assumption; [reflexivity |].
    apply list_elem_of_fmap_2, Hx.
  - now apply standardization_legacy_extends.
Qed.



(** Whenever [execute_standardization_rules] returns, the standardized
    frame has the column names of the input, as many rows, and in every row
    as many cells; and every column that no rule was asked to rewrite holds
    the cells it held in the input. *)
Theorem standardization_preserves_frame (P : Pandas) (log : ExecLog)
    (df : DataFrame) (selected_rules columns : list string)
    (date_target_fmt null_default : string)
    (column_rule_map : option (list RuleEntry)) (st : StdState) :
  execute_standardization_rules P log df selected_rules columns date_target_fmt
    null_default column_rule_map = Ok st ->
  df_columns (std_cleaned st) = df_columns df
  /\ n_rows (std_cleaned st) = n_rows df
  /\ length <$> df_rows (std_cleaned st) = length <$> df_rows df
  /\ forall c, c ∉ targeted_columns columns column_rule_map ->
               series (std_cleaned st) c = series df c.
Proof.
  intros Hrun. apply standardization_run_extends in Hrun as (Hs & Hk & _).
  cbn [std_cleaned] in *. pose proof (same_shape_n_rows _ _ Hs) as Hn.
  destruct Hs as [Hc Hr]. repeat split; auto.
Qed.

Lemma standardization_preserves_frame_witness :
  exists st,
    execute_standardization_rules no_parse_pandas [] people
      ["Convert to Uppercase"] ["city"] "%Y-%m-%d" "N/A" None = Ok st
    /\ series (std_cleaned st) "city" = Ok [VStr "PUNE"; VStr "GOA"]
    /\ df_columns (std_cleaned st) = df_columns people
    /\ n_rows (std_cleaned st) = n_rows people
    /\ length <$> df_rows (std_cleaned st) = length <$> df_rows people
    /\ forall c, c ∉ targeted_columns ["city"] None ->
                 series (std_cleaned st) c = series people c.
Proof.
  eexists. split; [vm_compute; reflexivity |]. split; [reflexivity |].
  apply (standardization_preserves_frame no_parse_pandas [] people
           ["Convert to Uppercase"] ["city"] "%Y-%m-%d" "N/A" None).
  vm_compute. reflexivity.
Defined.

(* ===================================================================== *)
(** * Properties: text normal forms *)
(* ===================================================================== *)








Lemma upper_lower_char (c : ascii) : Text.upper_char (Text.lower_char c) = Text.upper_char c.
Proof. destruct c as [[] [] [] [] [] [] [] []]; reflexivity. Qed.





























(* ===================================================================== *)
(** * Properties: standardization transforms *)
(* ===================================================================== *)







(* ===================================================================== *)
(** * Properties: severity, status and score ranges *)
(* ===================================================================== *)

Lemma lt_Q_spec (x bound : Q) : lt_Q x bound = true <-> (x < bound)%Q.
Proof.
  unfold lt_Q. rewrite negb_true_iff.
  destruct (Qle_bool bound x) eqn:E.
  - apply Qle_bool_iff in E. split; [discriminate |].
    intros H. exfalso. exact (Qlt_not_le _ _ H E).
  - split; [intros _ | reflexivity]. apply Qnot_le_lt. intros H.
    apply Qle_bool_iff in H. congruence.
Qed.

Lemma lt_Q_false (x bound : Q) : lt_Q x bound = false <-> (bound <= x)%Q.
Proof.
  unfold lt_Q. rewrite negb_false_iff. apply Qle_bool_iff.
Qed.

Ltac case_lt_Q x b :=
  let H := fresh "H" in
  destruct (lt_Q x b) eqn:H; [apply lt_Q_spec in H | apply lt_Q_false in H].

Ltac case_le_Q x y :=
  let H := fresh "H" in
  destruct (Qle_bool x y) eqn:H;
  [apply Qle_bool_iff in H
  | assert (y < x)%Q
      by (apply Qnot_le_lt; let H' := fresh in
          intros H'; apply Qle_bool_iff in H'; congruence);
    clear H].

(** The entry [_log_rule] appends carries the severity that
    [_severity_label] gives to its score; an entry without a score (nothing
    evaluated) is a Pass.  Passed and failed rows add up to the evaluated
    rows, and the entries logged before are kept in place. *)
Theorem log_entry_severity (log : ExecLog) (dim col rule : string) (n f : Z) :
  exists e,
    _log_rule log dim col rule n f = log ++ [e]
    /\ Passed e + Failed e = Evaluated e
    /\ (forall q, Score_pct e = Some q -> 0 < n /\ Severity e = _severity_label q)
    /\ (Score_pct e = None -> n <= 0 /\ Severity e = "Pass").
Proof.
  unfold _log_rule. eexists. split; [reflexivity |]. cbn.
  split; [lia |]. destruct (0 <? n) eqn:En.
  - apply Z.ltb_lt in En. split; [| discriminate].
    intros q [= <-]. split; [exact En |]. reflexivity.
  - apply Z.ltb_ge in En. split; [discriminate |]. intros _. split; [exact En |].
    reflexivity.
Qed.

(** The status, the fill colour and the font colour of a score use the
    same two thresholds, and they line up with the severity: a score is
    "Needs Improvement" exactly when its severity is Critical, High or
    Medium; a Good score is a Pass; a Low severity is Moderate.  A score of
    exactly 95 is a Pass that is only Moderate. *)
Theorem status_severity_consistent (score : Q) :
  (_get_status score = "Needs Improvement"
   <-> _severity_label score ∈ ["Critical"; "High"; "Medium"])
  /\ (_get_status score = "Good" -> _severity_label score = "Pass")
  /\ (_severity_label score = "Low" -> _get_status score = "Moderate")
  /\ (_get_status score = "Good"
      <-> _score_color score = _CLR_GOOD /\ _score_font_color score = _CLR_GOOD_FONT)
  /\ (_get_status score = "Moderate"
      <-> _score_color score = _CLR_MODERATE
          /\ _score_font_color score = _CLR_MODERATE_FONT)
  /\ (_get_status score = "Needs Improvement"
      <-> _score_color score = _CLR_POOR /\ _score_font_color score = _CLR_POOR_FONT)
  /\ (score == 95 -> _severity_label score = "Pass" /\ _get_status score = "Moderate")%Q.
Proof.
  unfold _get_status, _score_color, _score_font_color, _severity_label.
  case_lt_Q 95%Q score; case_le_Q 85%Q score;
  case_lt_Q score 50%Q; case_lt_Q score 70%Q; case_lt_Q score 85%Q;
  case_lt_Q score 95%Q;
  try (exfalso; lra);
  repeat apply conj; intros;
  first
    [ reflexivity
    | discriminate
    | exfalso; lra
    | solve [repeat constructor]
    | match goal with
      | Hc : _ /\ _ |- _ => destruct Hc; discriminate
      | Hin : _ ∈ _ |- _ =>
          repeat (apply elem_of_cons in Hin as [Hin | Hin]; [discriminate |]);
          apply elem_of_nil in Hin; contradiction
      end ].
Qed.

Section ScoreRanges.
Local Open Scope Q_scope.

Lemma max0_pct_range (a b : Z) :
  (0 < b)%Z -> (a <= b)%Z -> 0 <= Num.max0 (Num.pct a b) <= 100.
Proof.
  intros Hb Hab. unfold Num.max0.
  destruct (Qle_bool 0 (Num.pct a b)) eqn:E; [| lra].
  apply Qle_bool_iff in E. split; [exact E |].
  unfold Num.pct in *.
  assert (Hb' : 0 < inject_Z b)
    by (change 0%Q with (inject_Z 0); rewrite <- Zlt_Qlt; exact Hb).
  assert (Hab' : inject_Z a <= inject_Z b) by (rewrite <- Zle_Qle; exact Hab).
  assert (H1 : inject_Z a / inject_Z b <= 1)
    by (apply Qle_shift_div_r; [exact Hb' | lra]).
  lra.
Qed.

Lemma round2_percentage (q : Q) : 0 <= q <= 100 -> is_percentage (Num.round2 q).
Proof. intros H. exact (round2_between 0 100 q H). Qed.

Lemma percentage_0 : is_percentage 0.
Proof. unfold is_percentage. lra. Qed.

Lemma sum_Z_nonneg (l : list Z) : Forall (fun z => (0 <= z)%Z) l -> (0 <= sum_Z l)%Z.
Proof. induction 1 as [| z l Hz _ IH]; [cbn; lia |]. rewrite sum_Z_cons. lia. Qed.

Lemma _score_from_log_range (log : ExecLog) (dim : string) (n : Z) (q : Q) :
  counts_only log -> _score_from_log log dim n = Some q -> is_percentage q.
Proof.
  intros Hlog. rewrite _score_from_log_unfold.
  assert (Hent : counts_only (entries_of log dim)).
  { unfold counts_only, entries_of, ExecLog in *. apply Forall_forall.
    intros e He. apply list_elem_of_filter in He as [_ He].
    rewrite Forall_forall in Hlog. apply Hlog, He. }
  destruct (entries_of log dim) as [| e0 es] eqn:Ee; [discriminate |].
  rewrite <- Ee in *. clear Ee e0 es.
  assert (Hf : (0 <= sum_Z (Failed <$> entries_of log dim))%Z).
  { apply sum_Z_nonneg, Forall_fmap. eapply Forall_impl; [exact Hent |].
    cbn. intros e [? ?]. assumption. }
  assert (Hv : (0 <= sum_Z (Evaluated <$> entries_of log dim))%Z).
  { apply sum_Z_nonneg, Forall_fmap. eapply Forall_impl; [exact Hent |].
    cbn. intros e [? ?]. assumption. }
  destruct (sum_Z (Evaluated <$> entries_of log dim) =? 0)%Z eqn:E0; [discriminate |].
  apply Z.eqb_neq in E0. intros [= <-].
  apply round2_percentage, max0_pct_range; lia.
Qed.

Lemma fallback_score_range (total failures : Z) :
  (0 <= total)%Z -> (0 <= failures)%Z -> is_percentage (fallback_score total failures).
Proof.
  intros Ht Hf. unfold fallback_score.
  destruct (total =? 0)%Z eqn:E0; [apply percentage_0 |].
  apply Z.eqb_neq in E0. apply round2_percentage, max0_pct_range; lia.
Qed.

Lemma count_dimension_nonneg (annexure : list IssueRecord) (dim : string) :
  (0 <= count_dimension annexure dim)%Z.
Proof. unfold count_dimension. lia. Qed.

Lemma compute_simple_score_range {A} (dim : string) (log : ExecLog) (n : Z)
    (annexure : list IssueRecord) (columns selected_rules : list string)
    (column_rule_map : option (list A)) :
  (0 <= n)%Z -> counts_only log ->
  is_percentage (compute_simple_score dim log n annexure columns selected_rules
                   column_rule_map).
Proof.
  intros Hn Hlog. unfold compute_simple_score.
  destruct (n =? 0)%Z; [apply percentage_0 |].
  destruct (_score_from_log log dim n) as [q |] eqn:Eq.
  - eapply _score_from_log_range; eassumption.
  - apply fallback_score_range; [| apply count_dimension_nonneg].
    apply Z.mul_nonneg_nonneg; [| exact Hn].
    unfold map_pairs. destruct column_rule_map as [[| x l] |];
      try (unfold llen; lia);
      destruct selected_rules, columns; unfold llen; cbn [length]; nia.
Qed.

(** Every dimension score is a percentage.  For a frame of [n >= 0] rows
    and a log that holds no negative count, the completeness, validity and
    standardization scores lie between 0 and 100, whether they come from
    the log or from the annexure fallback; the uniqueness score lies
    between 0 and 100 for every duplicate frame, and the log it leaves
    holds no negative count either. *)
Theorem dimension_scores_are_percentages {A} (log : ExecLog) (n : Z)
    (annexure : list IssueRecord) (columns selected_rules : list string)
    (column_rule_map : option (list A)) (dup_records : option DupFrame) :
  (0 <= n)%Z -> counts_only log ->
  is_percentage (compute_completeness_score log n annexure columns selected_rules
                   column_rule_map)
  /\ is_percentage (compute_validity_score log n annexure columns selected_rules
                      column_rule_map)
  /\ is_percentage (compute_standardization_score log n annexure columns
                      selected_rules column_rule_map)
  /\ is_percentage (compute_uniqueness_score log n dup_records).1
  /\ counts_only (compute_uniqueness_score log n dup_records).2.
Proof.
  intros Hn Hlog. split; [| split; [| split; [| split]]].
  - unfold compute_completeness_score.
    destruct (n =? 0)%Z; [apply percentage_0 |].
    destruct (_score_from_log log "Completeness" n) as [q |] eqn:Eq.
    + eapply _score_from_log_range; eassumption.
    + apply fallback_score_range; [| apply count_dimension_nonneg].
      apply Z.mul_nonneg_nonneg; [| exact Hn].
      unfold map_pairs. destruct column_rule_map as [[| x l] |];
        try (unfold llen; lia);
        destruct (filter _ selected_rules);
        destruct (bool_decide _ && negb _)%bool; unfold llen; cbn [length]; nia.
  - now apply compute_simple_score_range.
  - now apply compute_simple_score_range.
  - unfold compute_uniqueness_score.
    destruct (n =? 0)%Z eqn:E0; [apply percentage_0 |]. apply Z.eqb_neq in E0.
    match goal with |- context [if ?b then _ else _] => destruct b end;
      cbn [fst]; [unfold is_percentage; lra |].
    match goal with
    | |- context [Z.min ?d n] =>
        assert (0 <= d)%Z
          by (destruct dup_records as [[len [rn |]] |]; unfold nunique; lia)
    end.
    apply round2_percentage, max0_pct_range; lia.
  - unfold compute_uniqueness_score.
    destruct (n =? 0)%Z eqn:E0; [exact Hlog |]. apply Z.eqb_neq in E0.
    match goal with |- context [if ?b then _ else _] => destruct b end;
      cbn [snd]; unfold _log_rule, counts_only;
      (apply Forall_app; split; [exact Hlog |]);
      constructor; try constructor; cbn [Failed Evaluated]; try lia.
    destruct dup_records as [[len [rn |]] |]; unfold nunique; lia.
Qed.

Lemma dimension_scores_are_percentages_witness :
  (0 <= 10)%Z /\ counts_only scenario_A_log
  /\ compute_completeness_score scenario_A_log 10 [] ["email"] ["Not Null"]
       (None : option (list RuleEntry)) = 80
  /\ (compute_uniqueness_score scenario_A_log 10
        (Some (mkDupFrame 3 (Some [2; 5; 5]%Z)))).1 = 80
  /\ is_percentage (compute_completeness_score scenario_A_log 10 [] ["email"]
                      ["Not Null"] (None : option (list RuleEntry)))
  /\ is_percentage (compute_validity_score scenario_A_log 10 [] ["email"]
                      ["Not Null"] (None : option (list RuleEntry)))
  /\ is_percentage (compute_standardization_score scenario_A_log 10 [] ["email"]
                      ["Not Null"] (None : option (list RuleEntry)))
  /\ is_percentage (compute_uniqueness_score scenario_A_log 10
                      (Some (mkDupFrame 3 (Some [2; 5; 5]%Z)))).1
  /\ counts_only (compute_uniqueness_score scenario_A_log 10
                    (Some (mkDupFrame 3 (Some [2; 5; 5]%Z)))).2.
Proof.
  assert (Hlog : counts_only scenario_A_log).
  { unfold counts_only, scenario_A_log, _log_rule. cbn.
    constructor; [cbn; lia | constructor]. }
  split; [lia |]. split; [exact Hlog |].
  split; [reflexivity |]. split; [reflexivity |].
  apply (dimension_scores_are_percentages scenario_A_log 10 [] ["email"]
           ["Not Null"] (None : option (list RuleEntry))
           (Some (mkDupFrame 3 (Some [2; 5; 5]%Z)))); [lia | exact Hlog].
Defined.




(** Two evaluated dimensions and one that was not: the mean of 80 and 60.5
    is 70.25. *)
Example overall_score_example :
  compute_overall_score
    [("Completeness", Some 80); ("Validity", None); ("Uniqueness", Some (605 # 10))]
  = (281 # 4)%Q.
Proof. reflexivity. Qed.

End ScoreRanges.
